(** * s3-managed-download-js: the part-scheduling pipeline

    A shallow embedding of [getRangeOfPart], [getInformationFromRange] and
    of the [ManagedDownloader] class ([getObjectStream], [downloadByParts],
    [waitForDrainEvent]), with the properties of the specification stated
    and proved over it.

    Modelling conventions.
    - JavaScript numbers that hold byte counts, offsets and part indices
      are integers of [Z]; [NaN], the only non-integer value the code can
      produce from such inputs (through [parseInt]), is explicit in
      [Number].  Rounding above 2^53 and fractional option values are
      outside the model.
    - Strings are [string]; number-to-string conversion is decimal with a
      leading minus sign for negative values.
    - Buffers are lists of bytes.
    - The request object is shared and mutated in place: the pipeline state
      carries the one object, every [client.getObject] call is logged with
      the field values the object has at the time of the call.
    - Asynchrony is an event system: the async function runs from one
      await to the next, the environment settles promises and emits
      [drain] in any order. *)

From Stdlib Require Import ZArith String Ascii Strings.Byte DecimalString DecimalZ DecimalN DecimalPos.
From stdpp Require Import base tactics option list strings gmap.

Local Open Scope Z_scope.

(** ** Strings and numbers *)

Module Js.

(** [String(n)] for an integer [n]. *)
Definition numToString (n : Z) : string :=
  NilZero.string_of_int (Z.to_int n).

Definition isDigit (c : ascii) : bool :=
  (48 <=? nat_of_ascii c)%nat && (nat_of_ascii c <=? 57)%nat.

Definition digitValue (c : ascii) : Z := Z.of_nat (nat_of_ascii c) - 48.

Fixpoint allDigits (s : string) : bool :=
  match s with
  | EmptyString => true
  | String c s' => isDigit c && allDigits s'
  end.

(** Value of a string of decimal digits, most significant first. *)
Fixpoint decimalValueFrom (acc : Z) (s : string) : Z :=
  match s with
  | EmptyString => acc
  | String c s' => decimalValueFrom (10 * acc + digitValue c) s'
  end.

Definition decimalValue (s : string) : Z := decimalValueFrom 0 s.

(** The longest prefix matched by [[0-9]*], and what follows it. *)
Fixpoint spanDigits (s : string) : string * string :=
  match s with
  | EmptyString => (EmptyString, EmptyString)
  | String c s' =>
      if isDigit c then
        let '(ds, rest) := spanDigits s' in (String c ds, rest)
      else (EmptyString, s)
  end.

Fixpoint stripPrefix (p s : string) : option string :=
  match p, s with
  | EmptyString, _ => Some s
  | String a p', String b s' =>
      if Ascii.eqb a b then stripPrefix p' s' else None
  | String _ _, EmptyString => None
  end.

(** A JavaScript number as far as this code can produce one. *)
Inductive Number := NaN | Int (z : Z).

Definition isWhiteSpace (c : ascii) : bool :=
  let n := nat_of_ascii c in
  (n =? 32)%nat || ((9 <=? n)%nat && (n <=? 13)%nat).

Fixpoint trimStart (s : string) : string :=
  match s with
  | String c s' => if isWhiteSpace c then trimStart s' else s
  | EmptyString => EmptyString
  end.

Definition hexDigitValue (c : ascii) : option Z :=
  let n := nat_of_ascii c in
  if isDigit c then Some (Z.of_nat n - 48)
  else if (97 <=? n)%nat && (n <=? 102)%nat then Some (Z.of_nat n - 87)
  else if (65 <=? n)%nat && (n <=? 70)%nat then Some (Z.of_nat n - 55)
  else None.

(** Longest prefix of hexadecimal digits: its value, and whether it is
    non-empty. *)
Fixpoint hexValueFrom (acc : Z) (seen : bool) (s : string) : Z * bool :=
  match s with
  | EmptyString => (acc, seen)
  | String c s' =>
      match hexDigitValue c with
      | Some d => hexValueFrom (16 * acc + d) true s'
      | None => (acc, seen)
      end
  end.

(** [parseInt(s)] with no radix argument: leading white space, an
    optional sign, an optional [0x] prefix, then the longest run of
    digits; [NaN] when that run is empty. *)
Definition parseUnsigned (s : string) : Number :=
  match s with
  | String "0" (String "x" h) | String "0" (String "X" h) =>
      let '(v, seen) := hexValueFrom 0 false h in
      if seen then Int v else NaN
  | _ =>
      match fst (spanDigits s) with
      | EmptyString => NaN
      | ds => Int (decimalValue ds)
      end
  end.

Definition parseInt (s : string) : Number :=
  match trimStart s with
  | String "-" s' =>
      match parseUnsigned s' with Int v => Int (- v) | NaN => NaN end
  | String "+" s' => parseUnsigned s'
  | s' => parseUnsigned s'
  end.

(** [parseInt(x)] where [x] may be [undefined]: [String(undefined)] has
    no digits. *)
Definition parseIntOpt (x : option string) : Number :=
  match x with
  | Some s => parseInt s
  | None => NaN
  end.

(** [s.split(sep)] for a one-character separator. *)
Fixpoint splitOn (sep : ascii) (s : string) : list string :=
  match s with
  | EmptyString => [EmptyString]
  | String c s' =>
      if Ascii.eqb c sep then EmptyString :: splitOn sep s'
      else match splitOn sep s' with
           | piece :: pieces => String c piece :: pieces
           | [] => [String c EmptyString]
           end
  end.

(** Truthiness of an optional string and of an optional number. *)
Definition truthyString (s : option string) : bool :=
  match s with
  | Some (String _ _) => true
  | _ => false
  end.

Definition truthyNum (n : option Z) : bool :=
  match n with
  | Some z => negb (z =? 0)
  | None => false
  end.

(** [Math.ceil(a / b)] for integers [a] and [b > 0]. *)
Definition ceilDiv (a b : Z) : Z := - ((- a) / b).

End Js.

Import Js.

(** ** getRangeOfPart.ts *)

Definition startByteOfPart (partNum maxPartSize byteOffset : Z) : Z :=
  partNum * maxPartSize + byteOffset.

Definition endByteOfPart (partNum totalObjectLength maxPartSize byteOffset : Z) : Z :=
  Z.min totalObjectLength ((partNum + 1) * maxPartSize) + byteOffset.

Definition formatRange (first last : Z) : string :=
  "bytes=" +:+ numToString first +:+ "-" +:+ numToString last.

Definition getRangeOfPart (partNum totalObjectLength maxPartSize byteOffset : Z) : string :=
  let startByte := startByteOfPart partNum maxPartSize byteOffset in
  let endByte := endByteOfPart partNum totalObjectLength maxPartSize byteOffset in
  formatRange startByte (endByte - 1).

(** ** getInformationFromRange.ts *)

Inductive Error :=
| InvalidParams          (* 'expected an object in the format ...' *)
| InvalidRange           (* 'Invalid Range provided by client' *)
| FetchError (tag : Z)   (* rejection of client.getObject(params).promise() *)
| TypeError.             (* property access on undefined *)

Module RangeInfo.
Record t := mk {
  startByte : Z;
  endByte : Z;
  length : Z
}.
End RangeInfo.
Abbreviation RangeInfo := RangeInfo.t.

(** [/^bytes=([0-9]+)-([0-9]+)$/.exec(range)]: the two captured groups.
    A greedy [[0-9]+] followed by a character that is not a digit can only
    match the whole run of digits, so no backtracking is involved. *)
Definition execRangeRegExp (range : string) : option (string * string) :=
  match stripPrefix "bytes=" range with
  | None => None
  | Some r1 =>
      match spanDigits r1 with
      | (String c1 d1, String "-" r2) =>
          match spanDigits r2 with
          | (String c2 d2, EmptyString) => Some (String c1 d1, String c2 d2)
          | _ => None
          end
      | _ => None
      end
  end.

(** [parseInt] is applied to captured groups only, which are non-empty
    strings of decimal digits; there it is [decimalValue] (lemma
    [parseInt_digits] below). *)
Definition getInformationFromRange (range : string) : Error + RangeInfo :=
  match execRangeRegExp range with
  | None => inl InvalidRange
  | Some (b1, b2) =>
      inr {| RangeInfo.startByte := decimalValue b1;
             RangeInfo.endByte := decimalValue b2;
             RangeInfo.length := decimalValue b2 - decimalValue b1 |}
  end.

(** ** ManagedDownloader.ts: data *)

Record GetObjectStreamInput := mkInput {
  Bucket : option string;
  Key : option string;
  Range : option string;
  PartNumber : option Z
}.

(** [params.Range = r], the other fields untouched. *)
Definition setRange (params : GetObjectStreamInput) (r : string) : GetObjectStreamInput :=
  {| Bucket := Bucket params; Key := Key params;
     Range := Some r; PartNumber := PartNumber params |}.

Record GetObjectOutput := mkOutput {
  Body : list byte;
  ContentRange : option string;
  ContentType : option string
}.

(** How the promise of [client.getObject(params).promise()] settles. *)
Inductive Settlement :=
| Fulfilled (data : GetObjectOutput)
| Rejected (err : Error).

(** The S3 client is an external collaborator: a function from the request
    it is called with to the way the returned promise settles.  When it
    settles is up to the environment (event [Settle] below). *)
Definition S3 := GetObjectStreamInput -> Settlement.

Record ManagedDownloaderOptions := mkOptions {
  optMaxPartSize : option Z;
  optMaxConcurrency : option Z
}.

Record ManagedDownloader := mkDownloader {
  client : S3;
  maxPartSize : Z;
  maxConcurrency : Z
}.

Inductive ConstructorError :=
| ClientMissing            (* 'S3 client must be provided' *)
| BadMaxPartSize           (* 'Maximum part size must be a positive number' *)
| BadMaxConcurrency.       (* 'Maximum concurrency must be a positive number' *)

(** [x || d] for an optional number. *)
Definition orDefault (x : option Z) (d : Z) : Z :=
  match x with
  | Some z => if z =? 0 then d else z
  | None => d
  end.

(** [options.x !== undefined && options.x < 1] *)
Definition belowOne (x : option Z) : bool :=
  match x with
  | Some z => z <? 1
  | None => false
  end.

Definition newManagedDownloader (cl : option S3) (options : ManagedDownloaderOptions)
  : ConstructorError + ManagedDownloader :=
  match cl with
  | None => inl ClientMissing
  | Some c =>
      if belowOne (optMaxPartSize options) then inl BadMaxPartSize
      else if belowOne (optMaxConcurrency options) then inl BadMaxConcurrency
      else inr {| client := c;
                  maxPartSize := orDefault (optMaxPartSize options) (1024*1024*5);
                  maxConcurrency := orDefault (optMaxConcurrency options) 1 |}
  end.

(** The destination stream is observed through the operations performed on
    it, oldest first.  [Write] records what [write] returned: [false] is
    the not-ready signal. *)
Inductive SinkOp :=
| SetMimeType (m : option string)
| SetContentLength (n : Number)
| Write (chunk : list byte) (ready : bool)
| EndStream
| EmitError (e : Error).

Definition isWrite (op : SinkOp) : bool :=
  match op with Write _ _ => true | _ => false end.

Definition writeCount (sink : list SinkOp) : nat :=
  List.length (filter (fun op => isWrite op = true) sink).

(** The chunks written, in order. *)
Definition written (sink : list SinkOp) : list (list byte) :=
  omap (fun op => match op with Write chunk _ => Some chunk | _ => None end) sink.

(** [destinationStream.write(chunk)]: what [write] returns is decided by
    the stream; it is given as a function of the number of earlier writes. *)
Definition sinkWrite (ready : nat -> bool) (sink : list SinkOp) (chunk : list byte)
  : list SinkOp * bool :=
  let r := ready (writeCount sink) in (sink ++ [Write chunk r], r).

(** A pending or settled fetch, as held in the queue. *)
Record FetchPromise := mkPromise {
  part : Z;
  settlesAs : Settlement
}.

(** Where the async function [downloadByParts] stands. *)
Inductive Control :=
| LoopHead                               (* about to test the while condition *)
| AwaitFetch (p : option FetchPromise)   (* suspended in [await queue.shift()] *)
| AwaitDrain                             (* suspended in [await waitForDrainEvent] *)
| Returned.                              (* the function has returned *)

Record Pipeline := mkPipeline {
  params : GetObjectStreamInput;            (* the caller's request object *)
  destinationStream : list SinkOp;
  getObjectCalls : list GetObjectStreamInput;
  settled : gset Z;                         (* parts whose promise has settled *)
  contentLength : Z;
  byteOffset : Z;
  startingPart : Z;
  queue : list FetchPromise;
  numDownloads : Z;
  currentPart : Z;
  drainWaits : nat;                         (* calls of waitForDrainEvent *)
  control : Control
}.

Definition setControl (c : Control) (st : Pipeline) : Pipeline :=
  mkPipeline (params st) (destinationStream st) (getObjectCalls st) (settled st)
    (contentLength st) (byteOffset st) (startingPart st)
    (queue st) (numDownloads st) (currentPart st) (drainWaits st) c.

Definition setSink (sink : list SinkOp) (st : Pipeline) : Pipeline :=
  mkPipeline (params st) sink (getObjectCalls st) (settled st)
    (contentLength st) (byteOffset st) (startingPart st)
    (queue st) (numDownloads st) (currentPart st) (drainWaits st) (control st).

Definition setQueue (q : list FetchPromise) (st : Pipeline) : Pipeline :=
  mkPipeline (params st) (destinationStream st) (getObjectCalls st) (settled st)
    (contentLength st) (byteOffset st) (startingPart st)
    q (numDownloads st) (currentPart st) (drainWaits st) (control st).

Definition setSettled (s : gset Z) (st : Pipeline) : Pipeline :=
  mkPipeline (params st) (destinationStream st) (getObjectCalls st) s
    (contentLength st) (byteOffset st) (startingPart st)
    (queue st) (numDownloads st) (currentPart st) (drainWaits st) (control st).

Definition incrNumDownloads (st : Pipeline) : Pipeline :=
  mkPipeline (params st) (destinationStream st) (getObjectCalls st) (settled st)
    (contentLength st) (byteOffset st) (startingPart st)
    (queue st) (numDownloads st + 1) (currentPart st) (drainWaits st) (control st).

Definition incrDrainWaits (st : Pipeline) : Pipeline :=
  mkPipeline (params st) (destinationStream st) (getObjectCalls st) (settled st)
    (contentLength st) (byteOffset st) (startingPart st)
    (queue st) (numDownloads st) (currentPart st) (S (drainWaits st)) (control st).

(** What the environment and the scheduler can do next. *)
Inductive Event :=
| Tick              (* the async function gets to run *)
| Settle (i : Z)    (* the fetch of part [i] settles *)
| Drain.            (* the stream emits 'drain' *)

(** ** ManagedDownloader.ts: downloadByParts *)

Section Download.

Variable this : ManagedDownloader.
Variable ready : nat -> bool.

Definition numParts (st : Pipeline) : Z :=
  ceilDiv (contentLength st) (maxPartSize this).

(** One turn of the [for] loop: set [params.Range], call the client with
    the request object as it is now, push the promise, advance. *)
Definition issueRequest (st : Pipeline) : Pipeline :=
  let params' :=
    setRange (params st)
      (getRangeOfPart (currentPart st) (contentLength st) (maxPartSize this) (byteOffset st)) in
  mkPipeline params' (destinationStream st) (getObjectCalls st ++ [params']) (settled st)
    (contentLength st) (byteOffset st) (startingPart st)
    (queue st ++ [mkPromise (currentPart st) (client this params')])
    (numDownloads st) (currentPart st + 1) (drainWaits st) (control st).

Fixpoint issueRequests (n : nat) (st : Pipeline) : Pipeline :=
  match n with
  | O => st
  | S n' => issueRequests n' (issueRequest st)
  end.

Definition numRequests (st : Pipeline) : Z :=
  Z.min (maxConcurrency this - Z.of_nat (List.length (queue st)))
        (numParts st - currentPart st).

(** [catch(err)]: emit the error on the stream and return. *)
Definition failWith (e : Error) (st : Pipeline) : Pipeline :=
  setControl Returned (setSink (destinationStream st ++ [EmitError e]) st).

(** From the loop test to [await queue.shift()]. *)
Definition loopHead (st : Pipeline) : Pipeline :=
  if numDownloads st <? numParts st - startingPart st then
    let st1 := issueRequests (Z.to_nat (numRequests st)) st in
    match queue st1 with
    | p :: q => setControl (AwaitFetch (Some p)) (setQueue q st1)
    | [] => setControl (AwaitFetch None) st1
    end
  else
    setControl Returned (setSink (destinationStream st ++ [EndStream]) st).

(** After the awaited promise has settled: write the body, then either go
    round the loop or wait for 'drain'.  Awaiting [undefined] (an empty
    queue) gives [undefined], whose [Body] cannot be read. *)
Definition afterFetch (p : option FetchPromise) (st : Pipeline) : Pipeline :=
  match p with
  | None => failWith TypeError st
  | Some pr =>
      match settlesAs pr with
      | Rejected err => failWith err st
      | Fulfilled result =>
          let '(sink, ok) := sinkWrite ready (destinationStream st) (Body result) in
          if ok then setControl LoopHead (incrNumDownloads (setSink sink st))
          else setControl AwaitDrain (incrDrainWaits (setSink sink st))
      end
  end.

Definition isSettled (p : option FetchPromise) (st : Pipeline) : bool :=
  match p with
  | None => true
  | Some pr => bool_decide (part pr ∈ settled st)
  end.

Definition step (st : Pipeline) (ev : Event) : Pipeline :=
  match ev, control st with
  | Tick, LoopHead => loopHead st
  | Tick, AwaitFetch p => if isSettled p st then afterFetch p st else st
  | Drain, AwaitDrain => setControl LoopHead (incrNumDownloads st)
  | Settle i, _ =>
      if (startingPart st <=? i) && (i <? currentPart st)
      then setSettled ({[ i ]} ∪ settled st) st
      else st
  | _, _ => st
  end.

Definition run (evs : list Event) (st : Pipeline) : Pipeline :=
  fold_left step evs st.

(** The frame of a call [downloadByParts(params, destinationStream,
    contentLength, byteOffset, startingPart)]; an [undefined]
    [byteOffset] takes the default 0. *)
Definition enterDownloadByParts (params : GetObjectStreamInput)
    (sink : list SinkOp) (calls : list GetObjectStreamInput)
    (contentLength : Z) (byteOffset : option Z) (startingPart : Z) : Pipeline :=
  mkPipeline params sink calls ∅ contentLength (default 0 byteOffset) startingPart
    [] 0 startingPart O LoopHead.

(** When [downloadByParts] is not called at all there is no frame; the
    state then has nothing in flight and nothing left to run. *)
Definition noPipeline (params : GetObjectStreamInput)
    (sink : list SinkOp) (calls : list GetObjectStreamInput) : Pipeline :=
  mkPipeline params sink calls ∅ 0 0 0 [] 0 0 O Returned.

(** The call itself runs the function up to its first await. *)
Definition downloadByParts (params : GetObjectStreamInput)
    (sink : list SinkOp) (calls : list GetObjectStreamInput)
    (contentLength : Z) (byteOffset : option Z) (startingPart : Z) : Pipeline :=
  step (enterDownloadByParts params sink calls contentLength byteOffset startingPart) Tick.

(** ** ManagedDownloader.ts: getObjectStream *)

(** How the promise returned by [getObjectStream] settles, with the
    request object and the fetches issued by then. *)
Inductive Completion :=
| Rejects (e : Error) (params : GetObjectStreamInput) (calls : list GetObjectStreamInput)
| Resolves (st : Pipeline).

(** [contentLength || parseInt(getObjectData.ContentRange!.split('/')[1])] *)
Definition resolveContentLength (contentLength : option Z) (data : GetObjectOutput)
  : Error + Number :=
  let fromContentRange :=
    match ContentRange data with
    | None => inl TypeError
    | Some cr => inr (parseIntOpt (splitOn "/" cr !! 1%nat))
    end in
  match contentLength with
  | Some l => if l =? 0 then fromContentRange else inr (Int l)
  | None => fromContentRange
  end.

(** [contentLength > this.maxPartSize] *)
Definition exceedsPartSize (n : Number) : option Z :=
  match n with
  | Int l => if maxPartSize this <? l then Some l else None
  | NaN => None
  end.

(** The three ways the request is prepared for the first fetch: the
    request object after the assignment, and the local variables
    [contentLength] and [byteOffset]. *)
Definition prepareRequest (params : GetObjectStreamInput)
  : Error + (GetObjectStreamInput * option Z * option Z) :=
  if truthyString (Range params) && negb (truthyNum (PartNumber params)) then
    match getInformationFromRange (default "" (Range params)) with
    | inl e => inl e
    | inr rangeInfo =>
        let contentLength := RangeInfo.length rangeInfo in
        let byteOffset := RangeInfo.startByte rangeInfo in
        inr (setRange params (getRangeOfPart 0 contentLength (maxPartSize this) byteOffset),
             Some contentLength, Some byteOffset)
    end
  else if negb (truthyNum (PartNumber params)) then
    inr (setRange params ("bytes=0-" +:+ numToString (maxPartSize this - 1)), None, None)
  else inr (params, None, None).

Definition getObjectStream (params : GetObjectStreamInput) : Completion :=
  if negb (truthyString (Bucket params)) || negb (truthyString (Key params)) then
    Rejects InvalidParams params []
  else
    match prepareRequest params with
    | inl e => Rejects e params []
    | inr (params1, contentLength, byteOffset) =>
        match client this params1 with
        | Rejected e => Rejects e params1 [params1]
        | Fulfilled getObjectData =>
            match resolveContentLength contentLength getObjectData with
            | inl e => Rejects e params1 [params1]
            | inr contentLength' =>
                let sink :=
                  [SetMimeType (ContentType getObjectData);
                   SetContentLength contentLength'] in
                let sink := fst (sinkWrite ready sink (Body getObjectData)) in
                match exceedsPartSize contentLength',
                      negb (truthyNum (PartNumber params1)) with
                | Some l, true =>
                    Resolves (downloadByParts params1 sink [params1] l byteOffset 1)
                | _, _ =>
                    Resolves (noPipeline params1 (sink ++ [EndStream]) [params1])
                end
            end
        end
    end.

End Download.

(** ** Vocabulary of the specification *)

(** The textual form [bytes=<start>-<end>], both bounds non-empty runs of
    decimal digits. *)
Definition rangeSyntax (r d1 d2 : string) : Prop :=
  r = "bytes=" +:+ d1 +:+ "-" +:+ d2
  /\ allDigits d1 = true /\ d1 <> EmptyString
  /\ allDigits d2 = true /\ d2 <> EmptyString.

(** The bytes a range string asks the store for: [bytes=a-b] names the
    offsets [a] to [b], both included. *)
Definition rangeCoversb (r : string) (b : Z) : bool :=
  match getInformationFromRange r with
  | inr info => (RangeInfo.startByte info <=? b) && (b <=? RangeInfo.endByte info)
  | inl _ => false
  end.

Definition rangeCovers (r : string) (b : Z) : Prop := rangeCoversb r b = true.

Definition requestCoversb (q : GetObjectStreamInput) (b : Z) : bool :=
  match Range q with
  | Some r => rangeCoversb r b
  | None => false
  end.

(** Byte [b] is asked for by one of the fetches. *)
Definition requestedb (calls : list GetObjectStreamInput) (b : Z) : bool :=
  existsb (fun q => requestCoversb q b) calls.

Definition requested (calls : list GetObjectStreamInput) (b : Z) : Prop :=
  requestedb calls b = true.

(** The bytes of an object at the offsets [first] to [last], both
    included, as far as the object has them. *)
Definition slice (object : list byte) (first last : Z) : list byte :=
  take (Z.to_nat (last - first + 1)) (drop (Z.to_nat first) object).

(** A test double of the external store: it holds one object and answers a
    range request with the bytes of that range and a ContentRange that
    ends in the object's length; a range whose last byte precedes its
    first yields no bytes. *)
Definition sliceStore (object : list byte) : S3 :=
  fun q =>
    match Range q with
    | Some r =>
        match getInformationFromRange r with
        | inr info =>
            Fulfilled
              {| Body := slice object (RangeInfo.startByte info) (RangeInfo.endByte info);
                 ContentRange :=
                   Some (r +:+ "/" +:+ numToString (Z.of_nat (List.length object)));
                 ContentType := None |}
        | inl _ => Rejected (FetchError 400)
        end
    | None =>
        Fulfilled {| Body := object; ContentRange := None; ContentType := None |}
    end.

Definition isNotReadyWrite (op : SinkOp) : bool :=
  match op with Write _ false => true | _ => false end.

(** Writes that returned the not-ready signal. *)
Definition notReadyCount (sink : list SinkOp) : nat :=
  List.length (filter (fun op => isNotReadyWrite op = true) sink).

(** ** The state of a running pipeline, described from its inputs *)

Section Expected.

Variable this : ManagedDownloader.
Variable ready : nat -> bool.
(** The arguments of the call, and what the stream and the client had
    seen before it. *)
Variable params0 : GetObjectStreamInput.
Variable sink0 : list SinkOp.
Variable calls0 : list GetObjectStreamInput.
Variable L off sp : Z.

Definition totalParts : Z := ceilDiv L (maxPartSize this).

Definition requestOfPart (i : Z) : GetObjectStreamInput :=
  setRange params0 (getRangeOfPart i L (maxPartSize this) off).

Definition promiseOfPart (i : Z) : FetchPromise :=
  mkPromise i (client this (requestOfPart i)).

Definition fulfilled (i : Z) : Prop :=
  exists data, client this (requestOfPart i) = Fulfilled data.

Definition bodyOfPart (i : Z) : list byte :=
  match client this (requestOfPart i) with
  | Fulfilled data => Body data
  | Rejected _ => []
  end.

(** The writes of the first [n] parts of this call, in order. *)
Definition deliveries (n : nat) : list SinkOp :=
  (fun j : nat =>
     Write (bodyOfPart (sp + Z.of_nat j)) (ready (writeCount sink0 + j)))
    <$> seq 0 n.

(** The request object after parts up to [cur - 1] have been issued. *)
Definition lastRequest (cur : Z) : GetObjectStreamInput :=
  if cur =? sp then params0 else requestOfPart (cur - 1).

(** [n] parts written, the queue holding the parts from [q0] on, and
    [tail] closing the stream. *)
Record Shape (st : Pipeline) (n : nat) (q0 : Z) (tail : list SinkOp) : Prop := {
  sh_contentLength : contentLength st = L;
  sh_byteOffset : byteOffset st = off;
  sh_startingPart : startingPart st = sp;
  sh_numDownloads : 0 <= numDownloads st;
  sh_currentPart : currentPart st = q0 + Z.of_nat (List.length (queue st));
  sh_queue : queue st = promiseOfPart <$> seqZ q0 (Z.of_nat (List.length (queue st)));
  sh_window : Z.of_nat (List.length (queue st)) <= maxConcurrency this;
  sh_calls : getObjectCalls st = calls0 ++ (requestOfPart <$> seqZ sp (currentPart st - sp));
  sh_params : params st = lastRequest (currentPart st);
  sh_sink : destinationStream st = sink0 ++ deliveries n ++ tail;
  sh_fulfilled : forall j, sp <= j < sp + Z.of_nat n -> fulfilled j;
  sh_drainWaits : drainWaits st = notReadyCount (deliveries n);
  sh_bound : sp <= currentPart st <= Z.max sp totalParts;
  sh_settled : forall i, i ∈ settled st -> sp <= i < currentPart st
}.

Definition Inv (st : Pipeline) : Prop :=
  let nd := numDownloads st in
  match control st with
  | LoopHead => Shape st (Z.to_nat nd) (sp + nd) []
  | AwaitFetch p =>
      p = Some (promiseOfPart (sp + nd))
      /\ Shape st (Z.to_nat nd) (sp + nd + 1) []
      /\ sp + nd < totalParts
  | AwaitDrain =>
      Shape st (S (Z.to_nat nd)) (sp + nd + 1) []
      /\ sp + nd < totalParts
      /\ ready (writeCount sink0 + Z.to_nat nd) = false
  | Returned =>
      (Shape st (Z.to_nat nd) (sp + nd) [EndStream]
       /\ totalParts - sp <= nd /\ queue st = [])
      \/ (exists e,
            client this (requestOfPart (sp + nd)) = Rejected e
            /\ Shape st (Z.to_nat nd) (sp + nd + 1) [EmitError e]
            /\ sp + nd < totalParts)
  end.

(** Parts still to deliver, and a measure that every awaited event
    decreases. *)
Definition remaining (st : Pipeline) : nat :=
  Z.to_nat (totalParts - sp - numDownloads st).

Definition measure (st : Pipeline) : nat :=
  match control st with
  | Returned => 0
  | LoopHead => 4 * remaining st + 4
  | AwaitFetch p => 4 * remaining st + (if isSettled p st then 2 else 3)
  | AwaitDrain => 4 * remaining st + 1
  end.

End Expected.

(** The event a suspended pipeline is waiting for. *)
Definition awaited (st : Pipeline) : Event :=
  match control st with
  | AwaitFetch (Some p) => if isSettled (Some p) st then Tick else Settle (part p)
  | AwaitDrain => Drain
  | _ => Tick
  end.

Definition eventEqb (a b : Event) : bool :=
  match a, b with
  | Tick, Tick => true
  | Settle i, Settle j => i =? j
  | Drain, Drain => true
  | _, _ => false
  end.

(** How many events of a schedule are, at the moment they arrive, the one
    the pipeline is waiting for. *)
Fixpoint served (this : ManagedDownloader) (ready : nat -> bool)
    (st : Pipeline) (evs : list Event) : nat :=
  match evs with
  | [] => 0
  | ev :: evs' =>
      (if eventEqb ev (awaited st) then 1 else 0)
      + served this ready (step this ready st ev) evs'
  end.

(** ** Vocabulary for getObjectStream *)

(** What [getObjectStream] does to the stream before any pipeline runs. *)
Definition bootstrapSink (ready : nat -> bool) (n : Number) (data : GetObjectOutput)
  : list SinkOp :=
  [SetMimeType (ContentType data); SetContentLength n; Write (Body data) (ready 0%nat)].

(** The request does not determine a non-zero content length: no range is
    given, or a part number is, or the range parses to length 0. *)
Definition lengthUndetermined (request : GetObjectStreamInput) : Prop :=
  truthyString (Range request) = false
  \/ truthyNum (PartNumber request) = true
  \/ exists info,
       getInformationFromRange (default "" (Range request)) = inr info
       /\ RangeInfo.length info = 0.

(** The values assigned to [destinationStream.contentLength], in order. *)
Definition contentLengthsSet (sink : list SinkOp) : list Number :=
  omap (fun op => match op with SetContentLength n => Some n | _ => None end) sink.

(** ** Test doubles and sample inputs *)

Module Examples.

(** The mock of the unit tests: every fetch is fulfilled with the given
    [ContentRange]; the body spells out the range that was asked for, so
    that parts can be told apart. *)
Definition mockStore (contentRange : string) : S3 :=
  fun q =>
    Fulfilled {| Body := list_byte_of_string (default "" (Range q));
                 ContentRange := Some contentRange;
                 ContentType := None |}.

(** The same, except that the fetch of one range is rejected. *)
Definition failingOn (r : string) (store : S3) : S3 :=
  fun q => if bool_decide (Range q = Some r) then Rejected (FetchError 500) else store q.

Definition alwaysReady : nat -> bool := fun _ => true.

(** A stream whose [k]-th write (counting from 0) returns not-ready. *)
Definition notReadyAt (k : nat) : nat -> bool := fun n => negb (n =? k)%nat.

Definition source (range : option string) (partNumber : option Z) : GetObjectStreamInput :=
  {| Bucket := Some "doesntexist"; Key := Some "doesntexist.txt";
     Range := range; PartNumber := partNumber |}.

Definition downloader (store : S3) (partSize concurrency : Z) : ManagedDownloader :=
  {| client := store; maxPartSize := partSize; maxConcurrency := concurrency |}.

(** Fetches settle out of order: part 2 first, then 1, then 0, ... *)
Definition outOfOrder : list Event :=
  [Settle 2; Settle 1; Tick; Settle 0; Tick; Tick; Tick; Tick; Settle 4;
   Tick; Tick; Tick; Settle 3; Tick; Tick; Tick; Tick].

(** An object of 100 bytes, byte [i] holding the value [i]. *)
Definition object100 : list byte :=
  (fun i : nat => default Byte.x00 (Byte.of_nat i)) <$> seq 0 100.

End Examples.

(** ** Further vocabulary *)

(** [getMaxPartSize(numParts, length)] of the integration tests:
    [Math.ceil(length / numParts)], the part size that splits an object of
    [length] bytes into at most [numParts] parts. *)
Definition getMaxPartSize (numParts length : Z) : Z := ceilDiv length numParts.

(** The window of fetches in flight.  With [next] the first part not yet
    written: while the function is suspended, the parts asked for are
    exactly those below [next + maxConcurrency], as far as the object
    goes; at the loop test at least one slot of the window is free. *)
Definition Window (this : ManagedDownloader) (st : Pipeline) : Prop :=
  let next := startingPart st + numDownloads st in
  let filled := Z.min (next + maxConcurrency this) (numParts this st) in
  match control st with
  | LoopHead => currentPart st < next + maxConcurrency this
  | AwaitFetch _ | AwaitDrain => currentPart st = filled
  | Returned => next < numParts this st -> currentPart st = filled
  end.

(** Character [c] occurs in [s]. *)
Fixpoint occursIn (c : ascii) (s : string) : bool :=
  match s with
  | EmptyString => false
  | String a s' => Ascii.eqb a c || occursIn c s'
  end.



(** * Properties *)

(** ** The constructor *)

(** A downloader that was constructed has a part size and a concurrency of
    at least 1: the standing assumptions of the pipeline lemmas. *)
Lemma newManagedDownloader_bounds cl options this :
  newManagedDownloader cl options = inr this ->
  1 <= maxPartSize this /\ 1 <= maxConcurrency this.
Proof.
  unfold newManagedDownloader. destruct cl as [c|]; [|discriminate].
  destruct (belowOne (optMaxPartSize options)) eqn:E1; [discriminate|].
  destruct (belowOne (optMaxConcurrency options)) eqn:E2; [discriminate|].
  intros [= <-]. cbn [maxPartSize maxConcurrency].
  unfold belowOne, orDefault in *.
  destruct (optMaxPartSize options) as [p|], (optMaxConcurrency options) as [n|];
    repeat match goal with
           | H : (_ <? _) = false |- _ => apply Z.ltb_ge in H
           | |- context [?z =? 0] => destruct (Z.eqb_spec z 0)
           end; lia.
Qed.

(** ** Decimal strings *)

Section DecimalFacts.

#[local] Arguments isDigit : simpl never.
#[local] Arguments String.append !_ _ / : simpl nomatch.
#[local] Arguments Ascii.eqb : simpl never.

Local Ltac eval_digit :=
  match goal with
  | |- context [digitValue ?c] =>
      let v := eval vm_compute in (digitValue c) in
      change (digitValue c) with v
  end.

Lemma decimalValueFrom_of_uint_acc d acc :
  decimalValueFrom (Z.pos acc) (NilEmpty.string_of_uint d)
  = Z.pos (Pos.of_uint_acc d acc).
Proof.
  revert acc.
  induction d as [|d IH|d IH|d IH|d IH|d IH|d IH|d IH|d IH|d IH|d IH];
    intros acc; cbn [NilEmpty.string_of_uint decimalValueFrom Pos.of_uint_acc];
    [reflexivity|..];
    match goal with
    | |- decimalValueFrom ?a _ = Z.pos (Pos.of_uint_acc _ ?p) =>
        replace a with (Z.pos p) by (eval_digit; lia)
    end; apply IH.
Qed.

Lemma decimalValue_of_uint d :
  decimalValue (NilEmpty.string_of_uint d) = Z.of_uint d.
Proof.
  unfold decimalValue, Z.of_uint.
  induction d as [|d IH|d IH|d IH|d IH|d IH|d IH|d IH|d IH|d IH|d IH];
    cbn [NilEmpty.string_of_uint decimalValueFrom Pos.of_uint];
    [reflexivity | exact IH | ..];
    match goal with
    | |- decimalValueFrom ?a _ = Z.of_N (N.pos (Pos.of_uint_acc _ ?p)) =>
        replace a with (Z.pos p) by (eval_digit; lia)
    end; apply decimalValueFrom_of_uint_acc.
Qed.

Lemma allDigits_of_uint d : allDigits (NilEmpty.string_of_uint d) = true.
Proof. induction d; cbn [NilEmpty.string_of_uint allDigits]; auto. Qed.

Lemma string_of_uint_nonempty d :
  d <> Decimal.Nil -> NilEmpty.string_of_uint d <> EmptyString.
Proof. destruct d; cbn; congruence. Qed.

(** A non-negative number prints as a non-empty string of digits that
    reads back as the number. *)
Lemma numToString_nonneg n :
  0 <= n ->
  allDigits (numToString n) = true
  /\ numToString n <> EmptyString
  /\ decimalValue (numToString n) = n.
Proof.
  intros Hn. unfold numToString.
  destruct n as [|p|p]; [cbn; repeat split; congruence | | lia].
  cbn [Z.to_int NilZero.string_of_int].
  pose proof (Unsigned.to_uint_nonnil p) as Hnil.
  assert (Hs : NilZero.string_of_uint (Pos.to_uint p)
               = NilEmpty.string_of_uint (Pos.to_uint p))
    by (destruct (Pos.to_uint p); [congruence | reflexivity..]).
  rewrite Hs. split; [apply allDigits_of_uint|].
  split; [apply string_of_uint_nonempty, Hnil|].
  rewrite decimalValue_of_uint. unfold Z.of_uint.
  rewrite Unsigned.of_to. reflexivity.
Qed.

(** A negative number prints with a leading minus sign. *)
Lemma numToString_neg n :
  n < 0 -> exists s, numToString n = String "-" s.
Proof.
  intros Hn. destruct n as [|p|p]; [lia | lia |].
  unfold numToString. cbn. eauto.
Qed.

Lemma spanDigits_all ds :
  allDigits ds = true -> spanDigits ds = (ds, EmptyString).
Proof.
  induction ds as [|c ds IH]; cbn [allDigits spanDigits]; [reflexivity|].
  intros [Hc Hds]%andb_prop. rewrite Hc, (IH Hds). reflexivity.
Qed.

Lemma spanDigits_app ds c rest :
  allDigits ds = true -> isDigit c = false ->
  spanDigits (ds +:+ String c rest) = (ds, String c rest).
Proof.
  intros Hds Hc. induction ds as [|d ds IH]; simpl.
  - rewrite Hc. reflexivity.
  - cbn [allDigits] in Hds. apply andb_prop in Hds as [Hd Hds].
    rewrite Hd, (IH Hds). reflexivity.
Qed.

(** What [spanDigits] returns: a run of digits, and a rest that does not
    start with a digit. *)
Lemma spanDigits_spec s ds rest :
  spanDigits s = (ds, rest) ->
  s = ds +:+ rest /\ allDigits ds = true
  /\ match rest with String c _ => isDigit c = false | EmptyString => True end.
Proof.
  revert ds rest. induction s as [|c s IH]; cbn [spanDigits]; intros ds rest H.
  - inversion H; subst. auto.
  - destruct (isDigit c) eqn:Hc.
    + destruct (spanDigits s) as [ds' rest'] eqn:Hs.
      inversion H; subst.
      destruct (IH _ _ eq_refl) as (-> & Hall & Hrest).
      simpl. rewrite Hc, Hall. auto.
    + inversion H; subst. simpl. auto.
Qed.

Lemma stripPrefix_app p s : stripPrefix p (p +:+ s) = Some s.
Proof.
  induction p as [|a p IH]; simpl; [reflexivity|].
  rewrite Ascii.eqb_refl. exact IH.
Qed.

Lemma stripPrefix_spec p s r : stripPrefix p s = Some r -> s = p +:+ r.
Proof.
  revert s. induction p as [|a p IH]; intros s; simpl.
  - congruence.
  - destruct s as [|b s]; [congruence|].
    destruct (Ascii.eqb_spec a b) as [->|]; [|congruence].
    intros H. rewrite (IH _ H). reflexivity.
Qed.

(** On a captured group [parseInt] is [decimalValue]. *)
Lemma parseInt_digits c ds :
  allDigits (String c ds) = true ->
  parseInt (String c ds) = Int (decimalValue (String c ds)).
Proof.
  intros Hall. pose proof Hall as Hall'.
  cbn [allDigits] in Hall. apply andb_prop in Hall as [Hc Hds].
  assert (Hws : isWhiteSpace c = false).
  { unfold isDigit in Hc. unfold isWhiteSpace.
    apply andb_prop in Hc as [H1%Nat.leb_le H2%Nat.leb_le].
    destruct (Nat.eqb_spec (nat_of_ascii c) 32); [lia|].
    destruct (Nat.leb_spec (nat_of_ascii c) 13); [lia|].
    cbn. rewrite andb_false_r. reflexivity. }
  unfold parseInt. cbn [trimStart]. rewrite Hws.
  assert (Hunsigned : parseUnsigned (String c ds) = Int (decimalValue (String c ds))).
  { unfold parseUnsigned.
    assert (Hspan : fst (spanDigits (String c ds)) = String c ds)
      by (rewrite (spanDigits_all _ Hall'); reflexivity).
    destruct ds as [|d ds'].
    - destruct c as [[] [] [] [] [] [] [] []]; try discriminate Hc; reflexivity.
    - assert (Hd : isDigit d = true)
        by (cbn [allDigits] in Hds; apply andb_prop in Hds; tauto).
      assert (d <> "x"%char /\ d <> "X"%char) as [Hx HX]
        by (split; intros ->; discriminate Hd).
      rewrite Hspan.
      destruct c as [[] [] [] [] [] [] [] []]; try discriminate Hc; try reflexivity.
      destruct d as [[] [] [] [] [] [] [] []]; try discriminate Hd; reflexivity. }
  destruct c as [[] [] [] [] [] [] [] []]; try discriminate Hc; exact Hunsigned.
Qed.

End DecimalFacts.

(** ** Range strings *)

Section RangeFacts.

#[local] Arguments isDigit : simpl never.
#[local] Arguments String.append !_ _ / : simpl nomatch.

Lemma execRangeRegExp_syntax r d1 d2 :
  rangeSyntax r d1 d2 -> execRangeRegExp r = Some (d1, d2).
Proof.
  intros (-> & H1 & N1 & H2 & N2). unfold execRangeRegExp.
  rewrite stripPrefix_app.
  change (d1 +:+ "-" +:+ d2) with (d1 +:+ String "-" d2).
  rewrite (spanDigits_app d1 "-" d2 H1 eq_refl).
  destruct d1 as [|c1 d1]; [congruence|].
  rewrite (spanDigits_all d2 H2).
  destruct d2 as [|c2 d2]; [congruence|]. reflexivity.
Qed.

Lemma execRangeRegExp_inv r d1 d2 :
  execRangeRegExp r = Some (d1, d2) -> rangeSyntax r d1 d2.
Proof.
  unfold execRangeRegExp, rangeSyntax.
  destruct (stripPrefix "bytes=" r) as [r1|] eqn:Hp; [|discriminate].
  apply stripPrefix_spec in Hp.
  destruct (spanDigits r1) as [g1 rest1] eqn:Hs1.
  destruct g1 as [|c1 g1]; [discriminate|].
  destruct rest1 as [|m r2]; [discriminate|].
  destruct (Ascii.eqb_spec m "-") as [->|Hm];
    [|destruct m as [[] [] [] [] [] [] [] []]; try discriminate; congruence].
  destruct (spanDigits r2) as [g2 rest2] eqn:Hs2.
  destruct g2 as [|c2 g2]; [discriminate|].
  destruct rest2; [|discriminate].
  intros [= <- <-].
  apply spanDigits_spec in Hs1 as (-> & Hall1 & _).
  apply spanDigits_spec in Hs2 as (-> & Hall2 & _).
  subst r. repeat split; try assumption; try discriminate.
  simpl. repeat f_equal.
  clear. induction g2 as [|c g IH]; simpl; [reflexivity|]. now rewrite IH.
Qed.

Lemma getInformationFromRange_syntax r d1 d2 :
  rangeSyntax r d1 d2 ->
  getInformationFromRange r
  = inr (RangeInfo.mk (decimalValue d1) (decimalValue d2)
           (decimalValue d2 - decimalValue d1)).
Proof.
  intros H. unfold getInformationFromRange.
  rewrite (execRangeRegExp_syntax _ _ _ H). reflexivity.
Qed.

Lemma formatRange_syntax a b :
  0 <= a -> 0 <= b -> rangeSyntax (formatRange a b) (numToString a) (numToString b).
Proof.
  intros Ha Hb.
  destruct (numToString_nonneg a Ha) as (? & ? & _).
  destruct (numToString_nonneg b Hb) as (? & ? & _).
  unfold rangeSyntax, formatRange. repeat split; assumption.
Qed.

Lemma getInformationFromRange_accepts_syntax_aux r info :
  getInformationFromRange r = inr info
  <-> exists d1 d2,
      rangeSyntax r d1 d2
      /\ info = RangeInfo.mk (decimalValue d1) (decimalValue d2)
                  (decimalValue d2 - decimalValue d1).
Proof.
  split.
  - unfold getInformationFromRange.
    destruct (execRangeRegExp r) as [[d1 d2]|] eqn:E; [|discriminate].
    intros [= <-]. exists d1, d2. split; [|reflexivity].
    apply execRangeRegExp_inv, E.
  - intros (d1 & d2 & Hsyn & ->). apply getInformationFromRange_syntax, Hsyn.
Qed.

(** A formatted range with non-negative bounds reads back as itself. *)
Lemma getInformationFromRange_format a b :
  0 <= a -> 0 <= b ->
  getInformationFromRange (formatRange a b) = inr (RangeInfo.mk a b (b - a)).
Proof.
  intros Ha Hb.
  rewrite (getInformationFromRange_syntax _ _ _ (formatRange_syntax a b Ha Hb)).
  destruct (numToString_nonneg a Ha) as (_ & _ & ->).
  destruct (numToString_nonneg b Hb) as (_ & _ & ->).
  reflexivity.
Qed.

(** With a negative last byte the string is not of the accepted form. *)
Lemma getInformationFromRange_format_neg a b :
  0 <= a -> b < 0 ->
  getInformationFromRange (formatRange a b) = inl InvalidRange.
Proof.
  intros Ha Hb.
  destruct (numToString_nonneg a Ha) as (Hall & Hne & _).
  destruct (numToString_neg b Hb) as [s Hs].
  unfold getInformationFromRange, execRangeRegExp, formatRange.
  rewrite stripPrefix_app, Hs.
  change (numToString a +:+ "-" +:+ String "-" s)
    with (numToString a +:+ String "-" (String "-" s)).
  rewrite (spanDigits_app (numToString a) "-" (String "-" s) Hall eq_refl).
  destruct (numToString a) as [|c d]; [congruence|]. reflexivity.
Qed.

Lemma rangeCovers_format a b x :
  0 <= a -> rangeCovers (formatRange a b) x <-> 0 <= b /\ a <= x <= b.
Proof.
  intros Ha. unfold rangeCovers, rangeCoversb.
  destruct (Z_lt_le_dec b 0) as [Hb|Hb].
  - rewrite getInformationFromRange_format_neg by assumption.
    split; [discriminate | lia].
  - rewrite getInformationFromRange_format by assumption. simpl.
    rewrite andb_true_iff, !Z.leb_le. lia.
Qed.

Lemma ceilDiv_bounds a b :
  1 <= b -> (ceilDiv a b - 1) * b < a <= ceilDiv a b * b.
Proof.
  intros Hb. unfold ceilDiv.
  pose proof (Z.div_mod (- a) b ltac:(lia)) as Hdm.
  pose proof (Z.mod_pos_bound (- a) b ltac:(lia)) as Hmod.
  nia.
Qed.

Lemma ceilDiv_gt a b i : 1 <= b -> i * b < a -> i < ceilDiv a b.
Proof. intros Hb Hi. pose proof (ceilDiv_bounds a b Hb). nia. Qed.

Lemma ceilDiv_lt a b i : 1 <= b -> i < ceilDiv a b -> i * b < a.
Proof. intros Hb Hi. pose proof (ceilDiv_bounds a b Hb). nia. Qed.

(** The numeric bounds of a part that exists. *)
Lemma part_bounds i L P off :
  1 <= P -> 0 <= off -> 0 <= i < ceilDiv L P ->
  0 <= startByteOfPart i P off
  /\ startByteOfPart i P off <= endByteOfPart i L P off - 1.
Proof.
  intros HP Hoff [Hi HiN]. unfold startByteOfPart, endByteOfPart.
  pose proof (ceilDiv_lt L P i HP HiN). nia.
Qed.

Lemma getInformationFromRange_part i L P off :
  1 <= P -> 0 <= off -> 0 <= i < ceilDiv L P ->
  getInformationFromRange (getRangeOfPart i L P off)
  = inr (RangeInfo.mk (startByteOfPart i P off) (endByteOfPart i L P off - 1)
           (endByteOfPart i L P off - 1 - startByteOfPart i P off)).
Proof.
  intros HP Hoff Hi. destruct (part_bounds i L P off HP Hoff Hi).
  unfold getRangeOfPart. apply getInformationFromRange_format; lia.
Qed.

Lemma rangeCovers_part i L P off x :
  1 <= P -> 0 <= off -> 0 <= i < ceilDiv L P ->
  rangeCovers (getRangeOfPart i L P off) x
  <-> i * P + off <= x < Z.min L ((i + 1) * P) + off.
Proof.
  intros HP Hoff Hi. destruct (part_bounds i L P off HP Hoff Hi) as [H0 H1].
  unfold getRangeOfPart. rewrite rangeCovers_format by assumption.
  unfold startByteOfPart, endByteOfPart in *. lia.
Qed.

(** Every byte of [off, off+L) lies in the range of exactly one part. *)
Lemma parts_cover L P off x :
  1 <= P -> 0 <= off ->
  (exists i, 0 <= i < ceilDiv L P /\ rangeCovers (getRangeOfPart i L P off) x)
  <-> off <= x < off + L.
Proof.
  intros HP Hoff. split.
  - intros (i & Hi & Hc). apply rangeCovers_part in Hc; try assumption. nia.
  - intros Hx. exists ((x - off) / P).
    pose proof (Z.div_mod (x - off) P ltac:(lia)) as Hdm.
    pose proof (Z.mod_pos_bound (x - off) P ltac:(lia)) as Hmod.
    assert (Hq : 0 <= (x - off) / P) by (apply Z.div_pos; lia).
    assert (HqN : (x - off) / P < ceilDiv L P) by (apply ceilDiv_gt; nia).
    split; [lia|]. apply rangeCovers_part; try assumption; [lia|]. nia.
Qed.

Lemma parts_disjoint L P off i j x :
  1 <= P -> 0 <= off ->
  0 <= i < ceilDiv L P -> 0 <= j < ceilDiv L P ->
  rangeCovers (getRangeOfPart i L P off) x ->
  rangeCovers (getRangeOfPart j L P off) x ->
  i = j.
Proof.
  intros HP Hoff Hi Hj Hci Hcj.
  apply rangeCovers_part in Hci; try assumption.
  apply rangeCovers_part in Hcj; try assumption.
  nia.
Qed.

End RangeFacts.

(** ** The sink log *)

Section SinkFacts.

Lemma writeCount_app s1 s2 : writeCount (s1 ++ s2) = (writeCount s1 + writeCount s2)%nat.
Proof. unfold writeCount. now rewrite filter_app, length_app. Qed.

Lemma notReadyCount_app s1 s2 :
  notReadyCount (s1 ++ s2) = (notReadyCount s1 + notReadyCount s2)%nat.
Proof. unfold notReadyCount. now rewrite filter_app, length_app. Qed.

Lemma written_app s1 s2 : written (s1 ++ s2) = written s1 ++ written s2.
Proof. unfold written. apply omap_app. Qed.

End SinkFacts.

(** Once returned, the function touches nothing any more; only the fetches
    still in flight go on settling. *)
Lemma step_Returned this ready st ev :
  control st = Returned ->
  let st' := step this ready st ev in
  control st' = Returned
  /\ destinationStream st' = destinationStream st
  /\ getObjectCalls st' = getObjectCalls st
  /\ params st' = params st.
Proof.
  intros Hc. unfold step. rewrite Hc.
  destruct ev as [|i|]; cbn zeta; auto.
  destruct (_ && _); cbn; auto.
Qed.

Lemma run_Returned this ready evs st :
  control st = Returned ->
  let st' := run this ready evs st in
  control st' = Returned
  /\ destinationStream st' = destinationStream st
  /\ getObjectCalls st' = getObjectCalls st
  /\ params st' = params st.
Proof.
  revert st. induction evs as [|ev evs IH]; intros st Hc; cbn zeta; [auto|].
  change (run this ready (ev :: evs) st)
    with (run this ready evs (step this ready st ev)).
  destruct (step_Returned this ready st ev Hc) as (Hc' & Hs & Hg & Hp).
  destruct (IH _ Hc') as (? & ? & ? & ?). repeat split; congruence.
Qed.

(** ** Invariant of the pipeline *)

Section PipelineFacts.

Variable this : ManagedDownloader.
Variable ready : nat -> bool.
Variable params0 : GetObjectStreamInput.
Variable sink0 : list SinkOp.
Variable calls0 : list GetObjectStreamInput.
Variable L off sp : Z.

Hypothesis partSize_pos : 1 <= maxPartSize this.
Hypothesis concurrency_pos : 1 <= maxConcurrency this.

Local Abbreviation N := (totalParts this L).
Local Abbreviation req := (requestOfPart this params0 L off).
Local Abbreviation prom := (promiseOfPart this params0 L off).
Local Abbreviation body := (bodyOfPart this params0 L off).
Local Abbreviation delivered := (deliveries this ready params0 sink0 L off sp).
Local Abbreviation shape := (Shape this ready params0 sink0 calls0 L off sp).
Local Abbreviation inv := (Inv this ready params0 sink0 calls0 L off sp).
Local Abbreviation lastReq := (lastRequest this params0 L off sp).
Local Abbreviation mu := (measure this L sp).

Lemma deliveries_S n :
  delivered (S n)
  = delivered n ++ [Write (body (sp + Z.of_nat n)) (ready (writeCount sink0 + n))].
Proof. unfold deliveries. now rewrite seq_S, fmap_app. Qed.

Lemma writeCount_deliveries n : writeCount (delivered n) = n.
Proof.
  induction n as [|n IH]; [reflexivity|].
  rewrite deliveries_S, writeCount_app, IH. unfold writeCount. simpl. lia.
Qed.

Lemma written_deliveries n :
  written (delivered n) = body <$> seqZ sp (Z.of_nat n).
Proof.
  induction n as [|n IH]; [reflexivity|].
  rewrite deliveries_S, written_app, IH, seqZ_S, fmap_app. reflexivity.
Qed.

Lemma setRange_lastRequest cur r : setRange (lastReq cur) r = setRange params0 r.
Proof. unfold lastRequest. destruct (cur =? sp); reflexivity. Qed.

(** The request object keeps its bucket, key and part number. *)
Local Abbreviation derived p := (forall r, setRange p r = setRange params0 r).

Local Ltac fields :=
  cbn [issueRequest setControl setSink setQueue setSettled incrNumDownloads
         incrDrainWaits failWith
         params getObjectCalls queue currentPart destinationStream settled
         contentLength byteOffset startingPart numDownloads drainWaits control].

Local Ltac fields_in H :=
  cbn [issueRequest setControl setSink setQueue setSettled incrNumDownloads
         incrDrainWaits failWith
         params getObjectCalls queue currentPart destinationStream settled
         contentLength byteOffset startingPart numDownloads drainWaits control] in H.

(** The [for] loop, from a state whose request object derives from the
    original one. *)
Lemma issueRequests_spec n st :
  contentLength st = L -> byteOffset st = off -> derived (params st) ->
  let st' := issueRequests this n st in
  params st'
  = (if n is O then params st else req (currentPart st + Z.of_nat n - 1))
  /\ getObjectCalls st'
     = getObjectCalls st ++ (req <$> seqZ (currentPart st) (Z.of_nat n))
  /\ queue st' = queue st ++ (prom <$> seqZ (currentPart st) (Z.of_nat n))
  /\ currentPart st' = currentPart st + Z.of_nat n
  /\ destinationStream st' = destinationStream st
  /\ settled st' = settled st
  /\ contentLength st' = L /\ byteOffset st' = off
  /\ startingPart st' = startingPart st
  /\ numDownloads st' = numDownloads st
  /\ drainWaits st' = drainWaits st
  /\ control st' = control st.
Proof.
  revert st. induction n as [|n IH]; intros st HL Hoff Hd; cbn zeta.
  - cbn [issueRequests]. rewrite seqZ_nil by lia. cbn [fmap list_fmap].
    rewrite !app_nil_r. repeat split; auto; lia.
  - cbn [issueRequests].
    assert (Hreq : setRange (params st)
                     (getRangeOfPart (currentPart st) (contentLength st)
                        (maxPartSize this) (byteOffset st))
                   = req (currentPart st))
      by (rewrite Hd, HL, Hoff; reflexivity).
    destruct (IH (issueRequest this st))
      as (Hpar & Hcalls & Hq & Hcur & Hsink & Hset & HL' & Hoff' & Hsp & Hnd & Hdw & Hctl);
      [exact HL | exact Hoff | intros r; fields; rewrite Hreq; reflexivity |].
    fields_in Hpar; fields_in Hcalls; fields_in Hq; fields_in Hcur.
    rewrite Hreq in Hpar, Hcalls, Hq.
    rewrite (seqZ_cons (currentPart st) (Z.of_nat (S n))) by lia.
    replace (Z.pred (Z.of_nat (S n))) with (Z.of_nat n) by lia.
    replace (Z.succ (currentPart st)) with (currentPart st + 1) by lia.
    cbn [fmap list_fmap].
    rewrite Hcalls, Hq, Hcur, <- !app_assoc.
    repeat split; try assumption; try reflexivity; try lia.
    rewrite Hpar. destruct n; [f_equal; lia | f_equal; lia].
Qed.

Lemma derived_lastRequest cur : derived (lastReq cur).
Proof. intros r. apply setRange_lastRequest. Qed.

Lemma Inv_enter :
  inv (enterDownloadByParts params0 sink0 calls0 L (Some off) sp).
Proof.
  unfold Inv, enterDownloadByParts. fields. cbn [default from_option id].
  replace (sp + 0) with sp by lia.
  constructor; fields; cbn [List.length Z.of_nat Z.to_nat]; try reflexivity; try lia.
  - rewrite Z.sub_diag, seqZ_nil, app_nil_r by lia. reflexivity.
  - unfold lastRequest. rewrite Z.eqb_refl. reflexivity.
  - cbn [Z.to_nat]. rewrite !app_nil_r. reflexivity.
  - intros i Hi. set_solver.
Qed.

Lemma Shape_settle st n q0 tail i :
  sp <= i < currentPart st ->
  shape st n q0 tail -> shape (setSettled ({[ i ]} ∪ settled st) st) n q0 tail.
Proof.
  intros Hi []. constructor; fields; try assumption.
  intros j [->%elem_of_singleton | Hj]%elem_of_union; auto.
Qed.

Lemma Inv_settle st i :
  sp <= i < currentPart st ->
  inv st -> inv (setSettled ({[ i ]} ∪ settled st) st).
Proof.
  intros Hi. unfold Inv. fields.
  destruct (control st).
  - apply Shape_settle, Hi.
  - intros (? & ? & ?). auto using Shape_settle.
  - intros (? & ? & ?). auto using Shape_settle.
  - intros [(? & ? & ?) | (e & ? & ? & ?)]; [left | right; exists e];
      auto using Shape_settle.
Qed.

Lemma Inv_loopHead st :
  control st = LoopHead -> inv st -> inv (loopHead this st).
Proof.
  intros Hc H. unfold Inv in H. rewrite Hc in H. cbn zeta in H.
  destruct H as [HL Hoff Hsp Hnd Hcur Hq Hwin Hcalls Hpar Hsink Hful Hdw Hb Hset].
  unfold loopHead, numParts. rewrite Hsp, HL. fold N.
  destruct (Z.ltb_spec (numDownloads st) (N - sp)) as [Hlt|Hge].
  - (* fill the window and await the head *)
    set (k := List.length (queue st)) in *.
    set (n := Z.to_nat (numRequests this st)).
    assert (Hn : Z.of_nat n = Z.max 0 (Z.min (maxConcurrency this - Z.of_nat k)
                                         (N - currentPart st))).
    { unfold n, numRequests, numParts, totalParts. rewrite HL. fold k. lia. }
    destruct (issueRequests_spec n st HL Hoff)
      as (Hpar1 & Hcalls1 & Hq1 & Hcur1 & Hsink1 & Hset1 & HL1 & Hoff1 & Hsp1
          & Hnd1 & Hdw1 & Hctl1).
    { rewrite Hpar. apply derived_lastRequest. }
    fold n.
    assert (Hqueue : queue (issueRequests this n st)
                     = prom (sp + numDownloads st)
                         :: (prom <$> seqZ (sp + numDownloads st + 1)
                                       (Z.of_nat (k + n) - 1))).
    { rewrite Hq1, Hq, Hcur, <- fmap_app, <- seqZ_app by lia. fold k.
      rewrite (seqZ_cons (sp + numDownloads st)) by lia.
      cbn [fmap list_fmap]. repeat f_equal; lia. }
    rewrite Hqueue. unfold Inv. fields. rewrite Hnd1.
    split; [reflexivity|]. split; [|lia].
    assert (Hlen : Z.of_nat (List.length (prom <$> seqZ (sp + numDownloads st + 1)
                                            (Z.of_nat (k + n) - 1)))
                   = Z.of_nat (k + n) - 1).
    { rewrite length_fmap, length_seqZ. lia. }
    constructor; fields; rewrite ?Hlen, ?Hsp1, ?Hnd1; try assumption; try lia.
    + reflexivity.
    + rewrite Hcalls1, Hcalls, Hcur1, <- app_assoc, <- fmap_app. do 2 f_equal.
      replace (currentPart st + Z.of_nat n - sp)
        with ((currentPart st - sp) + Z.of_nat n) by lia.
      rewrite seqZ_app by lia. do 2 f_equal. lia.
    + rewrite Hpar1, Hcur1. destruct n as [|n'].
      * rewrite Hpar. f_equal. lia.
      * unfold lastRequest.
        destruct (Z.eqb_spec (currentPart st + Z.of_nat (S n')) sp); [lia|].
        reflexivity.
    + rewrite Hsink1. exact Hsink.
    + rewrite Hset1, Hcur1. intros i Hi. specialize (Hset i Hi). lia.
  - (* all parts delivered: end the stream *)
    unfold Inv. fields. left.
    assert (Hk : queue st = []).
    { destruct (queue st) as [|p q]; [reflexivity|].
      cbn [List.length] in Hcur. lia. }
    split; [|split; [lia | exact Hk]].
    constructor; fields; try assumption.
    rewrite Hsink, !app_nil_r, <- app_assoc. reflexivity.
Qed.

Lemma writeCount_sink n tail :
  writeCount (sink0 ++ delivered n ++ tail)
  = (writeCount sink0 + n + writeCount tail)%nat.
Proof. rewrite !writeCount_app, writeCount_deliveries. lia. Qed.

Lemma notReadyCount_deliveries_S n :
  notReadyCount (delivered (S n))
  = (notReadyCount (delivered n)
     + if ready (writeCount sink0 + n) then 0 else 1)%nat.
Proof.
  rewrite deliveries_S, notReadyCount_app. f_equal.
  unfold notReadyCount. cbn. destruct (ready _); reflexivity.
Qed.

Lemma Inv_afterFetch st p :
  control st = AwaitFetch p -> inv st -> inv (afterFetch ready p st).
Proof.
  intros Hc H. unfold Inv in H. rewrite Hc in H. cbn zeta in H.
  destruct H as (-> & [HL Hoff Hsp Hnd Hcur Hq Hwin Hcalls Hpar Hsink Hful Hdw Hb Hset] & Hlt).
  unfold afterFetch. cbn [promiseOfPart settlesAs].
  destruct (client this (req (sp + numDownloads st))) as [data|e] eqn:E.
  - (* the body is written *)
    unfold sinkWrite.
    assert (Hwc : writeCount (destinationStream st)
                  = (writeCount sink0 + Z.to_nat (numDownloads st))%nat).
    { rewrite Hsink, writeCount_sink. unfold writeCount. cbn. lia. }
    assert (Hbody : Body data = body (sp + Z.of_nat (Z.to_nat (numDownloads st)))).
    { unfold bodyOfPart. rewrite Z2Nat.id by lia. rewrite E. reflexivity. }
    rewrite Hwc.
    assert (Hsink' : destinationStream st
                       ++ [Write (Body data)
                             (ready (writeCount sink0 + Z.to_nat (numDownloads st)))]
                     = sink0 ++ delivered (S (Z.to_nat (numDownloads st))) ++ []).
    { rewrite Hsink, deliveries_S, Hbody, !app_nil_r, <- app_assoc. reflexivity. }
    assert (Hful' : forall j, sp <= j < sp + Z.of_nat (S (Z.to_nat (numDownloads st))) ->
                              fulfilled this params0 L off j).
    { intros j Hj. destruct (Z.eq_dec j (sp + numDownloads st)) as [->|Hne].
      - exists data. exact E.
      - apply Hful. lia. }
    pose proof (notReadyCount_deliveries_S (Z.to_nat (numDownloads st))) as Hnr.
    destruct (ready (writeCount sink0 + Z.to_nat (numDownloads st))) eqn:Hr.
    + unfold Inv. fields.
      replace (Z.to_nat (numDownloads st + 1)) with (S (Z.to_nat (numDownloads st))) by lia.
      replace (sp + (numDownloads st + 1)) with (sp + numDownloads st + 1) by lia.
      constructor; fields; try assumption; try lia.
    + unfold Inv. fields. split; [|split; [exact Hlt | exact Hr]].
      constructor; fields; try assumption; try lia.
  - (* the fetch failed *)
    unfold Inv. fields. right. exists e. split; [exact E|]. split; [|exact Hlt].
    constructor; fields; try assumption.
    rewrite Hsink, !app_nil_r, <- app_assoc. reflexivity.
Qed.

Lemma Inv_drain st :
  control st = AwaitDrain -> inv st -> inv (setControl LoopHead (incrNumDownloads st)).
Proof.
  intros Hc H. unfold Inv in H. rewrite Hc in H. cbn zeta in H.
  destruct H as ([] & Hlt & Hr).
  unfold Inv. fields.
  replace (Z.to_nat (numDownloads st + 1)) with (S (Z.to_nat (numDownloads st))) by lia.
  replace (sp + (numDownloads st + 1)) with (sp + numDownloads st + 1) by lia.
  constructor; fields; try assumption; try lia.
Qed.

(** Every event keeps the invariant. *)
Lemma Inv_step st ev : inv st -> inv (step this ready st ev).
Proof.
  intros H. unfold step.
  destruct ev as [| i |].
  - destruct (control st) as [|p| |] eqn:Hc; try exact H.
    + apply Inv_loopHead; assumption.
    + destruct (isSettled p st); [apply Inv_afterFetch; assumption | exact H].
  - assert (Hstart : startingPart st = sp).
    { unfold Inv in H. destruct (control st);
        [destruct H | destruct H as (_ & [] & _) | destruct H as ([] & _)
        | destruct H as [([] & _) | (? & _ & [] & _)]]; assumption. }
    rewrite Hstart.
    destruct ((sp <=? i) && (i <? currentPart st)) eqn:Hi.
    + apply andb_prop in Hi as [H1%Z.leb_le H2%Z.ltb_lt].
      destruct (control st); apply Inv_settle; auto.
    + destruct (control st); exact H.
  - destruct (control st) eqn:Hc; try exact H.
    apply Inv_drain; assumption.
Qed.

Lemma Inv_run evs st : inv st -> inv (run this ready evs st).
Proof.
  revert st. induction evs as [|ev evs IH]; intros st H; [exact H|].
  cbn [run fold_left]. apply IH, Inv_step, H.
Qed.

Lemma run_app evs1 evs2 st :
  run this ready (evs1 ++ evs2) st = run this ready evs2 (run this ready evs1 st).
Proof. unfold run. apply fold_left_app. Qed.

(** The event a pipeline waits for brings it strictly closer to its
    return. *)
Lemma awaited_decreases st :
  inv st -> control st <> Returned ->
  (mu (step this ready st (awaited st)) < mu st)%nat.
Proof.
  intros H Hnr. pose proof (Inv_step st (awaited st) H) as H'.
  unfold awaited, step in *. unfold Inv in H.
  destruct (control st) as [|p| |] eqn:Hc; [| | |congruence]; cbn zeta in H.
  - (* loop head *)
    destruct H as [HL Hoff Hsp Hnd Hcur Hq Hwin Hcalls Hpar Hsink Hful Hdw Hb Hset].
    unfold measure at 2. rewrite Hc.
    unfold loopHead in *. unfold numParts in *. rewrite Hsp, HL in *. fold N in *.
    destruct (Z.ltb_spec (numDownloads st) (N - sp)) as [Hlt|Hge].
    + destruct (queue (issueRequests this (Z.to_nat (numRequests this st)) st))
        as [|p q] eqn:Hqueue.
      * unfold Inv in H'. fields_in H'. destruct H' as (Hp & _). discriminate Hp.
      * unfold measure, remaining. fields.
        destruct (issueRequests_spec (Z.to_nat (numRequests this st)) st HL Hoff)
          as (_ & _ & _ & _ & _ & _ & _ & _ & _ & -> & _).
        { rewrite Hpar. apply derived_lastRequest. }
        destruct (isSettled _ _); lia.
    + unfold measure. fields. lia.
  - (* awaiting a fetch *)
    destruct H as (-> & [HL Hoff Hsp Hnd Hcur Hq Hwin Hcalls Hpar Hsink Hful Hdw Hb Hset] & Hlt).
    destruct (isSettled (Some (prom (sp + numDownloads st))) st) eqn:Hs.
    + unfold measure at 2. rewrite Hc, Hs.
      unfold afterFetch in *. cbn [promiseOfPart settlesAs] in *.
      destruct (client this (req (sp + numDownloads st))) as [data|e].
      * unfold sinkWrite in *.
        destruct (ready (writeCount (destinationStream st)));
          unfold measure, remaining; fields; lia.
      * unfold measure; fields; lia.
    + cbn [promiseOfPart part]. rewrite Hsp.
      destruct ((sp <=? sp + numDownloads st) && (sp + numDownloads st <? currentPart st))
        eqn:Hi.
      * unfold measure, remaining. fields. rewrite Hc, Hs.
        unfold isSettled. fields. cbn [promiseOfPart part].
        rewrite bool_decide_eq_true_2
          by (apply elem_of_union_l, elem_of_singleton; reflexivity).
        lia.
      * apply andb_false_iff in Hi as [Hi%Z.leb_gt | Hi%Z.ltb_ge]; lia.
  - (* awaiting drain *)
    destruct H as (_ & Hlt & _).
    unfold measure, remaining. fields. rewrite Hc. lia.
Qed.

Lemma eventEqb_eq a b : eventEqb a b = true <-> a = b.
Proof.
  destruct a, b; cbn; split; try congruence; try reflexivity.
  - intros H%Z.eqb_eq. congruence.
  - intros [= ->]. apply Z.eqb_refl.
Qed.

Lemma measure_setSettled st (S : gset Z) :
  (forall x, x ∈ settled st -> x ∈ S) ->
  (mu (setSettled S st) <= mu st)%nat.
Proof.
  intros Hsub. unfold measure, remaining. fields.
  destruct (control st) as [|[p|]| |]; try lia.
  - unfold isSettled. fields.
    destruct (bool_decide (part p ∈ settled st)) eqn:E1;
      destruct (bool_decide (part p ∈ S)) eqn:E2; try lia.
    apply bool_decide_eq_true in E1. apply bool_decide_eq_false in E2.
    exfalso. auto.
  - cbn. lia.
Qed.

(** No event takes the pipeline further from its return. *)
Lemma step_measure_le st ev :
  inv st -> (mu (step this ready st ev) <= mu st)%nat.
Proof.
  intros H.
  destruct (eventEqb ev (awaited st)) eqn:Eev.
  - apply eventEqb_eq in Eev as ->.
    destruct (control st) eqn:Hc;
      try (apply Nat.lt_le_incl, awaited_decreases; [exact H | congruence]).
    unfold awaited, step. rewrite Hc. unfold measure. rewrite Hc. lia.
  - unfold awaited in Eev. unfold step.
    destruct ev as [|i|].
    + destruct (control st) as [|[p|]| |] eqn:Hc; try discriminate Eev; try lia.
      destruct (isSettled (Some p) st); [discriminate Eev | lia].
    + assert (Hs : (mu (if Z.leb (startingPart st) i && Z.ltb i (currentPart st)
                        then setSettled ({[ i ]} ∪ settled st) st else st) <= mu st)%nat).
      { destruct (_ && _); [|lia]. apply measure_setSettled.
        intros x Hx. apply elem_of_union_r, Hx. }
      destruct (control st); exact Hs.
    + destruct (control st) eqn:Hc; try discriminate Eev; lia.
Qed.

(** Along any schedule, each delivery of the awaited event uses up some of
    the measure, until the function has returned. *)
Lemma served_bound evs st :
  inv st ->
  control (run this ready evs st) = Returned
  \/ (mu (run this ready evs st) + served this ready st evs <= mu st)%nat.
Proof.
  revert st. induction evs as [|ev evs IH]; intros st H.
  - right. cbn. lia.
  - change (run this ready (ev :: evs) st)
      with (run this ready evs (step this ready st ev)).
    destruct (IH _ (Inv_step st ev H)) as [Hret | Hle]; [left; exact Hret|].
    cbn [served].
    pose proof (step_measure_le st ev H) as Hmono.
    destruct (eventEqb ev (awaited st)) eqn:Eev; [|right; lia].
    apply eventEqb_eq in Eev as ->.
    destruct (control st) eqn:Hc;
      try (right;
           pose proof (awaited_decreases st H ltac:(congruence)); lia).
    left. apply run_Returned. unfold awaited, step. rewrite Hc. exact Hc.
Qed.

Lemma measure_zero st : mu st = 0%nat -> control st = Returned.
Proof.
  unfold measure. destruct (control st) as [|p| |]; try lia; [|reflexivity].
  destruct (isSettled p st); lia.
Qed.

(** A schedule that delivers the awaited event often enough makes the
    function return. *)
Lemma returns_when_served evs st :
  inv st -> (mu st <= served this ready st evs)%nat ->
  control (run this ready evs st) = Returned.
Proof.
  intros H Hserved. destruct (served_bound evs st H) as [Hret | Hle]; [exact Hret|].
  apply measure_zero. lia.
Qed.

Lemma measure_bound st : inv st -> (mu st <= 4 * Z.to_nat (N - sp) + 4)%nat.
Proof.
  unfold Inv, measure, remaining. intros H.
  destruct (control st) as [|p| |]; cbn zeta in H.
  - destruct H. lia.
  - destruct H as (_ & [] & _). destruct (isSettled p st); lia.
  - destruct H as ([] & _). lia.
  - lia.
Qed.

(** From every reachable state the pipeline can run to its return. *)
Lemma can_return st :
  inv st -> exists evs, control (run this ready evs st) = Returned.
Proof.
  remember (mu st) as m eqn:Hm. revert st Hm.
  induction m as [m IH] using lt_wf_ind. intros st -> H.
  destruct (control st) eqn:Hc;
    try (destruct (IH _ (awaited_decreases st H ltac:(congruence)) _ eq_refl
                     (Inv_step st (awaited st) H)) as [evs Hevs];
         exists (awaited st :: evs); exact Hevs).
  exists []. exact Hc.
Qed.

End PipelineFacts.

(** ** Claims about the range arithmetic *)

(** C4 (as the code has it).  [getInformationFromRange] succeeds exactly on
    the strings of the textual form [bytes=<start>-<end>] where both bounds
    are non-empty runs of decimal digits, and returns their values with
    [length = end - start]; on every other string it throws the
    invalid-range error.  The order of the two bounds is not examined. *)
Theorem getInformationFromRange_accepts_syntax (range : string) :
  (forall info,
      getInformationFromRange range = inr info
      <-> exists d1 d2,
          rangeSyntax range d1 d2
          /\ info = RangeInfo.mk (decimalValue d1) (decimalValue d2)
                      (decimalValue d2 - decimalValue d1))
  /\ (forall e,
         getInformationFromRange range = inl e
         <-> e = InvalidRange /\ ~ exists d1 d2, rangeSyntax range d1 d2).
Proof.
  split.
  - intros info. apply getInformationFromRange_accepts_syntax_aux.
  - intros e. split.
    + unfold getInformationFromRange.
      destruct (execRangeRegExp range) as [[d1 d2]|] eqn:E; [discriminate|].
      intros [= <-]. split; [reflexivity|].
      intros (d1 & d2 & Hsyn). apply execRangeRegExp_syntax in Hsyn. congruence.
    + intros (-> & Hno). unfold getInformationFromRange.
      destruct (execRangeRegExp range) as [[d1 d2]|] eqn:E; [|reflexivity].
      exfalso. apply Hno. exists d1, d2. apply execRangeRegExp_inv, E.
Qed.

(** C4, the claim as stated fails: reversed bounds are accepted, with a
    negative length, instead of being rejected as an invalid range. *)
Lemma getInformationFromRange_reversed_bounds :
  getInformationFromRange "bytes=9-3" = inr (RangeInfo.mk 9 3 (-6))
  /\ getInformationFromRange "bytes=9-3" <> inl InvalidRange
  /\ ~ (9 <= 3).
Proof. split; [reflexivity|]. split; [discriminate | lia]. Qed.

(** C5 (with the part size the constructor admits).  For a part size of at
    least 1 and non-negative total length and offset, the ranges of the
    parts [0 .. ceil(totalLength / partSize) - 1] are well-formed and
    non-empty, each starts right after the previous one ends, and every
    byte of [offset, offset + totalLength) lies in the range of exactly one
    part, while no byte outside lies in any. *)
Theorem getRangeOfPart_tiles (totalObjectLength maxPartSize byteOffset : Z) :
  1 <= maxPartSize -> 0 <= totalObjectLength -> 0 <= byteOffset ->
  let parts := ceilDiv totalObjectLength maxPartSize in
  let range i := getRangeOfPart i totalObjectLength maxPartSize byteOffset in
  (forall i, 0 <= i < parts ->
     exists first last,
       getInformationFromRange (range i) = inr (RangeInfo.mk first last (last - first))
       /\ first = i * maxPartSize + byteOffset
       /\ last = Z.min totalObjectLength ((i + 1) * maxPartSize) + byteOffset - 1
       /\ first <= last)
  /\ (forall i, 0 <= i -> i + 1 < parts ->
        startByteOfPart (i + 1) maxPartSize byteOffset
        = (endByteOfPart i totalObjectLength maxPartSize byteOffset - 1) + 1)
  /\ (forall b,
        (exists i, 0 <= i < parts /\ rangeCovers (range i) b)
        <-> byteOffset <= b < byteOffset + totalObjectLength)
  /\ (forall i j b,
        0 <= i < parts -> 0 <= j < parts ->
        rangeCovers (range i) b -> rangeCovers (range j) b -> i = j).
Proof.
  intros HP HL Hoff parts range. split; [|split; [|split]].
  - intros i Hi.
    destruct (part_bounds i totalObjectLength maxPartSize byteOffset HP Hoff Hi)
      as [H0 H1].
    eexists _, _. split; [apply getInformationFromRange_part; auto|].
    unfold startByteOfPart, endByteOfPart in *. repeat split; lia.
  - intros i Hi HiN. unfold startByteOfPart, endByteOfPart.
    pose proof (ceilDiv_lt totalObjectLength maxPartSize (i + 1) HP HiN). lia.
  - intros b. apply parts_cover; assumption.
  - intros i j b Hi Hj. apply parts_disjoint; assumption.
Qed.

Lemma getRangeOfPart_tiles_witness :
  (1 <= 10 /\ 0 <= 95 /\ 0 <= 7) /\
  let parts := ceilDiv 95 10 in
  let range i := getRangeOfPart i 95 10 7 in
  (forall i, 0 <= i < parts ->
     exists first last,
       getInformationFromRange (range i) = inr (RangeInfo.mk first last (last - first))
       /\ first = i * 10 + 7
       /\ last = Z.min 95 ((i + 1) * 10) + 7 - 1
       /\ first <= last)
  /\ (forall i, 0 <= i -> i + 1 < parts ->
        startByteOfPart (i + 1) 10 7 = (endByteOfPart i 95 10 7 - 1) + 1)
  /\ (forall b,
        (exists i, 0 <= i < parts /\ rangeCovers (range i) b) <-> 7 <= b < 7 + 95)
  /\ (forall i j b,
        0 <= i < parts -> 0 <= j < parts ->
        rangeCovers (range i) b -> rangeCovers (range j) b -> i = j).
Proof. split; [lia | apply (getRangeOfPart_tiles 95 10 7); lia]. Defined.

(** C5, the claim as stated fails for a part size of 0, which it admits:
    every part then has the empty range [bytes=0--1], so byte 0 of a
    one-byte object is covered by no part, however many parts are taken. *)
Lemma getRangeOfPart_zero_part_size :
  ~ exists i, 0 <= i /\ rangeCovers (getRangeOfPart i 1 0 0) 0.
Proof.
  intros (i & _ & H). unfold getRangeOfPart, startByteOfPart, endByteOfPart in H.
  rewrite !Z.mul_0_r in H. vm_compute in H. discriminate.
Qed.

(** ** What the invariant says about the observable state *)

Section PipelineSummary.

Variable this : ManagedDownloader.
Variable ready : nat -> bool.
Variable params0 : GetObjectStreamInput.
Variable sink0 : list SinkOp.
Variable calls0 : list GetObjectStreamInput.
Variable L off sp : Z.

Hypothesis partSize_pos : 1 <= maxPartSize this.
Hypothesis concurrency_pos : 1 <= maxConcurrency this.

Local Abbreviation N := (totalParts this L).
Local Abbreviation req := (requestOfPart this params0 L off).
Local Abbreviation body := (bodyOfPart this params0 L off).
Local Abbreviation delivered := (deliveries this ready params0 sink0 L off sp).
Local Abbreviation inv := (Inv this ready params0 sink0 calls0 L off sp).
Local Abbreviation lastReq := (lastRequest this params0 L off sp).

Lemma Inv_summary st :
  inv st ->
  exists n tail,
    destinationStream st = sink0 ++ delivered n ++ tail
    /\ Z.of_nat n <= Z.max 0 (N - sp)
    /\ (forall j, sp <= j < sp + Z.of_nat n -> fulfilled this params0 L off j)
    /\ drainWaits st = notReadyCount (delivered n)
    /\ getObjectCalls st = calls0 ++ (req <$> seqZ sp (currentPart st - sp))
    /\ params st = lastReq (currentPart st)
    /\ sp <= currentPart st <= Z.max sp N
    /\ contentLength st = L /\ byteOffset st = off /\ startingPart st = sp
    /\ match control st with
       | Returned =>
           (tail = [EndStream] /\ Z.of_nat n = Z.max 0 (N - sp)
            /\ currentPart st = Z.max sp N)
           \/ (exists e, tail = [EmitError e]
                         /\ client this (req (sp + Z.of_nat n)) = Rejected e
                         /\ sp + Z.of_nat n < N)
       | AwaitDrain =>
           tail = [] /\ (1 <= n)%nat /\ ready (writeCount sink0 + (n - 1)) = false
       | _ => tail = []
       end.
Proof.
  unfold Inv. intros H.
  destruct (control st) eqn:Hc; cbn zeta in H.
  - destruct H. exists (Z.to_nat (numDownloads st)), [].
    repeat split; try assumption; try lia.
  - destruct H as (_ & [] & Hlt). exists (Z.to_nat (numDownloads st)), [].
    repeat split; try assumption; try lia.
  - destruct H as ([] & Hlt & Hr). exists (S (Z.to_nat (numDownloads st))), [].
    repeat split; try assumption; try lia.
    rewrite <- Hr. f_equal. lia.
  - destruct H as [([] & Hge & Hq) | (e & E & [] & Hlt)].
    + exists (Z.to_nat (numDownloads st)), [EndStream].
      rewrite Hq in *. cbn [List.length Z.of_nat] in *.
      repeat split; try assumption; try lia.
      left. repeat split; lia.
    + exists (Z.to_nat (numDownloads st)), [EmitError e].
      repeat split; try assumption; try lia.
      right. exists e. rewrite Z2Nat.id by lia. repeat split; auto.
Qed.

(** Chunks reach the stream in part order. *)
Lemma written_sink n tail :
  (tail = [] \/ tail = [EndStream] \/ exists e, tail = [EmitError e]) ->
  written (sink0 ++ delivered n ++ tail)
  = written sink0 ++ (body <$> seqZ sp (Z.of_nat n)).
Proof.
  intros Htail. rewrite !written_app.
  rewrite (written_deliveries this ready params0 sink0 L off sp).
  destruct Htail as [->|[->|[e ->]]]; cbn; rewrite app_nil_r; reflexivity.
Qed.

Lemma deliveries_are_writes n op : op ∈ delivered n -> isWrite op = true.
Proof.
  unfold deliveries. intros (j & -> & _)%list_elem_of_fmap. reflexivity.
Qed.

End PipelineSummary.

(** ** Claims about the pipeline *)

(** C1.  For a concurrency and a part size of at least 1, any content
    length and starting part, and any order in which the issued fetches
    settle (any sequence of events), when the fetches of the parts
    [startingPart .. N-1] are fulfilled: at every moment the chunks written
    so far are an initial segment of the part payloads in ascending part
    order; whenever the function is suspended on a fetch, it is the fetch
    of the lowest part not yet delivered, the queue holding the fetches of
    the parts that follow, in ascending order; when the function has
    returned the stream holds exactly one write per part, in ascending
    order, followed by the end of the stream; the function has returned
    as soon as the events it was waiting for have been delivered often
    enough (four per part and four more suffice), and from every moment on
    it can run to its return. *)
Theorem downloadByParts_writes_in_part_order
    (this : ManagedDownloader) (ready : nat -> bool) (params : GetObjectStreamInput)
    (contentLength byteOffset startingPart : Z) (evs : list Event) :
  1 <= maxConcurrency this ->
  1 <= maxPartSize this ->
  (forall i, startingPart <= i < totalParts this contentLength ->
             fulfilled this params contentLength byteOffset i) ->
  let pipeline :=
    downloadByParts this ready params [] [] contentLength (Some byteOffset) startingPart in
  let st := run this ready evs pipeline in
  let parts := seqZ startingPart (totalParts this contentLength - startingPart) in
  let payloads := bodyOfPart this params contentLength byteOffset <$> parts in
  written (destinationStream st) `prefix_of` payloads
  /\ (forall p,
        control st = AwaitFetch p ->
        p = Some (promiseOfPart this params contentLength byteOffset
                    (startingPart + numDownloads st))
        /\ queue st
           = (promiseOfPart this params contentLength byteOffset
                <$> seqZ (startingPart + numDownloads st + 1)
                      (Z.of_nat (List.length (queue st)))))
  /\ (control st = Returned ->
      written (destinationStream st) = payloads
      /\ destinationStream st
         = deliveries this ready params [] contentLength byteOffset startingPart
             (List.length parts) ++ [EndStream])
  /\ ((4 * List.length parts + 4 <= served this ready pipeline evs)%nat ->
      control st = Returned)
  /\ (exists evs', control (run this ready (evs ++ evs') pipeline) = Returned).
Proof.
  intros Hc HP Hok pipeline st parts payloads.
  assert (Hinv0 : Inv this ready params [] [] contentLength byteOffset startingPart pipeline).
  { apply Inv_step; try assumption. apply Inv_enter; assumption. }
  assert (Hinv : Inv this ready params [] [] contentLength byteOffset startingPart st).
  { apply Inv_run; assumption. }
  pose proof Hinv as Hsum. apply Inv_summary in Hsum; try assumption.
  destruct Hsum as (n & tail & Hsink & Hn & Hful & _ & _ & _ & _ & _ & _ & _ & Hctl).
  set (N := totalParts this contentLength) in *.
  assert (Hnotfail : forall e, client this (requestOfPart this params contentLength byteOffset
                                             (startingPart + Z.of_nat n)) = Rejected e ->
                               startingPart + Z.of_nat n < N -> False).
  { intros e E Hlt. destruct (Hok (startingPart + Z.of_nat n)) as [data Hd]; [lia|].
    congruence. }
  assert (Htail : tail = [] \/ tail = [EndStream] \/ exists e, tail = [EmitError e]).
  { destruct (control st); auto; [tauto|].
    destruct Hctl as [(-> & _)|(e & -> & _)]; eauto. }
  assert (Hwritten : written (destinationStream st)
                     = bodyOfPart this params contentLength byteOffset
                         <$> seqZ startingPart (Z.of_nat n)).
  { rewrite Hsink, written_sink by assumption. reflexivity. }
  split; [|split; [|split; [|split]]].
  - rewrite Hwritten. unfold payloads, parts.
    exists (bodyOfPart this params contentLength byteOffset
              <$> seqZ (startingPart + Z.of_nat n) (N - startingPart - Z.of_nat n)).
    rewrite <- fmap_app. f_equal.
    destruct (Z_le_gt_dec (N - startingPart) 0).
    + replace n with 0%nat by lia. rewrite !seqZ_nil by lia. reflexivity.
    + rewrite <- seqZ_app by lia. f_equal. lia.
  - intros p Hp. pose proof Hinv as Hhead. unfold Inv in Hhead.
    rewrite Hp in Hhead. destruct Hhead as (-> & [] & _).
    split; [reflexivity | assumption].
  - intros Hret. rewrite Hret in Hctl.
    destruct Hctl as [(-> & Hnmax & _) | (e & _ & E & Hlt)];
      [|exfalso; eapply Hnotfail; eassumption].
    assert (Hlen : List.length parts = n).
    { unfold parts. rewrite length_seqZ. fold N. lia. }
    split.
    + rewrite Hwritten. unfold payloads, parts. fold N. f_equal.
      destruct (Z_le_gt_dec (N - startingPart) 0).
      * rewrite !seqZ_nil by lia. reflexivity.
      * f_equal. lia.
    + rewrite Hlen, Hsink. reflexivity.
  - intros Hserved. pose proof Hinv0 as Hmu. apply measure_bound in Hmu.
    eapply returns_when_served; try eassumption.
    unfold parts in Hserved. rewrite length_seqZ in Hserved. fold N in Hmu. lia.
  - apply can_return in Hinv as [evs' Hevs']; try assumption.
    exists evs'. rewrite run_app. exact Hevs'.
Qed.

Lemma downloadByParts_writes_in_part_order_witness :
  let this := Examples.downloader (Examples.mockStore "bytes=0-9/100") 10 3 in
  let params := Examples.source (Some "bytes=10-19") None in
  let ready := Examples.alwaysReady in
  (1 <= maxConcurrency this /\ 1 <= maxPartSize this
   /\ forall i, 0 <= i < totalParts this 50 -> fulfilled this params 50 0 i)
  /\ let pipeline := downloadByParts this ready params [] [] 50 (Some 0) 0 in
     let st := run this ready Examples.outOfOrder pipeline in
     let parts := seqZ 0 (totalParts this 50 - 0) in
     let payloads := bodyOfPart this params 50 0 <$> parts in
     written (destinationStream st) `prefix_of` payloads
     /\ (forall p,
           control st = AwaitFetch p ->
           p = Some (promiseOfPart this params 50 0 (0 + numDownloads st))
           /\ queue st
              = (promiseOfPart this params 50 0
                   <$> seqZ (0 + numDownloads st + 1) (Z.of_nat (List.length (queue st)))))
     /\ (control st = Returned ->
         written (destinationStream st) = payloads
         /\ destinationStream st
            = deliveries this ready params [] 50 0 0 (List.length parts) ++ [EndStream])
     /\ ((4 * List.length parts + 4 <= served this ready pipeline Examples.outOfOrder)%nat ->
         control st = Returned)
     /\ (exists evs', control (run this ready (Examples.outOfOrder ++ evs') pipeline)
                      = Returned).
Proof.
  cbv zeta. split.
  - cbn [maxConcurrency maxPartSize Examples.downloader].
    repeat split; try lia. intros i _. eexists. reflexivity.
  - apply (downloadByParts_writes_in_part_order
             (Examples.downloader (Examples.mockStore "bytes=0-9/100") 10 3)
             Examples.alwaysReady (Examples.source (Some "bytes=10-19") None)
             50 0 0 Examples.outOfOrder);
      cbn [maxConcurrency maxPartSize Examples.downloader]; try lia.
    intros i _. eexists. reflexivity.
Defined.

(** The run of the witness, evaluated: parts 2 and 1 settle before part 0,
    part 4 before part 3, and the chunks still arrive in part order. *)
Example outOfOrder_run :
  let this := Examples.downloader (Examples.mockStore "bytes=0-9/100") 10 3 in
  let st := run this Examples.alwaysReady Examples.outOfOrder
              (downloadByParts this Examples.alwaysReady
                 (Examples.source (Some "bytes=10-19") None) [] [] 50 (Some 0) 0) in
  control st = Returned
  /\ (string_of_list_byte <$> written (destinationStream st))
     = ["bytes=0-9"; "bytes=10-19"; "bytes=20-29"; "bytes=30-39"; "bytes=40-49"]
  /\ last (destinationStream st) = Some EndStream.
Proof. vm_compute. repeat split; reflexivity. Qed.

(** C7.  When the fetch of part [k] is the first to fail, i.e. the parts
    [startingPart .. k-1] are fulfilled and part [k] is rejected: whatever
    the order of events, the chunks written so far are an initial segment
    of the payloads of the parts below [k]; the end of the stream is never
    signalled; when the function has returned the stream holds exactly the
    [k - startingPart] writes of the parts below [k] (that is [k - 1] when
    the pipeline starts at part 1, as [getObjectStream] starts it) followed
    by the error, and nothing is added afterwards; the function has
    returned as soon as the events it was waiting for have been delivered
    often enough, and it can always run to that return. *)
Theorem downloadByParts_stops_at_failed_part
    (this : ManagedDownloader) (ready : nat -> bool) (params : GetObjectStreamInput)
    (contentLength byteOffset startingPart k : Z) (e : Error) (evs : list Event) :
  1 <= maxConcurrency this ->
  1 <= maxPartSize this ->
  startingPart <= k < totalParts this contentLength ->
  (forall i, startingPart <= i < k -> fulfilled this params contentLength byteOffset i) ->
  client this (requestOfPart this params contentLength byteOffset k) = Rejected e ->
  let pipeline :=
    downloadByParts this ready params [] [] contentLength (Some byteOffset) startingPart in
  let st := run this ready evs pipeline in
  let payloads :=
    bodyOfPart this params contentLength byteOffset <$> seqZ startingPart (k - startingPart) in
  written (destinationStream st) `prefix_of` payloads
  /\ (EndStream ∉ destinationStream st)
  /\ (control st = Returned ->
      destinationStream st
      = deliveries this ready params [] contentLength byteOffset startingPart
          (Z.to_nat (k - startingPart)) ++ [EmitError e]
      /\ written (destinationStream st) = payloads
      /\ Z.of_nat (List.length (written (destinationStream st))) = k - startingPart
      /\ forall evs', destinationStream (run this ready evs' st) = destinationStream st)
  /\ ((4 * Z.to_nat (totalParts this contentLength - startingPart) + 4
       <= served this ready pipeline evs)%nat ->
      control st = Returned)
  /\ (exists evs', control (run this ready (evs ++ evs') pipeline) = Returned).
Proof.
  intros Hc HP Hk Hok Hfail pipeline st payloads.
  assert (Hinv0 : Inv this ready params [] [] contentLength byteOffset startingPart pipeline).
  { apply Inv_step; try assumption. apply Inv_enter; assumption. }
  assert (Hinv : Inv this ready params [] [] contentLength byteOffset startingPart st).
  { apply Inv_run; assumption. }
  pose proof Hinv as Hsum. apply Inv_summary in Hsum; try assumption.
  destruct Hsum as (n & tail & Hsink & Hn & Hful & _ & _ & _ & _ & _ & _ & _ & Hctl).
  set (N := totalParts this contentLength) in *.
  assert (Hnk : startingPart + Z.of_nat n <= k).
  { destruct (Z_le_gt_dec (startingPart + Z.of_nat n) k) as [|Hgt]; [assumption|].
    destruct (Hful k) as [data Hd]; [lia | congruence]. }
  assert (Htail : tail = [] \/ exists e', tail = [EmitError e']
                                          /\ startingPart + Z.of_nat n = k /\ e' = e).
  { destruct (control st); auto; [tauto|].
    destruct Hctl as [(-> & Hnmax & _)|(e' & -> & E & Hlt)]; [lia|].
    right. exists e'. split; [reflexivity|].
    destruct (Z.eq_dec (startingPart + Z.of_nat n) k) as [Heq|Hne].
    - split; [exact Heq|]. rewrite Heq in E. congruence.
    - destruct (Hok (startingPart + Z.of_nat n)) as [data Hd]; [lia | congruence]. }
  assert (Hwritten : written (destinationStream st)
                     = bodyOfPart this params contentLength byteOffset
                         <$> seqZ startingPart (Z.of_nat n)).
  { rewrite Hsink, written_sink; [reflexivity|].
    destruct Htail as [->|(e' & -> & _)]; eauto. }
  split; [|split; [|split; [|split]]].
  - rewrite Hwritten. unfold payloads.
    exists (bodyOfPart this params contentLength byteOffset
              <$> seqZ (startingPart + Z.of_nat n) (k - startingPart - Z.of_nat n)).
    rewrite <- fmap_app, <- seqZ_app by lia. do 2 f_equal. lia.
  - rewrite Hsink. cbn [app]. intros [Hin|Hin]%elem_of_app.
    + apply deliveries_are_writes in Hin. discriminate.
    + destruct Htail as [->|(e' & -> & _)];
        [apply elem_of_nil in Hin; exact Hin
        | apply list_elem_of_singleton in Hin; discriminate].
  - intros Hret. rewrite Hret in Hctl.
    destruct Htail as [->|(e' & -> & Heq & ->)].
    { destruct Hctl as [(? & _)|(? & ? & _)]; discriminate. }
    assert (Hn' : Z.to_nat (k - startingPart) = n) by lia.
    repeat split.
    + rewrite Hn', Hsink. reflexivity.
    + rewrite Hwritten. unfold payloads. do 2 f_equal. lia.
    + rewrite Hwritten, length_fmap, length_seqZ. lia.
    + intros evs'. apply run_Returned, Hret.
  - intros Hserved. pose proof Hinv0 as Hmu. apply measure_bound in Hmu.
    eapply returns_when_served; try eassumption. fold N in Hserved. lia.
  - apply can_return in Hinv as [evs' Hevs']; try assumption.
    exists evs'. rewrite run_app. exact Hevs'.
Qed.

Lemma downloadByParts_stops_at_failed_part_witness :
  let store := Examples.failingOn "bytes=20-29" (Examples.mockStore "bytes=0-9/100") in
  let this := Examples.downloader store 10 4 in
  let params := Examples.source (Some "bytes=10-19") None in
  let ready := Examples.alwaysReady in
  let evs := [Settle 3; Settle 2; Settle 1; Settle 0; Tick; Tick; Tick; Tick; Tick] in
  (1 <= maxConcurrency this /\ 1 <= maxPartSize this
   /\ 0 <= 2 < totalParts this 100
   /\ (forall i, 0 <= i < 2 -> fulfilled this params 100 0 i)
   /\ client this (requestOfPart this params 100 0 2) = Rejected (FetchError 500))
  /\ let pipeline := downloadByParts this ready params [] [] 100 (Some 0) 0 in
     let st := run this ready evs pipeline in
     let payloads := bodyOfPart this params 100 0 <$> seqZ 0 (2 - 0) in
     written (destinationStream st) `prefix_of` payloads
     /\ (EndStream ∉ destinationStream st)
     /\ (control st = Returned ->
         destinationStream st
         = deliveries this ready params [] 100 0 0 (Z.to_nat (2 - 0))
             ++ [EmitError (FetchError 500)]
         /\ written (destinationStream st) = payloads
         /\ Z.of_nat (List.length (written (destinationStream st))) = 2 - 0
         /\ forall evs', destinationStream (run this ready evs' st) = destinationStream st)
     /\ ((4 * Z.to_nat (totalParts this 100 - 0) + 4
          <= served this ready pipeline evs)%nat ->
         control st = Returned)
     /\ (exists evs', control (run this ready (evs ++ evs') pipeline) = Returned).
Proof.
  cbv zeta.
  assert (Hful : forall i, 0 <= i < 2 ->
            fulfilled
              (Examples.downloader
                 (Examples.failingOn "bytes=20-29" (Examples.mockStore "bytes=0-9/100")) 10 4)
              (Examples.source (Some "bytes=10-19") None) 100 0 i).
  { intros i Hi. assert (i = 0 \/ i = 1) as [-> | ->] by lia;
      eexists; vm_compute; reflexivity. }
  split.
  - split; [vm_compute; congruence|]. split; [vm_compute; congruence|].
    split; [split; vm_compute; congruence|].
    split; [exact Hful | vm_compute; reflexivity].
  - apply (downloadByParts_stops_at_failed_part
             (Examples.downloader
                (Examples.failingOn "bytes=20-29" (Examples.mockStore "bytes=0-9/100")) 10 4)
             Examples.alwaysReady (Examples.source (Some "bytes=10-19") None) 100 0 0 2
             (FetchError 500));
      [vm_compute; congruence | vm_compute; congruence | split; vm_compute; congruence
      | exact Hful | vm_compute; reflexivity].
Defined.

(** The unit test 'will properly handle errors and stop executing after an
    error', evaluated for a concurrency of 4: two chunks, then the error. *)
Example failed_part_run :
  let store := Examples.failingOn "bytes=20-29" (Examples.mockStore "bytes=0-9/100") in
  let this := Examples.downloader store 10 4 in
  let st := run this Examples.alwaysReady
              [Settle 3; Settle 2; Settle 1; Settle 0; Tick; Tick; Tick; Tick; Tick]
              (downloadByParts this Examples.alwaysReady
                 (Examples.source (Some "bytes=10-19") None) [] [] 100 (Some 0) 0) in
  control st = Returned
  /\ (string_of_list_byte <$> written (destinationStream st)) = ["bytes=0-9"; "bytes=10-19"]
  /\ last (destinationStream st) = Some (EmitError (FetchError 500))
  /\ List.length (getObjectCalls st) = 6%nat.
Proof. vm_compute. repeat split; reflexivity. Qed.

(** C8.  In every state the pipeline can reach: [waitForDrainEvent] has
    been called once for each write that returned not-ready; the pipeline
    is suspended on it only right after such a write; while it is
    suspended, no event other than 'drain' issues a fetch, writes to the
    stream or changes the queue, the part indices, the delivered count or
    the request object, whereas fetches already issued still settle; the
    'drain' event resumes the loop with the delivered count advanced by one
    and everything else intact; and a settled, fulfilled head whose write
    returns not-ready suspends the pipeline at that very step. *)
Theorem downloadByParts_waits_for_drain
    (this : ManagedDownloader) (ready : nat -> bool) (request : GetObjectStreamInput)
    (contentLength byteOffset startingPart : Z) (evs : list Event) :
  1 <= maxConcurrency this ->
  1 <= maxPartSize this ->
  let pipeline :=
    downloadByParts this ready request [] [] contentLength (Some byteOffset) startingPart in
  let st := run this ready evs pipeline in
  drainWaits st = notReadyCount (destinationStream st)
  /\ (control st = AwaitDrain ->
      (exists chunk, last (destinationStream st) = Some (Write chunk false))
      /\ (forall ev, ev <> Drain ->
            let st' := step this ready st ev in
            control st' = AwaitDrain
            /\ getObjectCalls st' = getObjectCalls st
            /\ destinationStream st' = destinationStream st
            /\ queue st' = queue st
            /\ currentPart st' = currentPart st
            /\ numDownloads st' = numDownloads st
            /\ params st' = params st
            /\ drainWaits st' = drainWaits st
            /\ settled st ⊆ settled st')
      /\ (forall i, startingPart <= i < currentPart st ->
                    i ∈ settled (step this ready st (Settle i)))
      /\ (let st' := step this ready st Drain in
          control st' = LoopHead
          /\ numDownloads st' = numDownloads st + 1
          /\ getObjectCalls st' = getObjectCalls st
          /\ destinationStream st' = destinationStream st
          /\ queue st' = queue st
          /\ currentPart st' = currentPart st
          /\ params st' = params st
          /\ drainWaits st' = drainWaits st
          /\ settled st' = settled st))
  /\ (forall p data,
        control st = AwaitFetch (Some p) -> isSettled (Some p) st = true ->
        settlesAs p = Fulfilled data ->
        let st' := step this ready st Tick in
        destinationStream st'
        = destinationStream st ++ [Write (Body data) (ready (writeCount (destinationStream st)))]
        /\ getObjectCalls st' = getObjectCalls st
        /\ if ready (writeCount (destinationStream st))
           then control st' = LoopHead /\ numDownloads st' = numDownloads st + 1
                /\ drainWaits st' = drainWaits st
           else control st' = AwaitDrain /\ numDownloads st' = numDownloads st
                /\ drainWaits st' = S (drainWaits st)).
Proof.
  intros Hc HP pipeline st.
  assert (Hinv : Inv this ready request [] [] contentLength byteOffset startingPart st).
  { apply Inv_run; try assumption. apply Inv_step; try assumption.
    apply Inv_enter; assumption. }
  pose proof Hinv as Hsum. apply Inv_summary in Hsum; try assumption.
  destruct Hsum as (n & tail & Hsink & Hn & Hful & Hdw & _ & _ & _ & _ & _ & Hsp & Hctl).
  split; [|split].
  - rewrite Hdw, Hsink. cbn [app]. rewrite notReadyCount_app.
    assert (Ht : notReadyCount tail = 0%nat).
    { destruct (control st); try (rewrite Hctl; reflexivity).
      - destruct Hctl as (-> & _). reflexivity.
      - destruct Hctl as [(-> & _)|(e & -> & _)]; reflexivity. }
    rewrite Ht. lia.
  - intros Hs. rewrite Hs in Hctl. destruct Hctl as (-> & Hn1 & Hr).
    split; [|split; [|split]].
    + destruct n as [|n]; [lia|].
      rewrite Hsink, app_nil_r. cbn [app]. rewrite deliveries_S, last_snoc.
      replace (S n - 1)%nat with n in Hr by lia. rewrite Hr. eauto.
    + intros ev Hev. unfold step. rewrite Hs.
      destruct ev as [|i|]; [| |congruence]; cbn zeta.
      * rewrite Hs. repeat split; reflexivity.
      * destruct (_ && _); cbn; rewrite ?Hs; repeat split; try reflexivity.
        apply union_subseteq_r.
    + intros i Hi. unfold step. rewrite Hsp.
      destruct (Z.leb_spec startingPart i); [|lia].
      destruct (Z.ltb_spec i (currentPart st)); [|lia].
      cbn. apply elem_of_union_l, elem_of_singleton. reflexivity.
    + unfold step. rewrite Hs. cbn. repeat split; reflexivity.
  - intros p data Hs Hset Hp. unfold step. rewrite Hs, Hset.
    unfold afterFetch, sinkWrite. rewrite Hp.
    destruct (ready (writeCount (destinationStream st))); cbn; repeat split; reflexivity.
Qed.

Lemma downloadByParts_waits_for_drain_witness :
  let this := Examples.downloader (Examples.mockStore "bytes=0-9/100") 10 2 in
  let request := Examples.source (Some "bytes=10-19") None in
  let ready := Examples.notReadyAt 1 in
  let evs := [Settle 0; Tick; Tick; Settle 1; Tick] in
  (1 <= maxConcurrency this /\ 1 <= maxPartSize this)
  /\ let pipeline := downloadByParts this ready request [] [] 50 (Some 0) 0 in
     let st := run this ready evs pipeline in
     drainWaits st = notReadyCount (destinationStream st)
     /\ (control st = AwaitDrain ->
         (exists chunk, last (destinationStream st) = Some (Write chunk false))
         /\ (forall ev, ev <> Drain ->
               let st' := step this ready st ev in
               control st' = AwaitDrain
               /\ getObjectCalls st' = getObjectCalls st
               /\ destinationStream st' = destinationStream st
               /\ queue st' = queue st
               /\ currentPart st' = currentPart st
               /\ numDownloads st' = numDownloads st
               /\ params st' = params st
               /\ drainWaits st' = drainWaits st
               /\ settled st ⊆ settled st')
         /\ (forall i, 0 <= i < currentPart st ->
                       i ∈ settled (step this ready st (Settle i)))
         /\ (let st' := step this ready st Drain in
             control st' = LoopHead
             /\ numDownloads st' = numDownloads st + 1
             /\ getObjectCalls st' = getObjectCalls st
             /\ destinationStream st' = destinationStream st
             /\ queue st' = queue st
             /\ currentPart st' = currentPart st
             /\ params st' = params st
             /\ drainWaits st' = drainWaits st
             /\ settled st' = settled st))
     /\ (forall p data,
           control st = AwaitFetch (Some p) -> isSettled (Some p) st = true ->
           settlesAs p = Fulfilled data ->
           let st' := step this ready st Tick in
           destinationStream st'
           = destinationStream st
               ++ [Write (Body data) (ready (writeCount (destinationStream st)))]
           /\ getObjectCalls st' = getObjectCalls st
           /\ if ready (writeCount (destinationStream st))
              then control st' = LoopHead /\ numDownloads st' = numDownloads st + 1
                   /\ drainWaits st' = drainWaits st
              else control st' = AwaitDrain /\ numDownloads st' = numDownloads st
                   /\ drainWaits st' = S (drainWaits st)).
Proof.
  cbv zeta. split.
  - split; vm_compute; congruence.
  - apply (downloadByParts_waits_for_drain
             (Examples.downloader (Examples.mockStore "bytes=0-9/100") 10 2)
             (Examples.notReadyAt 1) (Examples.source (Some "bytes=10-19") None)
             50 0 0 [Settle 0; Tick; Tick; Settle 1; Tick]);
      vm_compute; congruence.
Defined.

(** The unit test 'will wait until a drain event is fired on the stream
    before continuing execution', evaluated: the second write returns
    not-ready; a fetch settling meanwhile changes nothing the pipeline
    owns; after 'drain' the remaining parts are delivered. *)
Example drain_run :
  let this := Examples.downloader (Examples.mockStore "bytes=0-9/100") 10 2 in
  let ready := Examples.notReadyAt 1 in
  let start := downloadByParts this ready (Examples.source (Some "bytes=10-19") None)
                 [] [] 50 (Some 0) 0 in
  let suspended := run this ready [Settle 0; Tick; Tick; Settle 1; Tick] start in
  let later := run this ready [Settle 2; Tick; Tick; Tick] suspended in
  let resumed :=
    run this ready [Drain; Tick; Tick; Tick; Settle 3; Tick; Tick; Settle 4; Tick; Tick] later in
  control suspended = AwaitDrain
  /\ control later = AwaitDrain
  /\ destinationStream later = destinationStream suspended
  /\ getObjectCalls later = getObjectCalls suspended
  /\ control resumed = Returned
  /\ (string_of_list_byte <$> written (destinationStream resumed))
     = ["bytes=0-9"; "bytes=10-19"; "bytes=20-29"; "bytes=30-39"; "bytes=40-49"]
  /\ drainWaits resumed = 1%nat.
Proof. vm_compute. repeat split; reflexivity. Qed.

(** ** getObjectStream *)

Section GetObjectStreamFacts.

Variable this : ManagedDownloader.
Variable ready : nat -> bool.

(** The ways [getObjectStream] can go once the request is prepared. *)
Lemma getObjectStream_cases request params1 contentLength byteOffset :
  truthyString (Bucket request) = true ->
  truthyString (Key request) = true ->
  prepareRequest this request = inr (params1, contentLength, byteOffset) ->
  (exists e, getObjectStream this ready request = Rejects e params1 [params1]
             /\ (client this params1 = Rejected e
                 \/ exists data, client this params1 = Fulfilled data
                                 /\ resolveContentLength contentLength data = inl e))
  \/ (exists data n,
        client this params1 = Fulfilled data
        /\ resolveContentLength contentLength data = inr n
        /\ (exceedsPartSize this n = None \/ truthyNum (PartNumber params1) = true)
        /\ getObjectStream this ready request
           = Resolves (noPipeline params1 (bootstrapSink ready n data ++ [EndStream])
                         [params1]))
  \/ (exists data l,
        client this params1 = Fulfilled data
        /\ resolveContentLength contentLength data = inr (Int l)
        /\ maxPartSize this < l
        /\ truthyNum (PartNumber params1) = false
        /\ getObjectStream this ready request
           = Resolves (downloadByParts this ready params1
                         (bootstrapSink ready (Int l) data) [params1] l byteOffset 1)).
Proof.
  intros HB HK Hprep. unfold getObjectStream. rewrite HB, HK, Hprep. cbn [negb orb].
  destruct (client this params1) as [data|e] eqn:E; [|left; eauto].
  destruct (resolveContentLength contentLength data) as [e|n] eqn:Hres;
    [left; eauto 6|].
  right.
  destruct (exceedsPartSize this n) as [l|] eqn:Hex.
  - destruct (truthyNum (PartNumber params1)) eqn:HPN; cbn [negb].
    + left. exists data, n. repeat split; auto.
    + right. exists data, l.
      destruct n as [|z]; [discriminate|]. cbn in Hex.
      destruct (Z.ltb_spec (maxPartSize this) z); [|discriminate].
      injection Hex as ->. repeat split; auto.
  - left. exists data, n. repeat split; auto.
Qed.

Lemma prepareRequest_both request :
  truthyNum (PartNumber request) = true ->
  prepareRequest this request = inr (request, None, None).
Proof.
  intros HPN. unfold prepareRequest. rewrite HPN, andb_false_r. reflexivity.
Qed.

Lemma prepareRequest_no_range request :
  truthyString (Range request) = false ->
  truthyNum (PartNumber request) = false ->
  prepareRequest this request
  = inr (setRange request ("bytes=0-" +:+ numToString (maxPartSize this - 1)), None, None).
Proof. intros HR HPN. unfold prepareRequest. rewrite HR, HPN. reflexivity. Qed.

Lemma prepareRequest_range request info :
  truthyString (Range request) = true ->
  truthyNum (PartNumber request) = false ->
  getInformationFromRange (default "" (Range request)) = inr info ->
  prepareRequest this request
  = inr (setRange request
           (getRangeOfPart 0 (RangeInfo.length info) (maxPartSize this)
              (RangeInfo.startByte info)),
         Some (RangeInfo.length info), Some (RangeInfo.startByte info)).
Proof.
  intros HR HPN Hinfo. unfold prepareRequest. rewrite HR, HPN, Hinfo. reflexivity.
Qed.

End GetObjectStreamFacts.

(** C3 (as the code has it).  A request that sets both Range and
    PartNumber is not examined by [getObjectStream]: exactly one fetch is
    issued, with the request as it is, both fields set.  The result rejects
    when that fetch is rejected or carries no ContentRange; otherwise it
    resolves with a stream that got the one body and was ended, and no
    pipeline is started. *)
Theorem getObjectStream_range_and_part_number
    (this : ManagedDownloader) (ready : nat -> bool) (request : GetObjectStreamInput) :
  truthyString (Bucket request) = true ->
  truthyString (Key request) = true ->
  truthyString (Range request) = true ->
  truthyNum (PartNumber request) = true ->
  getObjectStream this ready request
  = match client this request with
    | Rejected e => Rejects e request [request]
    | Fulfilled data =>
        match ContentRange data with
        | None => Rejects TypeError request [request]
        | Some cr =>
            Resolves
              (noPipeline request
                 [SetMimeType (ContentType data);
                  SetContentLength (parseIntOpt (splitOn "/" cr !! 1%nat));
                  Write (Body data) (ready 0%nat);
                  EndStream]
                 [request])
        end
    end.
Proof.
  intros HB HK HR HPN. unfold getObjectStream.
  rewrite HB, HK, (prepareRequest_both this request HPN). cbn [negb orb].
  destruct (client this request) as [data|e]; [|reflexivity].
  unfold resolveContentLength. destruct (ContentRange data) as [cr|]; [|reflexivity].
  rewrite HPN. cbn [negb].
  destruct (exceedsPartSize this _); reflexivity.
Qed.

Lemma getObjectStream_range_and_part_number_witness :
  let this := Examples.downloader (Examples.mockStore "bytes=0-9/100") 10 1 in
  let request := Examples.source (Some "bytes=101-202") (Some 1) in
  (truthyString (Bucket request) = true /\ truthyString (Key request) = true
   /\ truthyString (Range request) = true /\ truthyNum (PartNumber request) = true)
  /\ getObjectStream this Examples.alwaysReady request
     = match client this request with
       | Rejected e => Rejects e request [request]
       | Fulfilled data =>
           match ContentRange data with
           | None => Rejects TypeError request [request]
           | Some cr =>
               Resolves
                 (noPipeline request
                    [SetMimeType (ContentType data);
                     SetContentLength (parseIntOpt (splitOn "/" cr !! 1%nat));
                     Write (Body data) (Examples.alwaysReady 0%nat);
                     EndStream]
                    [request])
           end
       end.
Proof.
  cbv zeta. split.
  - repeat split; reflexivity.
  - apply (getObjectStream_range_and_part_number
             (Examples.downloader (Examples.mockStore "bytes=0-9/100") 10 1)
             Examples.alwaysReady (Examples.source (Some "bytes=101-202") (Some 1)));
      reflexivity.
Defined.

(** C3, the claim as stated fails: with a store that answers, the request
    of the integration test with both fields set is fetched (one call,
    both fields in it) and a stream is returned. *)
Lemma getObjectStream_range_and_part_number_fetches :
  let this := Examples.downloader (Examples.mockStore "bytes=0-9/100") 10 1 in
  let request := Examples.source (Some "bytes=101-202") (Some 1) in
  exists st,
    getObjectStream this Examples.alwaysReady request = Resolves st
    /\ getObjectCalls st = [request]
    /\ (string_of_list_byte <$> written (destinationStream st)) = ["bytes=101-202"]
    /\ last (destinationStream st) = Some EndStream.
Proof.
  cbv zeta. eexists. split; [reflexivity|].
  vm_compute. repeat split; reflexivity.
Qed.

Section BootstrapFacts.

Variable this : ManagedDownloader.
Variable ready : nat -> bool.

Lemma issueRequests_sink n st :
  destinationStream (issueRequests this n st) = destinationStream st.
Proof. revert st. induction n as [|n IH]; intros st; cbn; [reflexivity|]. now rewrite IH. Qed.

(** Starting the pipeline sets no metadata on the stream. *)
Lemma downloadByParts_contentLengthsSet request sink calls l byteOffset sp :
  contentLengthsSet
    (destinationStream (downloadByParts this ready request sink calls l byteOffset sp))
  = contentLengthsSet sink.
Proof.
  unfold downloadByParts, step, enterDownloadByParts. cbn [control].
  unfold loopHead. cbn [numDownloads startingPart destinationStream].
  destruct (_ <? _).
  - match goal with
    | |- context [queue ?s] => destruct (queue s) eqn:Hq
    end; cbn; apply f_equal, issueRequests_sink.
  - cbn. unfold contentLengthsSet. rewrite omap_app. cbn. apply app_nil_r.
Qed.

Lemma lengthUndetermined_prepare request :
  lengthUndetermined request ->
  exists params1 contentLength byteOffset,
    prepareRequest this request = inr (params1, contentLength, byteOffset)
    /\ (contentLength = None \/ contentLength = Some 0).
Proof.
  intros H.
  destruct (truthyNum (PartNumber request)) eqn:HPN.
  { eexists _, _, _. split; [apply prepareRequest_both, HPN | auto]. }
  destruct (truthyString (Range request)) eqn:HR.
  - destruct H as [H|[H|(info & Hinfo & Hlen)]]; [congruence | congruence |].
    eexists _, _, _. split; [apply prepareRequest_range; eassumption|].
    rewrite Hlen. auto.
  - eexists _, _, _. split; [apply prepareRequest_no_range; assumption | auto].
Qed.

End BootstrapFacts.

(** C10.  When the request (with its bucket and key) does not determine a
    non-zero content length -- no range, or a part number, or a range of
    parsed length 0 -- the first fetch is issued, and once it is fulfilled
    its ContentRange is read without any test: if there is none the result
    rejects with the runtime error and no stream is returned; if there is
    one, the content length set on the stream, set once, is [parseInt] of
    what follows the first '/'. *)
Theorem getObjectStream_reads_ContentRange
    (this : ManagedDownloader) (ready : nat -> bool) (request : GetObjectStreamInput) :
  truthyString (Bucket request) = true ->
  truthyString (Key request) = true ->
  lengthUndetermined request ->
  exists params1 contentLength byteOffset,
    prepareRequest this request = inr (params1, contentLength, byteOffset)
    /\ forall data,
         client this params1 = Fulfilled data ->
         (ContentRange data = None ->
            getObjectStream this ready request = Rejects TypeError params1 [params1])
         /\ (forall cr,
               ContentRange data = Some cr ->
               exists st,
                 getObjectStream this ready request = Resolves st
                 /\ contentLengthsSet (destinationStream st)
                    = [parseIntOpt (splitOn "/" cr !! 1%nat)]).
Proof.
  intros HB HK Hund.
  destruct (lengthUndetermined_prepare this request Hund)
    as (params1 & cl & bo & Hprep & Hcl).
  exists params1, cl, bo. split; [exact Hprep|].
  intros data Hdata.
  assert (Hres : resolveContentLength cl data
                 = match ContentRange data with
                   | None => inl TypeError
                   | Some cr => inr (parseIntOpt (splitOn "/" cr !! 1%nat))
                   end).
  { destruct Hcl as [-> | ->]; reflexivity. }
  destruct (getObjectStream_cases this ready request params1 cl bo HB HK Hprep)
    as [(e & Hgo & Hwhy) | [(data' & n & Hd & Hn & _ & Hgo) | (data' & l & Hd & Hn & _ & _ & Hgo)]].
  - destruct Hwhy as [Hrej | (data' & Hd & Hn)]; [congruence|].
    assert (data' = data) as -> by congruence.
    rewrite Hres in Hn. split.
    + intros Hnone. rewrite Hnone in Hn. injection Hn as <-. exact Hgo.
    + intros cr Hcr. rewrite Hcr in Hn. discriminate.
  - assert (data' = data) as -> by congruence.
    rewrite Hres in Hn. split.
    + intros Hnone. rewrite Hnone in Hn. discriminate.
    + intros cr Hcr. rewrite Hcr in Hn. injection Hn as <-.
      eexists. split; [exact Hgo | reflexivity].
  - assert (data' = data) as -> by congruence.
    rewrite Hres in Hn. split.
    + intros Hnone. rewrite Hnone in Hn. discriminate.
    + intros cr Hcr. rewrite Hcr in Hn. injection Hn as Hn.
      eexists. split; [exact Hgo|].
      rewrite downloadByParts_contentLengthsSet, <- Hn. reflexivity.
Qed.

Lemma getObjectStream_reads_ContentRange_witness :
  let this := Examples.downloader (sliceStore Examples.object100) 10 1 in
  let request := Examples.source None None in
  (truthyString (Bucket request) = true /\ truthyString (Key request) = true
   /\ lengthUndetermined request)
  /\ exists params1 contentLength byteOffset,
       prepareRequest this request = inr (params1, contentLength, byteOffset)
       /\ forall data,
            client this params1 = Fulfilled data ->
            (ContentRange data = None ->
               getObjectStream this Examples.alwaysReady request
               = Rejects TypeError params1 [params1])
            /\ (forall cr,
                  ContentRange data = Some cr ->
                  exists st,
                    getObjectStream this Examples.alwaysReady request = Resolves st
                    /\ contentLengthsSet (destinationStream st)
                       = [parseIntOpt (splitOn "/" cr !! 1%nat)]).
Proof.
  cbv zeta.
  assert (Hund : lengthUndetermined (Examples.source None None)) by (left; reflexivity).
  split.
  - repeat split; try reflexivity. exact Hund.
  - apply (getObjectStream_reads_ContentRange
             (Examples.downloader (sliceStore Examples.object100) 10 1)
             Examples.alwaysReady (Examples.source None None));
      [reflexivity | reflexivity | exact Hund].
Defined.

(** Two runs of C10 evaluated: a part-number request answered without a
    ContentRange rejects with the runtime error; a whole-object request
    takes the total after the '/'. *)
Example ContentRange_runs :
  getObjectStream
    (Examples.downloader
       (fun _ => Fulfilled {| Body := []; ContentRange := None; ContentType := None |}) 10 1)
    Examples.alwaysReady (Examples.source None (Some 2))
  = Rejects TypeError (Examples.source None (Some 2)) [Examples.source None (Some 2)]
  /\ exists st,
       getObjectStream (Examples.downloader (sliceStore Examples.object100) 10 1)
         Examples.alwaysReady (Examples.source None None) = Resolves st
       /\ contentLengthsSet (destinationStream st) = [Int 100]
       /\ Range <$> getObjectCalls st = [Some "bytes=0-9"; Some "bytes=10-19"].
Proof.
  split; [reflexivity|]. eexists. split; [reflexivity|].
  vm_compute. repeat split; reflexivity.
Qed.

(** C6, the code at a failing input.  The client range [bytes=5-5] parses
    to length [5 - 5 = 0]; the length set on the stream is nevertheless the
    total after the '/' of the store's ContentRange, here 100, and the
    pipeline is started on that total. *)
Lemma contentLength_of_zero_length_range :
  let this := Examples.downloader (Examples.mockStore "bytes=0-9/100") 10 1 in
  let request := Examples.source (Some "bytes=5-5") None in
  getInformationFromRange "bytes=5-5" = inr (RangeInfo.mk 5 5 0)
  /\ exists st,
       getObjectStream this Examples.alwaysReady request = Resolves st
       /\ contentLengthsSet (destinationStream st) = [Int 100]
       /\ contentLengthsSet (destinationStream st) <> [Int (5 - 5)]
       /\ contentLength st = 100
       /\ Range <$> getObjectCalls st = [Some "bytes=5-4"; Some "bytes=15-24"].
Proof.
  cbv zeta. split; [reflexivity|]. eexists. split; [reflexivity|]. vm_compute.
  repeat split; try reflexivity. discriminate.
Qed.

(** ** The request object *)

Section RequestFacts.

Lemma digitValue_bounds c : isDigit c = true -> 0 <= digitValue c <= 9.
Proof.
  unfold isDigit, digitValue.
  intros [H1%Nat.leb_le H2%Nat.leb_le]%andb_prop. lia.
Qed.

Lemma decimalValueFrom_nonneg ds acc :
  allDigits ds = true -> 0 <= acc -> 0 <= decimalValueFrom acc ds.
Proof.
  revert acc. induction ds as [|c ds IH]; intros acc Hall Hacc; cbn; [exact Hacc|].
  cbn in Hall. apply andb_prop in Hall as [Hc Hds].
  apply IH; [exact Hds|]. pose proof (digitValue_bounds c Hc). lia.
Qed.

Lemma getInformationFromRange_shape r info :
  getInformationFromRange r = inr info ->
  0 <= RangeInfo.startByte info
  /\ 0 <= RangeInfo.endByte info
  /\ RangeInfo.length info = RangeInfo.endByte info - RangeInfo.startByte info.
Proof.
  intros H.
  apply (proj1 (getInformationFromRange_accepts_syntax_aux r info)) in H.
  destruct H as (d1 & d2 & (_ & H1 & _ & H2 & _) & ->). cbn.
  repeat split; try apply decimalValueFrom_nonneg; auto; lia.
Qed.

End RequestFacts.

Section LaunchedPipeline.

Variable this : ManagedDownloader.
Variable ready : nat -> bool.

Hypothesis partSize_pos : 1 <= maxPartSize this.
Hypothesis concurrency_pos : 1 <= maxConcurrency this.

(** The pipeline that [getObjectStream] starts keeps the invariant. *)
Lemma launched_inv params1 sink l byteOffset evs :
  Inv this ready params1 sink [params1] l (default 0 byteOffset) 1
    (run this ready evs
       (downloadByParts this ready params1 sink [params1] l byteOffset 1)).
Proof.
  apply Inv_run; try assumption. apply Inv_step; try assumption.
  destruct byteOffset; apply Inv_enter; assumption.
Qed.

Lemma run_Returned_frame evs st :
  control st = Returned ->
  currentPart (run this ready evs st) = currentPart st
  /\ contentLength (run this ready evs st) = contentLength st
  /\ byteOffset (run this ready evs st) = byteOffset st.
Proof.
  revert st. induction evs as [|ev evs IH]; intros st Hc; [auto|].
  change (run this ready (ev :: evs) st)
    with (run this ready evs (step this ready st ev)).
  destruct (step_Returned this ready st ev Hc) as (Hc' & _).
  destruct (IH _ Hc') as (-> & -> & ->).
  unfold step. rewrite Hc. destruct ev as [|i|]; auto.
  destruct (_ && _); auto.
Qed.

Lemma bootstrap_range_differs r info P :
  getInformationFromRange r = inr info ->
  getRangeOfPart 0 (RangeInfo.length info) P (RangeInfo.startByte info) <> r.
Proof.
  intros H Heq. destruct (getInformationFromRange_shape r info H) as (Hs & He & Hlen).
  unfold getRangeOfPart, startByteOfPart, endByteOfPart in Heq.
  rewrite <- Heq in H.
  match type of H with
  | getInformationFromRange (formatRange ?a ?b) = _ =>
      destruct (Z_lt_le_dec b 0) as [Hneg|Hpos];
      [rewrite getInformationFromRange_format_neg in H by lia; discriminate
      |rewrite getInformationFromRange_format in H by lia]
  end.
  injection H as H. apply (f_equal RangeInfo.endByte) in H. cbn in H. lia.
Qed.

Lemma part_range_differs r info l j :
  getInformationFromRange r = inr info ->
  1 <= j < ceilDiv l (maxPartSize this) ->
  getRangeOfPart j l (maxPartSize this) (RangeInfo.startByte info) <> r.
Proof.
  intros H Hj Heq. destruct (getInformationFromRange_shape r info H) as (Hs & _).
  rewrite <- Heq in H.
  rewrite getInformationFromRange_part in H by lia.
  injection H as H. apply (f_equal RangeInfo.startByte) in H. cbn in H.
  unfold startByteOfPart in H. nia.
Qed.

Lemma falsy_differs (x : option string) r :
  truthyString x = false -> truthyString (Some r) = true -> x <> Some r.
Proof. intros H1 H2 ->. congruence. Qed.

End LaunchedPipeline.

(** C9 (for requests that pass the input checks).  For every call whose
    request has a bucket and a key, sets no part number, and whose range,
    if given, has the accepted form: the request object is changed before
    the first fetch, its Range becoming the range string of the first
    sub-range, which differs from what the caller passed; that holds too
    when the result rejects at the fetch.  When the result resolves, at
    every later moment the object is the caller's with only Range changed,
    to a string that differs from the caller's; the fetches issued are the
    first one followed by one per part, each made with Range set to that
    part's range string, and the object holds the Range of the last one. *)
Theorem getObjectStream_overwrites_Range
    (this : ManagedDownloader) (ready : nat -> bool) (request : GetObjectStreamInput)
    (evs : list Event) :
  1 <= maxConcurrency this ->
  1 <= maxPartSize this ->
  truthyString (Bucket request) = true ->
  truthyString (Key request) = true ->
  truthyNum (PartNumber request) = false ->
  (truthyString (Range request) = true ->
   exists info, getInformationFromRange (default "" (Range request)) = inr info) ->
  exists r0,
    Range request <> Some r0
    /\ match getObjectStream this ready request with
       | Rejects e p calls => p = setRange request r0 /\ calls = [setRange request r0]
       | Resolves st0 =>
           let st := run this ready evs st0 in
           exists r,
             params st = setRange request r
             /\ Range request <> Some r
             /\ Bucket (params st) = Bucket request
             /\ Key (params st) = Key request
             /\ PartNumber (params st) = PartNumber request
             /\ getObjectCalls st
                = setRange request r0
                    :: ((fun i => setRange request
                                    (getRangeOfPart i (contentLength st)
                                       (maxPartSize this) (byteOffset st)))
                          <$> seqZ 1 (currentPart st - 1))
             /\ last (getObjectCalls st) = Some (params st)
       end.
Proof.
  intros Hc HP HB HK HPN Hparse.
  assert (exists r0 cl bo,
             prepareRequest this request = inr (setRange request r0, cl, bo)
             /\ Range request <> Some r0
             /\ forall l j, 1 <= j < ceilDiv l (maxPartSize this) ->
                  Range request
                  <> Some (getRangeOfPart j l (maxPartSize this) (default 0 bo)))
    as (r0 & cl & bo & Hprep & Hr0 & Hparts).
  { destruct (truthyString (Range request)) eqn:HR.
    - destruct (Hparse eq_refl) as [info Hinfo].
      eexists _, _, _. split; [apply prepareRequest_range; eassumption|].
      destruct (Range request) as [r|] eqn:ER; [|discriminate HR]. cbn in Hinfo.
      split.
      + intros [= Heq]. symmetry in Heq. revert Heq. apply bootstrap_range_differs, Hinfo.
      + intros l j Hj [= Heq]. symmetry in Heq. revert Heq. cbn.
        apply part_range_differs; assumption.
    - eexists _, None, None. split; [apply prepareRequest_no_range; assumption|].
      split; [|intros l j _]; apply falsy_differs; auto. }
  exists r0. split; [exact Hr0|].
  destruct (getObjectStream_cases this ready request _ cl bo HB HK Hprep)
    as [(e & -> & _) | [(data & n & _ & _ & _ & ->) | (data & l & _ & _ & Hl & _ & ->)]].
  - split; reflexivity.
  - cbn zeta.
    match goal with
    | |- context [run this ready evs ?s] =>
        destruct (run_Returned this ready evs s eq_refl) as (_ & _ & Hcalls & Hpar);
        destruct (run_Returned_frame this ready evs s eq_refl) as (Hcur & _ & _)
    end.
    exists r0. rewrite Hpar, Hcalls, Hcur. cbn.
    rewrite seqZ_nil by lia. repeat split; assumption.
  - cbn zeta.
    pose proof (launched_inv this ready HP Hc (setRange request r0)
                  (bootstrapSink ready (Int l) data) l bo evs) as Hinv.
    apply Inv_summary in Hinv; try assumption.
    destruct Hinv as (n & tail & _ & _ & _ & _ & Hcalls & Hpar & Hb & HL & Hoff & _ & _).
    match goal with
    | H : getObjectCalls ?s = _ |- _ => set (st := s) in *
    end.
    rewrite HL, Hoff.
    assert (Hcalls' : getObjectCalls st
                      = setRange request r0
                          :: ((fun i => setRange request
                                          (getRangeOfPart i l (maxPartSize this) (default 0 bo)))
                                <$> seqZ 1 (currentPart st - 1))) by exact Hcalls.
    destruct (Z.eq_dec (currentPart st) 1) as [Hcur|Hcur].
    + exists r0. unfold lastRequest in Hpar. rewrite Hcur, Z.eqb_refl in Hpar.
      rewrite Hpar, Hcalls', Hcur. rewrite seqZ_nil by lia.
      repeat split; assumption.
    + assert (Hj : 1 <= currentPart st - 1 < ceilDiv l (maxPartSize this)).
      { unfold totalParts in Hb. lia. }
      exists (getRangeOfPart (currentPart st - 1) l (maxPartSize this) (default 0 bo)).
      unfold lastRequest in Hpar.
      destruct (Z.eqb_spec (currentPart st) 1) as [|_]; [contradiction|].
      rewrite Hpar, Hcalls'.
      split; [reflexivity|]. split; [apply Hparts, Hj|]. repeat split.
      replace (currentPart st - 1) with ((currentPart st - 2) + 1) at 1 by lia.
      rewrite seqZ_app, fmap_app by lia.
      rewrite (seqZ_cons (1 + (currentPart st - 2)) 1), (seqZ_nil _ (Z.pred 1)) by lia.
      cbn [fmap list_fmap]. rewrite app_comm_cons, last_snoc.
      unfold requestOfPart. do 3 f_equal. lia.
Qed.

Lemma getObjectStream_overwrites_Range_witness :
  let this := Examples.downloader (Examples.mockStore "bytes=0-9/100") 10 2 in
  let request := Examples.source (Some "bytes=100-800") None in
  let ready := Examples.alwaysReady in
  let evs := [Settle 1; Tick; Tick] in
  (1 <= maxConcurrency this /\ 1 <= maxPartSize this
   /\ truthyString (Bucket request) = true /\ truthyString (Key request) = true
   /\ truthyNum (PartNumber request) = false
   /\ (truthyString (Range request) = true ->
       exists info, getInformationFromRange (default "" (Range request)) = inr info))
  /\ exists r0,
       Range request <> Some r0
       /\ match getObjectStream this ready request with
          | Rejects e p calls => p = setRange request r0 /\ calls = [setRange request r0]
          | Resolves st0 =>
              let st := run this ready evs st0 in
              exists r,
                params st = setRange request r
                /\ Range request <> Some r
                /\ Bucket (params st) = Bucket request
                /\ Key (params st) = Key request
                /\ PartNumber (params st) = PartNumber request
                /\ getObjectCalls st
                   = setRange request r0
                       :: ((fun i => setRange request
                                       (getRangeOfPart i (contentLength st)
                                          (maxPartSize this) (byteOffset st)))
                             <$> seqZ 1 (currentPart st - 1))
                /\ last (getObjectCalls st) = Some (params st)
          end.
Proof.
  cbv zeta.
  assert (Hparse : truthyString (Range (Examples.source (Some "bytes=100-800") None)) = true ->
                   exists info,
                     getInformationFromRange
                       (default "" (Range (Examples.source (Some "bytes=100-800") None)))
                     = inr info)
    by (intros _; eexists; reflexivity).
  split.
  - split; [vm_compute; congruence|]. split; [vm_compute; congruence|].
    repeat split; try reflexivity. exact Hparse.
  - apply (getObjectStream_overwrites_Range
             (Examples.downloader (Examples.mockStore "bytes=0-9/100") 10 2)
             Examples.alwaysReady (Examples.source (Some "bytes=100-800") None)
             [Settle 1; Tick; Tick]);
      [vm_compute; congruence | vm_compute; congruence
      | reflexivity | reflexivity | reflexivity | exact Hparse].
Defined.

(** The unit test 'will call the downloadByParts function once with the
    right parameters', evaluated, with the request object as the caller
    finds it when the promise resolves and after two more parts. *)
Example request_after_call :
  let this := Examples.downloader (Examples.mockStore "bytes=0-9/100") 10 2 in
  exists st,
    getObjectStream this Examples.alwaysReady (Examples.source (Some "bytes=100-800") None)
    = Resolves st
    /\ contentLength st = 700 /\ byteOffset st = 100 /\ startingPart st = 1
    /\ Range (params st) = Some "bytes=120-129"
    /\ Range (params (run this Examples.alwaysReady [Settle 1; Tick; Tick] st))
       = Some "bytes=130-139".
Proof.
  cbv zeta. eexists. split; [reflexivity|].
  vm_compute. repeat split; reflexivity.
Qed.

(** C9, the claim as stated fails: a request without a part number whose
    range is not of the accepted form is rejected before anything is
    assigned; the caller's object is as it was and no fetch was issued. *)
Lemma getObjectStream_invalid_range_unchanged :
  let this := Examples.downloader (Examples.mockStore "bytes=0-9/100") 10 1 in
  let request := Examples.source (Some "sruti") None in
  PartNumber request = None
  /\ getObjectStream this Examples.alwaysReady request = Rejects InvalidRange request [].
Proof. split; reflexivity. Qed.

(** ** Requests of a client range *)

Section ClientRange.

Variable request : GetObjectStreamInput.
Variable len P s : Z.

Hypothesis partSize_pos : 1 <= P.
Hypothesis offset_nonneg : 0 <= s.

Local Abbreviation rangeRequest :=
  (fun i => setRange request (getRangeOfPart i len P s)).

Lemma requested_parts m b :
  requested (rangeRequest <$> seqZ 0 m) b
  <-> exists i, 0 <= i < m /\ rangeCoversb (getRangeOfPart i len P s) b = true.
Proof.
  unfold requested, requestedb. rewrite existsb_exists. split.
  - intros (q & Hin & Hq). apply list_elem_of_In, list_elem_of_fmap in Hin.
    destruct Hin as (i & -> & Hi%elem_of_seqZ). exists i. split; [lia | exact Hq].
  - intros (i & Hi & Hq). exists (rangeRequest i). split; [|exact Hq].
    apply list_elem_of_In, list_elem_of_fmap. exists i. split; [reflexivity|].
    apply elem_of_seqZ. lia.
Qed.

(** The fetches of the first [m] parts ask for nothing outside the
    range; those of all the parts ask for all of it. *)
Lemma requested_within m b :
  m <= ceilDiv len P ->
  requested (rangeRequest <$> seqZ 0 m) b -> s <= b < s + len.
Proof.
  intros Hm (i & Hi & Hc)%requested_parts.
  apply (parts_cover len P s b partSize_pos offset_nonneg).
  exists i. split; [lia | exact Hc].
Qed.

Lemma requested_all b :
  requested (rangeRequest <$> seqZ 0 (ceilDiv len P)) b <-> s <= b < s + len.
Proof.
  rewrite requested_parts.
  apply (parts_cover len P s b partSize_pos offset_nonneg).
Qed.

Variable object : list byte.

Lemma sliceStore_part i :
  0 <= i < ceilDiv len P ->
  sliceStore object (rangeRequest i)
  = Fulfilled
      {| Body := slice object (startByteOfPart i P s) (endByteOfPart i len P s - 1);
         ContentRange :=
           Some (getRangeOfPart i len P s +:+ "/"
                 +:+ numToString (Z.of_nat (List.length object)));
         ContentType := None |}.
Proof.
  intros Hi. unfold sliceStore. cbn [setRange Range].
  rewrite getInformationFromRange_part by assumption. reflexivity.
Qed.

(** Consecutive parts of the object, put end to end. *)
Lemma concat_slices (k : nat) :
  Z.of_nat k <= ceilDiv len P ->
  concat ((fun i => slice object (startByteOfPart i P s) (endByteOfPart i len P s - 1))
            <$> seqZ 0 (Z.of_nat k))
  = take (Z.to_nat (Z.min len (Z.of_nat k * P))) (drop (Z.to_nat s) object).
Proof.
  induction k as [|k IH]; intros Hk.
  - rewrite seqZ_nil by lia.
    replace (Z.to_nat (Z.min len (Z.of_nat 0 * P))) with 0%nat by lia. reflexivity.
  - rewrite seqZ_S, fmap_app, concat_app, IH by lia.
    cbn [fmap list_fmap concat]. rewrite app_nil_r, Z.add_0_l.
    pose proof (ceilDiv_lt len P (Z.of_nat k) partSize_pos ltac:(lia)) as Hlt.
    unfold slice, startByteOfPart, endByteOfPart.
    replace (Z.to_nat (Z.of_nat k * P + s))
      with (Z.to_nat s + Z.to_nat (Z.min len (Z.of_nat k * P)))%nat by nia.
    rewrite <- drop_drop, take_take_drop. f_equal. nia.
Qed.

Lemma concat_all_slices :
  0 <= len ->
  concat ((fun i => slice object (startByteOfPart i P s) (endByteOfPart i len P s - 1))
            <$> seqZ 0 (ceilDiv len P))
  = slice object s (s + len - 1).
Proof.
  intros Hlen. pose proof (ceilDiv_bounds len P partSize_pos) as Hb.
  assert (0 <= ceilDiv len P) by nia.
  rewrite <- (Z2Nat.id (ceilDiv len P)) at 1 by assumption.
  rewrite concat_slices by lia. unfold slice. f_equal. nia.
Qed.

End ClientRange.

(** C2 (as the code has it).  For a request without part number whose
    Range is [bytes=s-e] with [s < e], when the fetches succeed: the first
    fetch and the pipeline together ask for the consecutive ranges of the
    parts of [e - s] bytes from offset [s]; at no moment has a byte outside
    [s .. e-1] been asked for, and when the download has finished the bytes
    asked for are exactly those of the half-open interval [s, e) -- the
    byte at offset [e] itself is not among them.  The chunks written are
    the bodies of these fetches in order, followed by the end of the
    stream; against a store that serves the ranges of an object their
    concatenation is the object's bytes [s .. e-1]. *)
Theorem getObjectStream_client_range_half_open
    (this : ManagedDownloader) (ready : nat -> bool) (request : GetObjectStreamInput)
    (r : string) (s e : Z) (evs : list Event) :
  1 <= maxConcurrency this ->
  1 <= maxPartSize this ->
  truthyString (Bucket request) = true ->
  truthyString (Key request) = true ->
  truthyNum (PartNumber request) = false ->
  Range request = Some r ->
  getInformationFromRange r = inr (RangeInfo.mk s e (e - s)) ->
  s < e ->
  let parts := ceilDiv (e - s) (maxPartSize this) in
  let fetch i := setRange request (getRangeOfPart i (e - s) (maxPartSize this) s) in
  (forall i, 0 <= i < parts -> exists data, client this (fetch i) = Fulfilled data) ->
  exists st0,
    getObjectStream this ready request = Resolves st0
    /\ let st := run this ready evs st0 in
       (forall b, requested (getObjectCalls st) b -> s <= b < e)
       /\ (control st = Returned ->
           getObjectCalls st = fetch <$> seqZ 0 parts
           /\ (forall b, requested (getObjectCalls st) b <-> s <= b < e)
           /\ written (destinationStream st)
              = (bodyOfPart this request (e - s) s <$> seqZ 0 parts)
           /\ last (destinationStream st) = Some EndStream
           /\ forall object,
                client this = sliceStore object ->
                concat (written (destinationStream st)) = slice object s (e - 1))
       /\ (exists evs', control (run this ready (evs ++ evs') st0) = Returned).
Proof.
  intros Hc HP HB HK HPN HRange Hinfo Hse parts fetch Hok.
  set (len := e - s) in *. set (P := maxPartSize this) in *.
  assert (HR : truthyString (Range request) = true).
  { rewrite HRange. destruct r; [discriminate Hinfo | reflexivity]. }
  destruct (getInformationFromRange_shape r _ Hinfo) as (Hs & _). cbn in Hs.
  pose proof (prepareRequest_range this request (RangeInfo.mk s e len) HR HPN) as Hprep.
  rewrite HRange in Hprep. specialize (Hprep Hinfo). cbn [RangeInfo.length RangeInfo.startByte] in Hprep.
  fold P in Hprep. change (setRange request (getRangeOfPart 0 len P s)) with (fetch 0) in Hprep.
  assert (Hparts : 1 <= parts) by (pose proof (ceilDiv_gt len P 0 HP); unfold parts; lia).
  destruct (Hok 0 ltac:(lia)) as [data0 Hdata0].
  assert (Hres : forall data, resolveContentLength (Some len) data = inr (Int len)).
  { intros data. unfold resolveContentLength.
    destruct (Z.eqb_spec len 0); [lia | reflexivity]. }
  (* what remains to show once the calls and the sink are known *)
  assert (Hfinish :
            forall st : Pipeline,
              getObjectCalls st = fetch <$> seqZ 0 parts ->
              written (destinationStream st)
              = (bodyOfPart this request len s <$> seqZ 0 parts) ->
              last (destinationStream st) = Some EndStream ->
              getObjectCalls st = fetch <$> seqZ 0 parts
              /\ (forall b, requested (getObjectCalls st) b <-> s <= b < e)
              /\ written (destinationStream st)
                 = (bodyOfPart this request len s <$> seqZ 0 parts)
              /\ last (destinationStream st) = Some EndStream
              /\ forall object,
                   client this = sliceStore object ->
                   concat (written (destinationStream st)) = slice object s (e - 1)).
  { intros st Hcalls Hwr Hlast.
    split; [exact Hcalls|]. split; [|split; [exact Hwr|split; [exact Hlast|]]].
    - intros b. rewrite Hcalls.
      pose proof (requested_all request len P s HP Hs b) as Hiff.
      unfold fetch, parts. rewrite Hiff. lia.
    - intros object Hstore. rewrite Hwr.
      replace (e - 1) with (s + len - 1) by lia.
      rewrite <- (concat_all_slices len P s HP Hs object) by lia.
      f_equal. apply list_fmap_ext. intros k i Hi.
      apply lookup_seqZ in Hi as [-> Hk].
      unfold bodyOfPart, requestOfPart. rewrite Hstore.
      fold P. rewrite (sliceStore_part request len P s HP Hs object) by (fold parts; lia).
      reflexivity. }
  destruct (getObjectStream_cases this ready request _ _ _ HB HK Hprep)
    as [(err & _ & Hwhy)
       | [(data & n & Hd & Hn & Hsmall & ->) | (data & l & Hd & Hn & Hl & _ & ->)]].
  - exfalso. destruct Hwhy as [Hrej | (data & _ & Hn)]; [congruence|].
    rewrite Hres in Hn. discriminate.
  - (* a single part *)
    rewrite Hres in Hn. injection Hn as <-.
    destruct Hsmall as [Hsmall | Hpn]; [|cbn in Hpn; congruence].
    cbn in Hsmall. fold P in Hsmall.
    destruct (Z.ltb_spec P len) as [|Hle]; [discriminate|].
    assert (Hone : parts = 1)
      by (pose proof (ceilDiv_bounds len P HP); unfold parts in *; nia).
    eexists. split; [reflexivity|]. cbn zeta.
    match goal with
    | |- context [run this ready evs ?x] =>
        destruct (run_Returned this ready evs x eq_refl) as (Hctl & Hsink & Hcalls & _)
    end.
    assert (data = data0) as -> by congruence.
    assert (Hcalls' : fetch <$> seqZ 0 parts = [fetch 0]) by (rewrite Hone; reflexivity).
    assert (Hbody : bodyOfPart this request len s <$> seqZ 0 parts = [Body data0]).
    { rewrite Hone. change (seqZ 0 1) with [0]. cbn [fmap list_fmap].
      unfold bodyOfPart, requestOfPart. fold P.
      change (setRange request (getRangeOfPart 0 len P s)) with (fetch 0).
      rewrite Hdata0. reflexivity. }
    cbn [noPipeline destinationStream getObjectCalls] in Hsink, Hcalls.
    split; [|split].
    + rewrite Hcalls, <- Hcalls'. intros b Hreq.
      apply requested_all in Hreq; [lia | assumption..].
    + intros _. apply Hfinish.
      * rewrite Hcalls. symmetry. exact Hcalls'.
      * rewrite Hsink, Hbody. reflexivity.
      * rewrite Hsink. reflexivity.
    + exists []. rewrite app_nil_r. exact Hctl.
  - (* the pipeline runs from part 1 *)
    rewrite Hres in Hn. injection Hn as <-.
    eexists. split; [reflexivity|]. cbn zeta.
    pose proof (launched_inv this ready HP Hc (fetch 0)
                  (bootstrapSink ready (Int len) data) len (Some s) evs) as Hinv.
    pose proof Hinv as Hsum. apply Inv_summary in Hsum; try assumption.
    destruct Hsum as (n & tail & Hsink & _ & _ & _ & Hcalls & _ & Hb & _ & _ & _ & Hctl).
    match goal with
    | H : getObjectCalls ?x = _ |- _ => set (st := x) in *
    end.
    cbn [default from_option id] in *. fold P in Hb, Hctl.
    change (totalParts this len) with parts in *.
    assert (data = data0) as -> by congruence.
    assert (Hcalls' : getObjectCalls st = fetch <$> seqZ 0 (currentPart st)).
    { rewrite Hcalls, (seqZ_cons 0 (currentPart st)) by lia.
      replace (Z.pred (currentPart st)) with (currentPart st - 1) by lia. reflexivity. }
    split; [|split].
    + rewrite Hcalls'. intros b Hreq.
      apply requested_within in Hreq; [lia | assumption.. | fold parts; lia].
    + intros Hret. rewrite Hret in Hctl.
      destruct Hctl as [(-> & Hn & Hcur) | (err & _ & E & Hlt)].
      * apply Hfinish.
        -- rewrite Hcalls'. do 2 f_equal. lia.
        -- rewrite Hsink, written_sink by auto.
           rewrite (seqZ_cons 0 parts) by lia. cbn [fmap list_fmap].
           replace (Z.pred parts) with (Z.of_nat n) by lia. cbn. f_equal.
           unfold bodyOfPart, requestOfPart. fold P.
           change (setRange request (getRangeOfPart 0 len P s)) with (fetch 0).
           rewrite Hdata0. reflexivity.
        -- rewrite Hsink, !app_assoc. apply last_snoc.
      * exfalso. destruct (Hok (1 + Z.of_nat n) ltac:(lia)) as [d Hd'].
        change (client this (fetch (1 + Z.of_nat n)) = Rejected err) in E. congruence.
    + apply can_return in Hinv as [evs' Hevs']; try assumption.
      exists evs'. rewrite run_app. exact Hevs'.
Qed.

Lemma getObjectStream_client_range_half_open_witness :
  let this := Examples.downloader (sliceStore Examples.object100) 10 2 in
  let request := Examples.source (Some "bytes=32-68") None in
  let ready := Examples.alwaysReady in
  let evs := [Settle 2; Settle 1; Tick; Tick; Tick; Tick; Settle 3; Tick; Tick] in
  let parts := ceilDiv (68 - 32) (maxPartSize this) in
  let fetch i := setRange request (getRangeOfPart i (68 - 32) (maxPartSize this) 32) in
  (1 <= maxConcurrency this /\ 1 <= maxPartSize this
   /\ truthyString (Bucket request) = true /\ truthyString (Key request) = true
   /\ truthyNum (PartNumber request) = false
   /\ Range request = Some "bytes=32-68"
   /\ getInformationFromRange "bytes=32-68" = inr (RangeInfo.mk 32 68 (68 - 32))
   /\ 32 < 68
   /\ (forall i, 0 <= i < parts -> exists data, client this (fetch i) = Fulfilled data))
  /\ exists st0,
       getObjectStream this ready request = Resolves st0
       /\ let st := run this ready evs st0 in
          (forall b, requested (getObjectCalls st) b -> 32 <= b < 68)
          /\ (control st = Returned ->
              getObjectCalls st = fetch <$> seqZ 0 parts
              /\ (forall b, requested (getObjectCalls st) b <-> 32 <= b < 68)
              /\ written (destinationStream st)
                 = (bodyOfPart this request (68 - 32) 32 <$> seqZ 0 parts)
              /\ last (destinationStream st) = Some EndStream
              /\ forall object,
                   client this = sliceStore object ->
                   concat (written (destinationStream st)) = slice object 32 (68 - 1))
          /\ (exists evs', control (run this ready (evs ++ evs') st0) = Returned).
Proof.
  cbv zeta.
  assert (Hok : forall i,
            0 <= i < ceilDiv (68 - 32)
                       (maxPartSize (Examples.downloader (sliceStore Examples.object100) 10 2)) ->
            exists data,
              client (Examples.downloader (sliceStore Examples.object100) 10 2)
                (setRange (Examples.source (Some "bytes=32-68") None)
                   (getRangeOfPart i (68 - 32)
                      (maxPartSize (Examples.downloader (sliceStore Examples.object100) 10 2))
                      32))
              = Fulfilled data).
  { intros i Hi. eexists. cbn [client maxPartSize Examples.downloader] in *.
    apply sliceStore_part; [lia | lia | exact Hi]. }
  split.
  - split; [vm_compute; congruence|]. split; [vm_compute; congruence|].
    split; [reflexivity|]. split; [reflexivity|]. split; [reflexivity|].
    split; [reflexivity|]. split; [reflexivity|]. split; [lia | exact Hok].
  - apply (getObjectStream_client_range_half_open
             (Examples.downloader (sliceStore Examples.object100) 10 2)
             Examples.alwaysReady (Examples.source (Some "bytes=32-68") None)
             "bytes=32-68" 32 68
             [Settle 2; Settle 1; Tick; Tick; Tick; Tick; Settle 3; Tick; Tick]);
      [vm_compute; congruence | vm_compute; congruence | reflexivity | reflexivity
      | reflexivity | reflexivity | reflexivity | lia | exact Hok].
Defined.

(** The run of the witness, evaluated: four fetches, the bytes 32 .. 67 of
    the object delivered in order. *)
Example client_range_run :
  let this := Examples.downloader (sliceStore Examples.object100) 10 2 in
  exists st0,
    getObjectStream this Examples.alwaysReady (Examples.source (Some "bytes=32-68") None)
    = Resolves st0
    /\ let st := run this Examples.alwaysReady
                   [Settle 2; Settle 1; Tick; Tick; Tick; Tick; Settle 3; Tick; Tick] st0 in
       control st = Returned
       /\ Range <$> getObjectCalls st
          = [Some "bytes=32-41"; Some "bytes=42-51"; Some "bytes=52-61"; Some "bytes=62-67"]
       /\ concat (written (destinationStream st)) = take 36 (drop 32 Examples.object100)
       /\ contentLengthsSet (destinationStream st) = [Int 36].
Proof.
  cbv zeta. eexists. split; [reflexivity|].
  vm_compute. repeat split; reflexivity.
Qed.

(** C2, the claim as stated fails.  For [bytes=0-9] and a part size of 10
    the only fetch asks for [bytes=0-8]: byte 9, the last byte the range
    names, is never asked for and nine bytes are delivered.  For
    [bytes=5-5] the first fetch asks for the empty [bytes=5-4] and the
    pipeline then asks for bytes from 15 on, outside the client's bounds
    however they are read. *)
Lemma client_range_not_covered :
  (let this := Examples.downloader (sliceStore Examples.object100) 10 1 in
   exists st,
     getObjectStream this Examples.alwaysReady (Examples.source (Some "bytes=0-9") None)
     = Resolves st
     /\ control st = Returned
     /\ Range <$> getObjectCalls st = [Some "bytes=0-8"]
     /\ rangeCoversb "bytes=0-9" 9 = true
     /\ requestedb (getObjectCalls st) 9 = false
     /\ concat (written (destinationStream st)) = take 9 Examples.object100
     /\ concat (written (destinationStream st)) <> take 10 Examples.object100)
  /\ (let this := Examples.downloader (Examples.mockStore "bytes=0-9/100") 10 1 in
      exists st,
        getObjectStream this Examples.alwaysReady (Examples.source (Some "bytes=5-5") None)
        = Resolves st
        /\ Range <$> getObjectCalls st = [Some "bytes=5-4"; Some "bytes=15-24"]
        /\ requestedb (getObjectCalls st) 5 = false
        /\ requestedb (getObjectCalls st) 15 = true
        /\ rangeCoversb "bytes=5-5" 15 = false).
Proof.
  cbv zeta. split.
  - eexists. split; [reflexivity|]. vm_compute. repeat split; try reflexivity.
    discriminate.
  - eexists. split; [reflexivity|]. vm_compute. repeat split; reflexivity.
Qed.

(** * Further properties of the code *)

(** ** The constructor and the range arithmetic *)


(** X2.  The size of a part.  For a part size of at least 1 and a part
    that exists ([0 <= partNum < ceil(totalObjectLength / maxPartSize)]),
    the range [getRangeOfPart] returns names between 1 and [maxPartSize]
    bytes: exactly [maxPartSize] for every part but the last, and what is
    left of the object, [totalObjectLength - partNum * maxPartSize], for
    the last.  No fetch of the pipeline asks for more than one part size
    of data. *)
Theorem getRangeOfPart_part_sizes (partNum totalObjectLength maxPartSize byteOffset : Z) :
  1 <= maxPartSize -> 0 <= byteOffset ->
  0 <= partNum < ceilDiv totalObjectLength maxPartSize ->
  exists first last,
    getInformationFromRange (getRangeOfPart partNum totalObjectLength maxPartSize byteOffset)
    = inr (RangeInfo.mk first last (last - first))
    /\ (forall b,
          rangeCovers (getRangeOfPart partNum totalObjectLength maxPartSize byteOffset) b
          <-> first <= b < first + (last - first + 1))
    /\ 1 <= last - first + 1 <= maxPartSize
    /\ (partNum + 1 < ceilDiv totalObjectLength maxPartSize ->
        last - first + 1 = maxPartSize)
    /\ (partNum + 1 = ceilDiv totalObjectLength maxPartSize ->
        last - first + 1 = totalObjectLength - partNum * maxPartSize).
Proof.
  intros HP Hoff Hi.
  pose proof (part_bounds partNum totalObjectLength maxPartSize byteOffset HP Hoff Hi)
    as [H0 H1].
  pose proof (ceilDiv_bounds totalObjectLength maxPartSize HP) as Hb.
  eexists _, _. split; [apply getInformationFromRange_part; assumption|].
  unfold startByteOfPart, endByteOfPart in *.
  split; [|split; [|split]].
  - intros b. rewrite rangeCovers_part by assumption. lia.
  - nia.
  - intros Hnext.
    pose proof (ceilDiv_lt totalObjectLength maxPartSize (partNum + 1) HP Hnext). nia.
  - intros Hlast. nia.
Qed.

Lemma getRangeOfPart_part_sizes_witness :
  (1 <= 10 /\ 0 <= 7 /\ 0 <= 9 < ceilDiv 95 10)
  /\ exists first last,
       getInformationFromRange (getRangeOfPart 9 95 10 7)
       = inr (RangeInfo.mk first last (last - first))
       /\ (forall b,
             rangeCovers (getRangeOfPart 9 95 10 7) b
             <-> first <= b < first + (last - first + 1))
       /\ 1 <= last - first + 1 <= 10
       /\ (9 + 1 < ceilDiv 95 10 -> last - first + 1 = 10)
       /\ (9 + 1 = ceilDiv 95 10 -> last - first + 1 = 95 - 9 * 10).
Proof.
  change (ceilDiv 95 10) with 10.
  split; [lia | apply (getRangeOfPart_part_sizes 9 95 10 7); change (ceilDiv 95 10) with 10; lia].
Defined.

(** X3.  A part past the end.  When the object ends at or before the start
    of the part ([totalObjectLength <= partNum * maxPartSize], which
    includes part 0 of an empty object), [getRangeOfPart] still returns a
    string: its last byte, [totalObjectLength + byteOffset - 1], precedes
    its first, [partNum * maxPartSize + byteOffset], so the range names no
    byte at all.  The unit tests pin such strings for lengths below the
    part size. *)
Theorem getRangeOfPart_past_end (partNum totalObjectLength maxPartSize byteOffset : Z) :
  0 <= maxPartSize -> 0 <= byteOffset ->
  0 <= totalObjectLength <= partNum * maxPartSize ->
  getRangeOfPart partNum totalObjectLength maxPartSize byteOffset
  = formatRange (partNum * maxPartSize + byteOffset) (totalObjectLength + byteOffset - 1)
  /\ totalObjectLength + byteOffset - 1 < partNum * maxPartSize + byteOffset
  /\ forall b,
       ~ rangeCovers (getRangeOfPart partNum totalObjectLength maxPartSize byteOffset) b.
Proof.
  intros HP Hoff HL.
  assert (Heq : getRangeOfPart partNum totalObjectLength maxPartSize byteOffset
                = formatRange (partNum * maxPartSize + byteOffset)
                    (totalObjectLength + byteOffset - 1)).
  { unfold getRangeOfPart, startByteOfPart, endByteOfPart. f_equal. nia. }
  split; [exact Heq|]. split; [lia|].
  intros b. rewrite Heq, rangeCovers_format by lia. lia.
Qed.

Lemma getRangeOfPart_past_end_witness :
  (0 <= 10240 /\ 0 <= 0 /\ 0 <= 999 <= 1 * 10240)
  /\ getRangeOfPart 1 999 10240 0 = formatRange (1 * 10240 + 0) (999 + 0 - 1)
  /\ 999 + 0 - 1 < 1 * 10240 + 0
  /\ forall b, ~ rangeCovers (getRangeOfPart 1 999 10240 0) b.
Proof. split; [lia | apply (getRangeOfPart_past_end 1 999 10240 0); lia]. Defined.

(** The strings of X3 at the sizes of the unit test, and for an empty
    object. *)
Example past_end_ranges :
  getRangeOfPart 1 999 10240 0 = "bytes=10240-998"
  /\ getRangeOfPart 0 0 10240 0 = "bytes=0--1"
  /\ getInformationFromRange (getRangeOfPart 0 0 10240 0) = inl InvalidRange.
Proof. repeat split; reflexivity. Qed.

(** X4.  The part size the integration tests choose.  For at least one
    part and a non-empty object, [getMaxPartSize(numParts, length)] is a
    part size the constructor accepts, and it splits the object into at
    most [numParts] parts: exactly [numParts] when [numParts] divides the
    length. *)
Theorem getMaxPartSize_parts (numParts length : Z) :
  1 <= numParts -> 1 <= length ->
  let size := getMaxPartSize numParts length in
  1 <= size
  /\ ceilDiv length size <= numParts
  /\ ((numParts | length) -> ceilDiv length size = numParts).
Proof.
  intros Hn HL size. unfold getMaxPartSize in size.
  pose proof (ceilDiv_bounds length numParts Hn) as Hb. fold size in Hb.
  assert (Hs : 1 <= size) by nia.
  pose proof (ceilDiv_bounds length size Hs) as Hb2.
  split; [exact Hs|]. split; [nia|].
  intros [q Hq]. subst length.
  assert (size = q) by nia. nia.
Qed.

Lemma getMaxPartSize_parts_witness :
  (1 <= 8 /\ 1 <= 16000)
  /\ let size := getMaxPartSize 8 16000 in
     1 <= size
     /\ ceilDiv 16000 size <= 8
     /\ ((8 | 16000) -> ceilDiv 16000 size = 8).
Proof. split; [lia | apply (getMaxPartSize_parts 8 16000); lia]. Defined.



(** Leading zeros are read in decimal; [parseInt] alone would read more
    than the expression lets through. *)
Example parseInt_readings :
  getInformationFromRange "bytes=007-010" = inr (RangeInfo.mk 7 10 3)
  /\ parseInt "0x1f" = Int 31
  /\ parseInt " -12abc" = Int (-12)
  /\ getInformationFromRange "bytes=0x1f-40" = inl InvalidRange
  /\ getInformationFromRange "bytes= 1-2" = inl InvalidRange.
Proof. repeat split; reflexivity. Qed.

(** ** The window of fetches in flight *)

Section WindowFacts.

Variable this : ManagedDownloader.
Variable ready : nat -> bool.
Variable params0 : GetObjectStreamInput.
Variable sink0 : list SinkOp.
Variable calls0 : list GetObjectStreamInput.
Variable L off sp : Z.

Hypothesis partSize_pos : 1 <= maxPartSize this.
Hypothesis concurrency_pos : 1 <= maxConcurrency this.

Local Abbreviation N := (totalParts this L).
Local Abbreviation req := (requestOfPart this params0 L off).
Local Abbreviation delivered := (deliveries this ready params0 sink0 L off sp).
Local Abbreviation inv := (Inv this ready params0 sink0 calls0 L off sp).

Lemma issueRequests_frame n st :
  let st' := issueRequests this n st in
  currentPart st' = currentPart st + Z.of_nat n
  /\ numDownloads st' = numDownloads st
  /\ startingPart st' = startingPart st
  /\ contentLength st' = contentLength st
  /\ control st' = control st.
Proof.
  revert st. induction n as [|n IH]; intros st; cbn zeta.
  - cbn [issueRequests]. repeat split; lia.
  - cbn [issueRequests]. destruct (IH (issueRequest this st)) as (-> & -> & -> & -> & ->).
    cbn [issueRequest currentPart numDownloads startingPart contentLength control].
    repeat split; lia.
Qed.

Lemma Window_enter :
  Window this (enterDownloadByParts params0 sink0 calls0 L (Some off) sp).
Proof. unfold Window, enterDownloadByParts. cbn. lia. Qed.

(** Every event keeps the window. *)
Lemma Window_step st ev :
  inv st -> Window this st -> Window this (step this ready st ev).
Proof.
  intros H W. unfold step.
  destruct ev as [| i |].
  - destruct (control st) as [|p| |] eqn:Hc; try exact W.
    + (* the loop test *)
      unfold Inv in H. rewrite Hc in H. cbn zeta in H.
      destruct H as [HL Hoff Hsp Hnd Hcur Hq Hwin Hcalls Hpar Hsink Hful Hdw Hb Hset].
      unfold Window in W. rewrite Hc in W. cbn zeta in W.
      unfold loopHead.
      destruct (Z.ltb_spec (numDownloads st) (numParts this st - startingPart st))
        as [Hlt|Hge].
      * destruct (issueRequests_frame (Z.to_nat (numRequests this st)) st)
          as (Hcur1 & Hnd1 & Hsp1 & HL1 & Hctl1).
        assert (Hn : currentPart st + Z.of_nat (Z.to_nat (numRequests this st))
                     = Z.min (startingPart st + numDownloads st + maxConcurrency this)
                         (numParts this st)).
        { unfold numRequests. unfold numParts in *. rewrite HL, Hsp in *. fold N in *. lia. }
        destruct (queue (issueRequests this (Z.to_nat (numRequests this st)) st)) as [|p q];
          unfold Window, numParts;
          cbn [setControl setQueue control currentPart numDownloads startingPart
                 contentLength];
          rewrite Hcur1, Hnd1, Hsp1, HL1; exact Hn.
      * unfold Window, numParts.
        cbn [setControl setSink control currentPart numDownloads startingPart contentLength].
        unfold numParts in Hge. lia.
    + (* the awaited fetch *)
      destruct (isSettled p st); [|exact W].
      unfold Window in W. rewrite Hc in W. cbn zeta in W.
      unfold afterFetch. destruct p as [pr|].
      * destruct (settlesAs pr) as [result|err].
        -- unfold sinkWrite. destruct (ready _); unfold Window, numParts in *;
             cbn [setControl setSink incrNumDownloads incrDrainWaits
                    control currentPart numDownloads startingPart contentLength];
             lia.
        -- unfold Window, numParts in *.
           cbn [failWith setControl setSink control currentPart numDownloads
                  startingPart contentLength]. intros _. exact W.
      * unfold Window, numParts in *.
        cbn [failWith setControl setSink control currentPart numDownloads
               startingPart contentLength]. intros _. exact W.
  - assert (Hs : Window this (setSettled ({[ i ]} ∪ settled st) st)) by exact W.
    destruct (control st); destruct (_ && _); assumption.
  - destruct (control st) eqn:Hc; try exact W.
    unfold Window in *. rewrite Hc in W. unfold numParts in *.
    cbn [setControl incrNumDownloads control currentPart numDownloads startingPart
           contentLength] in *.
    lia.
Qed.

Lemma Window_run evs st :
  inv st -> Window this st -> Window this (run this ready evs st).
Proof.
  revert st. induction evs as [|ev evs IH]; intros st H W; [exact W|].
  cbn [run fold_left]. apply IH; [apply Inv_step | apply Window_step]; assumption.
Qed.

(** How many fetches have been issued and how many chunks written. *)
Lemma Inv_counts st :
  inv st ->
  let waiting := if control st is AwaitDrain then 1 else 0 in
  Z.of_nat (List.length (getObjectCalls st))
  = Z.of_nat (List.length calls0) + (currentPart st - sp)
  /\ Z.of_nat (writeCount (destinationStream st))
     = Z.of_nat (writeCount sink0) + numDownloads st + waiting
  /\ 0 <= numDownloads st
  /\ sp + numDownloads st + waiting <= currentPart st <= Z.max sp N
  /\ startingPart st = sp /\ contentLength st = L.
Proof.
  intros H waiting. unfold Inv in H.
  assert (Hshape : exists n q0 tail,
             Shape this ready params0 sink0 calls0 L off sp st n q0 tail
             /\ writeCount tail = 0%nat
             /\ Z.of_nat n = numDownloads st + waiting
             /\ sp + Z.of_nat n <= q0).
  { subst waiting. destruct (control st); cbn zeta in H.
    - eexists _, _, _. split; [exact H|]. destruct H. split; [reflexivity | lia].
    - destruct H as (_ & H & _). eexists _, _, _. split; [exact H|].
      destruct H. split; [reflexivity | lia].
    - destruct H as (H & _). eexists _, _, _. split; [exact H|].
      destruct H. split; [reflexivity | lia].
    - destruct H as [(H & _) | (e & _ & H & _)]; eexists _, _, _;
        (split; [exact H|]); destruct H; (split; [reflexivity | lia]). }
  destruct Hshape as (n & q0 & tail & [HL Hoff Hsp Hnd Hcur Hq Hwin Hcalls Hpar Hsink Hful Hdw Hb Hset] & Htail & Hn & Hq0).
  split; [|split; [|repeat split; assumption || lia]].
  - rewrite Hcalls, length_app, length_fmap, length_seqZ. lia.
  - rewrite Hsink, writeCount_sink, Htail. lia.
Qed.

(** The two ways the function returns, told from the store alone. *)
Lemma Returned_outcome st :
  inv st -> Window this st -> control st = Returned ->
  (destinationStream st = sink0 ++ delivered (Z.to_nat (N - sp)) ++ [EndStream]
   /\ currentPart st = Z.max sp N
   /\ forall j, sp <= j < N -> fulfilled this params0 L off j)
  \/ (exists k e,
        sp <= k < N
        /\ (forall j, sp <= j < k -> fulfilled this params0 L off j)
        /\ client this (req k) = Rejected e
        /\ destinationStream st = sink0 ++ delivered (Z.to_nat (k - sp)) ++ [EmitError e]
        /\ currentPart st = Z.min (k + maxConcurrency this) N).
Proof.
  intros H W Hc. unfold Inv in H. unfold Window, numParts in W. rewrite Hc in H, W.
  cbn zeta in H, W.
  destruct H as [([HL Hoff Hsp Hnd Hcur Hq Hwin Hcalls Hpar Hsink Hful Hdw Hb Hset] & Hge & Hempty) | (e & E & [HL Hoff Hsp Hnd Hcur Hq Hwin Hcalls Hpar Hsink Hful Hdw Hb Hset] & Hlt)].
  - left. rewrite Hempty in *. cbn [List.length Z.of_nat] in *.
    assert (Hn : Z.to_nat (numDownloads st) = Z.to_nat (N - sp)) by lia.
    rewrite <- Hn. split; [assumption|]. split; [lia|].
    intros j Hj. apply Hful. lia.
  - right. exists (sp + numDownloads st), e.
    replace (sp + numDownloads st - sp) with (numDownloads st) by lia.
    split; [lia|]. split; [intros j Hj; apply Hful; lia|].
    split; [exact E|]. split; [assumption|].
    rewrite Hsp, HL in W. apply W. exact Hlt.
Qed.

End WindowFacts.

Section LaunchedWindow.

Variable this : ManagedDownloader.
Variable ready : nat -> bool.

Hypothesis partSize_pos : 1 <= maxPartSize this.
Hypothesis concurrency_pos : 1 <= maxConcurrency this.

(** A call of [downloadByParts] on a fresh stream keeps the invariant and
    the window, whatever happens next. *)
Lemma called_inv_window request l offset sp evs :
  let st := run this ready evs
              (downloadByParts this ready request [] [] l (Some offset) sp) in
  Inv this ready request [] [] l offset sp st /\ Window this st.
Proof.
  cbn zeta.
  assert (Hinv0 : Inv this ready request [] [] l offset sp
                    (downloadByParts this ready request [] [] l (Some offset) sp)).
  { apply Inv_step; try assumption. apply Inv_enter; assumption. }
  split; [apply Inv_run; assumption|].
  eapply Window_run; try eassumption.
  eapply Window_step; try eassumption; [apply Inv_enter; assumption|].
  apply Window_enter; assumption.
Qed.

(** The chunks written by a call that has returned, and how it ended, told
    from the store, the part size and the arguments alone. *)
Lemma Returned_chunks request l offset sp evs :
  let st := run this ready evs
              (downloadByParts this ready request [] [] l (Some offset) sp) in
  let body := bodyOfPart this request l offset in
  let ok := fulfilled this request l offset in
  control st = Returned ->
  (written (destinationStream st)
   = (body <$> seqZ sp (Z.of_nat (Z.to_nat (totalParts this l - sp))))
   /\ last (destinationStream st) = Some EndStream
   /\ forall j, sp <= j < totalParts this l -> ok j)
  \/ (exists k e,
        sp <= k < totalParts this l
        /\ (forall j, sp <= j < k -> ok j)
        /\ client this (requestOfPart this request l offset k) = Rejected e
        /\ written (destinationStream st)
           = (body <$> seqZ sp (Z.of_nat (Z.to_nat (k - sp))))
        /\ last (destinationStream st) = Some (EmitError e)).
Proof.
  intros st body ok Hret.
  destruct (called_inv_window request l offset sp evs) as [Hinv HW]. fold st in Hinv, HW.
  destruct (Returned_outcome this ready request [] [] l offset sp concurrency_pos
              st Hinv HW Hret)
    as [(Hsink & _ & Hok) | (k & e & Hk & Hok & E & Hsink & _)].
  - left. split; [|split; [|exact Hok]].
    + rewrite Hsink, written_sink by auto. reflexivity.
    + rewrite Hsink, app_nil_l. apply last_snoc.
  - right. exists k, e. split; [exact Hk|]. split; [exact Hok|]. split; [exact E|].
    split.
    + rewrite Hsink, written_sink by eauto. reflexivity.
    + rewrite Hsink, app_nil_l. apply last_snoc.
Qed.

End LaunchedWindow.

(** X6.  The window of fetches in flight.  For a concurrency and a part
    size of at least 1, any store and any order of events, with [issued]
    the number of fetches [downloadByParts] has issued, [writes] the
    number of chunks it has written and [parts] the number of parts it has
    to deliver: never have more than [maxConcurrency] fetches been issued
    beyond what is written, nor more than [parts] in all; whenever the
    function is suspended on a fetch the window is full, [issued =
    min(writes + maxConcurrency, parts)]; when it returns after the end
    of the stream every part was fetched once and written; when it
    returns after an error, the fetches issued stop at the window of the
    failed part -- at most [maxConcurrency - 1] fetches beyond it. *)
Theorem downloadByParts_window
    (this : ManagedDownloader) (ready : nat -> bool) (request : GetObjectStreamInput)
    (l offset sp : Z) (evs : list Event) :
  1 <= maxConcurrency this ->
  1 <= maxPartSize this ->
  let st := run this ready evs
              (downloadByParts this ready request [] [] l (Some offset) sp) in
  let issued := Z.of_nat (List.length (getObjectCalls st)) in
  let writes := Z.of_nat (writeCount (destinationStream st)) in
  let parts := Z.max 0 (totalParts this l - sp) in
  writes <= issued <= parts
  /\ issued - writes <= maxConcurrency this
  /\ (forall p, control st = AwaitFetch p ->
        issued = Z.min (writes + maxConcurrency this) parts)
  /\ (control st = Returned ->
      (last (destinationStream st) = Some EndStream
       /\ writes = parts /\ issued = parts)
      \/ (exists e,
            last (destinationStream st) = Some (EmitError e)
            /\ writes < parts
            /\ issued = Z.min (writes + maxConcurrency this) parts)).
Proof.
  intros Hc HP st issued writes parts.
  destruct (called_inv_window this ready HP Hc request l offset sp evs) as [Hinv HW].
  fold st in Hinv, HW.
  destruct (Inv_counts this ready request [] [] l offset sp st Hinv)
    as (Hissued & Hwrites & Hnd & Hcur & Hsp & HL).
  cbn [List.length Z.of_nat] in Hissued.
  change (Z.of_nat (writeCount [])) with 0 in Hwrites.
  fold issued in Hissued. fold writes in Hwrites.
  set (N := totalParts this l) in *.
  pose proof HW as W. unfold Window, numParts in W. rewrite Hsp, HL in W.
  change (ceilDiv l (maxPartSize this)) with N in W.
  pose proof Hinv as I. unfold Inv in I.
  destruct (control st) as [|p| |] eqn:Hctl; cbn zeta in W, I.
  - repeat split; try lia; intros; discriminate.
  - destruct I as (_ & _ & Hlt). fold N in Hlt.
    repeat split; try (intros; lia); intros; discriminate.
  - destruct I as (_ & Hlt & _). fold N in Hlt.
    repeat split; try lia; intros; discriminate.
  - destruct (Returned_outcome this ready request [] [] l offset sp Hc st Hinv HW Hctl)
      as [(Hsink & Hcur' & _) | (k & e & Hk & _ & _ & Hsink & Hcur')].
    + assert (Hw : writes = parts).
      { unfold writes. rewrite Hsink, writeCount_sink.
        change (writeCount [EndStream]) with 0%nat. unfold parts, N.
        change (writeCount []) with 0%nat. lia. }
      split; [lia|]. split; [lia|]. split; [intros; discriminate|].
      intros _. left. split; [|lia].
      rewrite Hsink, app_nil_l. apply last_snoc.
    + assert (Hw : writes = k - sp).
      { unfold writes. rewrite Hsink, writeCount_sink.
        change (writeCount [EmitError e]) with 0%nat.
        change (writeCount []) with 0%nat. lia. }
      fold N in Hk, Hcur'.
      split; [lia|]. split; [lia|]. split; [intros; discriminate|].
      intros _. right. exists e. split; [|lia].
      rewrite Hsink, app_nil_l. apply last_snoc.
Qed.

Lemma downloadByParts_window_witness :
  let this :=
    Examples.downloader
      (Examples.failingOn "bytes=20-29" (Examples.mockStore "bytes=0-9/100")) 10 3 in
  let request := Examples.source (Some "bytes=10-19") None in
  let evs := [Settle 0; Tick; Tick; Settle 1; Settle 2; Tick; Tick; Tick] in
  (1 <= maxConcurrency this /\ 1 <= maxPartSize this)
  /\ let st := run this Examples.alwaysReady evs
                 (downloadByParts this Examples.alwaysReady request [] [] 100 (Some 0) 0) in
     let issued := Z.of_nat (List.length (getObjectCalls st)) in
     let writes := Z.of_nat (writeCount (destinationStream st)) in
     let parts := Z.max 0 (totalParts this 100 - 0) in
     writes <= issued <= parts
     /\ issued - writes <= maxConcurrency this
     /\ (forall p, control st = AwaitFetch p ->
           issued = Z.min (writes + maxConcurrency this) parts)
     /\ (control st = Returned ->
         (last (destinationStream st) = Some EndStream
          /\ writes = parts /\ issued = parts)
         \/ (exists e,
               last (destinationStream st) = Some (EmitError e)
               /\ writes < parts
               /\ issued = Z.min (writes + maxConcurrency this) parts)).
Proof.
  cbv zeta. split.
  - split; vm_compute; congruence.
  - apply (downloadByParts_window
             (Examples.downloader
                (Examples.failingOn "bytes=20-29" (Examples.mockStore "bytes=0-9/100")) 10 3)
             Examples.alwaysReady (Examples.source (Some "bytes=10-19") None) 100 0 0
             [Settle 0; Tick; Tick; Settle 1; Settle 2; Tick; Tick; Tick]);
      vm_compute; congruence.
Defined.

(** The run of the witness, evaluated: the unit test 'will properly handle
    errors and stop executing after an error' with a concurrency of 3.
    Part 2 fails after two writes; five fetches were issued, the parts 0
    to 4, and no more. *)
Example window_run :
  let this :=
    Examples.downloader
      (Examples.failingOn "bytes=20-29" (Examples.mockStore "bytes=0-9/100")) 10 3 in
  let st := run this Examples.alwaysReady
              [Settle 0; Tick; Tick; Settle 1; Settle 2; Tick; Tick; Tick]
              (downloadByParts this Examples.alwaysReady
                 (Examples.source (Some "bytes=10-19") None) [] [] 100 (Some 0) 0) in
  control st = Returned
  /\ writeCount (destinationStream st) = 2%nat
  /\ last (destinationStream st) = Some (EmitError (FetchError 500))
  /\ Range <$> getObjectCalls st
     = [Some "bytes=0-9"; Some "bytes=10-19"; Some "bytes=20-29"; Some "bytes=30-39";
        Some "bytes=40-49"].
Proof. vm_compute. repeat split; reflexivity. Qed.

(** X7.  The outcome does not depend on the schedule.  For a concurrency
    and a part size of at least 1 and any store: two runs of the same call
    of [downloadByParts] under two different orders of events (fetches
    settling in any order, at any time) that have both returned leave the
    same stream -- the same writes with the same results, ended or failed
    the same way --, have issued the same fetches, and leave the same
    request object. *)
Theorem downloadByParts_outcome_independent_of_schedule
    (this : ManagedDownloader) (ready : nat -> bool) (request : GetObjectStreamInput)
    (l offset sp : Z) (evs1 evs2 : list Event) :
  1 <= maxConcurrency this ->
  1 <= maxPartSize this ->
  let pipeline := downloadByParts this ready request [] [] l (Some offset) sp in
  let st1 := run this ready evs1 pipeline in
  let st2 := run this ready evs2 pipeline in
  control st1 = Returned ->
  control st2 = Returned ->
  destinationStream st1 = destinationStream st2
  /\ getObjectCalls st1 = getObjectCalls st2
  /\ params st1 = params st2.
Proof.
  intros Hc HP pipeline st1 st2 H1 H2.
  destruct (called_inv_window this ready HP Hc request l offset sp evs1) as [I1 W1].
  destruct (called_inv_window this ready HP Hc request l offset sp evs2) as [I2 W2].
  fold pipeline in I1, W1, I2, W2. fold st1 in I1, W1. fold st2 in I2, W2.
  assert (Hcur : currentPart st1 = currentPart st2
                 /\ destinationStream st1 = destinationStream st2).
  { destruct (Returned_outcome this ready request [] [] l offset sp Hc st1 I1 W1 H1)
      as [(Hs1 & Hc1 & Hf1) | (k1 & e1 & Hk1 & Hf1 & E1 & Hs1 & Hc1)];
    destruct (Returned_outcome this ready request [] [] l offset sp Hc st2 I2 W2 H2)
      as [(Hs2 & Hc2 & Hf2) | (k2 & e2 & Hk2 & Hf2 & E2 & Hs2 & Hc2)].
    - split; congruence.
    - exfalso. destruct (Hf1 k2 Hk2) as [d Hd]. congruence.
    - exfalso. destruct (Hf2 k1 Hk1) as [d Hd]. congruence.
    - assert (k1 = k2) as ->.
      { destruct (Z.lt_trichotomy k1 k2) as [Hlt | [Heq | Hgt]]; [|exact Heq|].
        - exfalso. destruct (Hf2 k1 ltac:(lia)) as [d Hd]. congruence.
        - exfalso. destruct (Hf1 k2 ltac:(lia)) as [d Hd]. congruence. }
      assert (e1 = e2) as -> by congruence.
      split; congruence. }
  destruct Hcur as [Hcur Hsink].
  apply Inv_summary in I1 as (_ & _ & _ & _ & _ & _ & Hcalls1 & Hpar1 & _).
  apply Inv_summary in I2 as (_ & _ & _ & _ & _ & _ & Hcalls2 & Hpar2 & _).
  split; [exact Hsink|]. split; congruence.
Qed.

Lemma downloadByParts_outcome_independent_of_schedule_witness :
  let this := Examples.downloader (Examples.mockStore "bytes=0-9/100") 10 3 in
  let request := Examples.source (Some "bytes=10-19") None in
  let inOrder := concat (replicate 6 [Settle 0; Settle 1; Settle 2; Settle 3; Settle 4;
                                      Tick; Tick]) in
  let pipeline := downloadByParts this Examples.alwaysReady request [] [] 50 (Some 0) 0 in
  let st1 := run this Examples.alwaysReady Examples.outOfOrder pipeline in
  let st2 := run this Examples.alwaysReady inOrder pipeline in
  (1 <= maxConcurrency this /\ 1 <= maxPartSize this
   /\ control st1 = Returned /\ control st2 = Returned)
  /\ destinationStream st1 = destinationStream st2
  /\ getObjectCalls st1 = getObjectCalls st2
  /\ params st1 = params st2.
Proof.
  cbv zeta. split.
  - split; [vm_compute; congruence|]. split; [vm_compute; congruence|].
    split; vm_compute; reflexivity.
  - apply (downloadByParts_outcome_independent_of_schedule
             (Examples.downloader (Examples.mockStore "bytes=0-9/100") 10 3)
             Examples.alwaysReady (Examples.source (Some "bytes=10-19") None) 50 0 0);
      [vm_compute; congruence | vm_compute; congruence
      | vm_compute; reflexivity | vm_compute; reflexivity].
Defined.

(** X8.  The data delivered depends neither on the concurrency nor on
    back-pressure.  Two downloaders with the same client and part size,
    whatever their concurrencies (at least 1), over two streams that
    report readiness differently, under any two orders of events: once
    both calls of [downloadByParts] have returned, the same chunks have
    been written in the same order, and both streams were ended, or both
    failed with the same error. *)
Theorem downloadByParts_chunks_independent_of_concurrency
    (this : ManagedDownloader) (concurrency : Z) (ready ready' : nat -> bool)
    (request : GetObjectStreamInput) (l offset sp : Z) (evs evs' : list Event) :
  1 <= maxConcurrency this ->
  1 <= concurrency ->
  1 <= maxPartSize this ->
  let this' := mkDownloader (client this) (maxPartSize this) concurrency in
  let st := run this ready evs
              (downloadByParts this ready request [] [] l (Some offset) sp) in
  let st' := run this' ready' evs'
               (downloadByParts this' ready' request [] [] l (Some offset) sp) in
  control st = Returned ->
  control st' = Returned ->
  written (destinationStream st) = written (destinationStream st')
  /\ last (destinationStream st) = last (destinationStream st').
Proof.
  intros Hc Hc' HP this' st st' Hret Hret'.
  destruct (Returned_chunks this ready HP Hc request l offset sp evs Hret)
    as [(Hw & Hl & Hok) | (k & e & Hk & Hok & E & Hw & Hl)];
  destruct (Returned_chunks this' ready' HP Hc' request l offset sp evs' Hret')
    as [(Hw' & Hl' & Hok') | (k' & e' & Hk' & Hok' & E' & Hw' & Hl')];
  fold st in Hw, Hl; fold st' in Hw', Hl'.
  - split; [rewrite Hw, Hw'; reflexivity | congruence].
  - exfalso. destruct (Hok k' Hk') as [d Hd].
    change (client this (requestOfPart this request l offset k') = Rejected e') in E'.
    congruence.
  - exfalso. destruct (Hok' k Hk) as [d Hd].
    change (client this (requestOfPart this request l offset k) = Fulfilled d) in Hd.
    congruence.
  - assert (k = k') as <-.
    { destruct (Z.lt_trichotomy k k') as [Hlt | [Heq | Hgt]]; [|exact Heq|]; exfalso.
      - destruct (Hok' k ltac:(lia)) as [d Hd].
        change (client this (requestOfPart this request l offset k) = Fulfilled d) in Hd.
        congruence.
      - destruct (Hok k' ltac:(lia)) as [d Hd].
        change (client this (requestOfPart this request l offset k') = Rejected e') in E'.
        congruence. }
    change (client this (requestOfPart this request l offset k) = Rejected e') in E'.
    assert (e = e') as <- by congruence.
    split; [rewrite Hw, Hw'; reflexivity | congruence].
Qed.

Lemma downloadByParts_chunks_independent_of_concurrency_witness :
  let this := Examples.downloader (Examples.mockStore "bytes=0-9/100") 10 1 in
  let this' := mkDownloader (client this) (maxPartSize this) 3 in
  let request := Examples.source (Some "bytes=10-19") None in
  let evs := concat (replicate 11 [Settle 0; Settle 1; Settle 2; Settle 3; Settle 4;
                                    Tick; Drain]) in
  let st := run this (Examples.notReadyAt 0) evs
              (downloadByParts this (Examples.notReadyAt 0) request [] [] 50 (Some 0) 0) in
  let st' := run this' Examples.alwaysReady Examples.outOfOrder
               (downloadByParts this' Examples.alwaysReady request [] [] 50 (Some 0) 0) in
  (1 <= maxConcurrency this /\ 1 <= 3 /\ 1 <= maxPartSize this
   /\ control st = Returned /\ control st' = Returned)
  /\ written (destinationStream st) = written (destinationStream st')
  /\ last (destinationStream st) = last (destinationStream st').
Proof.
  cbv zeta. split.
  - split; [vm_compute; congruence|]. split; [lia|]. split; [vm_compute; congruence|].
    split; vm_compute; reflexivity.
  - apply (downloadByParts_chunks_independent_of_concurrency
             (Examples.downloader (Examples.mockStore "bytes=0-9/100") 10 1) 3
             (Examples.notReadyAt 0) Examples.alwaysReady
             (Examples.source (Some "bytes=10-19") None) 50 0 0);
      [vm_compute; congruence | lia | vm_compute; congruence
      | vm_compute; reflexivity | vm_compute; reflexivity].
Defined.

(** X9.  Waiting for the head of the queue.  While the function is
    suspended on the fetch of the next part to write and that fetch has
    not settled, nothing moves, whatever else happens -- later parts
    settling, 'drain' events, the scheduler running --: no chunk is
    written, no new fetch is issued (a free slot of the window is only
    filled after the next write), the queue, the count of downloads and
    the request object stay as they are.  Parts that arrive early wait in
    the queue. *)
Theorem downloadByParts_waits_for_head
    (this : ManagedDownloader) (ready : nat -> bool) (st : Pipeline) (p : FetchPromise)
    (evs : list Event) :
  control st = AwaitFetch (Some p) ->
  (part p ∉ settled st) ->
  Forall (fun ev => ev <> Settle (part p)) evs ->
  let st' := run this ready evs st in
  control st' = AwaitFetch (Some p)
  /\ destinationStream st' = destinationStream st
  /\ getObjectCalls st' = getObjectCalls st
  /\ queue st' = queue st
  /\ numDownloads st' = numDownloads st
  /\ params st' = params st.
Proof.
  revert st. induction evs as [|ev evs IH]; intros st Hc Hp Hevs; cbn zeta.
  - repeat split; try reflexivity. exact Hc.
  - apply Forall_cons in Hevs as [Hev Hevs].
    change (run this ready (ev :: evs) st) with (run this ready evs (step this ready st ev)).
    assert (Hstep : control (step this ready st ev) = AwaitFetch (Some p)
                    /\ (part p ∉ settled (step this ready st ev))
                    /\ destinationStream (step this ready st ev) = destinationStream st
                    /\ getObjectCalls (step this ready st ev) = getObjectCalls st
                    /\ queue (step this ready st ev) = queue st
                    /\ numDownloads (step this ready st ev) = numDownloads st
                    /\ params (step this ready st ev) = params st).
    { unfold step. rewrite Hc. destruct ev as [|i|].
      - unfold isSettled. rewrite bool_decide_eq_false_2 by exact Hp. auto 10.
      - destruct (_ && _); [|auto 10].
        cbn [setSettled control settled destinationStream getObjectCalls queue
               numDownloads params].
        repeat split; try assumption; try reflexivity.
        intros [Hi%elem_of_singleton | Hin]%elem_of_union; [|exact (Hp Hin)].
        apply Hev. congruence.
      - auto 10. }
    destruct Hstep as (Hc' & Hp' & Hs & Hg & Hq & Hn & Hpar).
    destruct (IH _ Hc' Hp' Hevs) as (? & ? & ? & ? & ? & ?).
    repeat split; congruence.
Qed.

Lemma downloadByParts_waits_for_head_witness :
  let this := Examples.downloader (Examples.mockStore "bytes=0-9/100") 10 3 in
  let request := Examples.source (Some "bytes=10-19") None in
  let st := downloadByParts this Examples.alwaysReady request [] [] 50 (Some 0) 0 in
  let p := promiseOfPart this request 50 0 0 in
  let evs := [Settle 2; Tick; Settle 1; Tick; Drain; Tick] in
  (control st = AwaitFetch (Some p)
   /\ (part p ∉ settled st)
   /\ Forall (fun ev => ev <> Settle (part p)) evs)
  /\ let st' := run this Examples.alwaysReady evs st in
     control st' = AwaitFetch (Some p)
     /\ destinationStream st' = destinationStream st
     /\ getObjectCalls st' = getObjectCalls st
     /\ queue st' = queue st
     /\ numDownloads st' = numDownloads st
     /\ params st' = params st.
Proof.
  cbv zeta.
  assert (Hevs : Forall (fun ev => ev <> Settle 0) [Settle 2; Tick; Settle 1; Tick; Drain; Tick])
    by (repeat constructor; discriminate).
  assert (Hp : (0 : Z) ∉ (∅ : gset Z)) by apply not_elem_of_empty.
  split.
  - split; [reflexivity|]. split; [exact Hp | exact Hevs].
  - apply (downloadByParts_waits_for_head
             (Examples.downloader (Examples.mockStore "bytes=0-9/100") 10 3)
             Examples.alwaysReady
             (downloadByParts (Examples.downloader (Examples.mockStore "bytes=0-9/100") 10 3)
                Examples.alwaysReady (Examples.source (Some "bytes=10-19") None) [] [] 50
                (Some 0) 0)
             (promiseOfPart (Examples.downloader (Examples.mockStore "bytes=0-9/100") 10 3)
                (Examples.source (Some "bytes=10-19") None) 50 0 0)
             [Settle 2; Tick; Settle 1; Tick; Drain; Tick]);
      [reflexivity | exact Hp | exact Hevs].
Defined.

(** X10.  Nothing left to download.  When the content length does not
    reach beyond the parts before [startingPart] ([contentLength <=
    startingPart * maxPartSize]; a content length of 0 in particular),
    [downloadByParts] issues no fetch and leaves the request object alone:
    it ends the stream at once, and no later event changes that. *)
Theorem downloadByParts_nothing_left
    (this : ManagedDownloader) (ready : nat -> bool) (request : GetObjectStreamInput)
    (sink : list SinkOp) (calls : list GetObjectStreamInput)
    (l : Z) (offset : option Z) (sp : Z) (evs : list Event) :
  1 <= maxPartSize this ->
  l <= sp * maxPartSize this ->
  let st := run this ready evs (downloadByParts this ready request sink calls l offset sp) in
  control st = Returned
  /\ destinationStream st = sink ++ [EndStream]
  /\ getObjectCalls st = calls
  /\ params st = request.
Proof.
  intros HP HL.
  assert (Hdone : downloadByParts this ready request sink calls l offset sp
                  = setControl Returned
                      (setSink (sink ++ [EndStream])
                         (enterDownloadByParts request sink calls l offset sp))).
  { unfold downloadByParts, step, enterDownloadByParts. cbn [control].
    unfold loopHead, numParts.
    cbn [numDownloads startingPart contentLength destinationStream].
    pose proof (ceilDiv_bounds l (maxPartSize this) HP) as Hb.
    destruct (Z.ltb_spec 0 (ceilDiv l (maxPartSize this) - sp)); [nia | reflexivity]. }
  cbn zeta. rewrite Hdone.
  match goal with
  | |- context [run this ready evs ?x] =>
      destruct (run_Returned this ready evs x eq_refl) as (Hctl & Hsink & Hcalls & Hpar)
  end.
  repeat split; assumption.
Qed.

Lemma downloadByParts_nothing_left_witness :
  let this := Examples.downloader (Examples.mockStore "bytes=0-9/100") 10 2 in
  let request := Examples.source None None in
  (1 <= maxPartSize this /\ 0 <= 0 * maxPartSize this)
  /\ let st := run this Examples.alwaysReady [Tick; Settle 0; Tick]
                 (downloadByParts this Examples.alwaysReady request [] [] 0 None 0) in
     control st = Returned
     /\ destinationStream st = [] ++ [EndStream]
     /\ getObjectCalls st = []
     /\ params st = request.
Proof.
  cbv zeta.
  split; [cbn [maxPartSize Examples.downloader]; lia|].
  apply (downloadByParts_nothing_left
           (Examples.downloader (Examples.mockStore "bytes=0-9/100") 10 2)
           Examples.alwaysReady (Examples.source None None) [] [] 0 None 0
           [Tick; Settle 0; Tick]);
    cbn [maxPartSize Examples.downloader]; lia.
Defined.

(** ** The outcomes of getObjectStream *)

Section ResolvedFacts.

Variable this : ManagedDownloader.
Variable ready : nat -> bool.

(** What is known when [getObjectStream] hands out a stream. *)
Lemma getObjectStream_Resolves_inv request st0 :
  getObjectStream this ready request = Resolves st0 ->
  exists params1 contentLength byteOffset data n,
    truthyString (Bucket request) = true
    /\ truthyString (Key request) = true
    /\ prepareRequest this request = inr (params1, contentLength, byteOffset)
    /\ client this params1 = Fulfilled data
    /\ resolveContentLength contentLength data = inr n
    /\ ((st0 = noPipeline params1 (bootstrapSink ready n data ++ [EndStream]) [params1]
         /\ (exceedsPartSize this n = None \/ truthyNum (PartNumber params1) = true))
        \/ (exists l,
              n = Int l /\ maxPartSize this < l
              /\ truthyNum (PartNumber params1) = false
              /\ st0 = downloadByParts this ready params1 (bootstrapSink ready (Int l) data)
                         [params1] l byteOffset 1)).
Proof.
  intros Hgo.
  destruct (truthyString (Bucket request)) eqn:HB;
    [|unfold getObjectStream in Hgo; rewrite HB in Hgo; discriminate].
  destruct (truthyString (Key request)) eqn:HK;
    [|unfold getObjectStream in Hgo; rewrite HB, HK in Hgo; discriminate].
  destruct (prepareRequest this request) as [e|[[params1 cl] bo]] eqn:Hprep;
    [unfold getObjectStream in Hgo; rewrite HB, HK, Hprep in Hgo; discriminate|].
  destruct (getObjectStream_cases this ready request params1 cl bo HB HK Hprep)
    as [(e & Hrej & _) | [(data & n & Hd & Hn & Hsmall & Hres)
                         | (data & l & Hd & Hn & Hl & HPN & Hres)]].
  - congruence.
  - exists params1, cl, bo, data, n. repeat split; try assumption.
    left. split; [congruence | exact Hsmall].
  - exists params1, cl, bo, data, (Int l). repeat split; try assumption.
    right. exists l. repeat split; try assumption. congruence.
Qed.

End ResolvedFacts.

(** X11.  Every way [getObjectStream] rejects.  Either no fetch was issued
    and the request object is untouched: the request lacks a bucket or a
    key (absent or empty), or -- bucket and key present, no part number --
    its range is not of the accepted form; bucket and key are examined
    first.  Or exactly one fetch was issued, with the prepared request:
    the store rejected it, and the error is the store's; or the answer
    carries no ContentRange although the request does not determine a
    non-zero length.  There is no other rejection, and none after the
    first fetch has been answered in full. *)
Theorem getObjectStream_rejections
    (this : ManagedDownloader) (ready : nat -> bool) (request : GetObjectStreamInput)
    (e : Error) (p : GetObjectStreamInput) (calls : list GetObjectStreamInput) :
  getObjectStream this ready request = Rejects e p calls ->
  (calls = [] /\ p = request
   /\ ((e = InvalidParams
        /\ (truthyString (Bucket request) = false \/ truthyString (Key request) = false))
       \/ (e = InvalidRange
           /\ truthyString (Bucket request) = true
           /\ truthyString (Key request) = true
           /\ truthyString (Range request) = true
           /\ truthyNum (PartNumber request) = false
           /\ getInformationFromRange (default "" (Range request)) = inl InvalidRange)))
  \/ (calls = [p]
      /\ truthyString (Bucket request) = true
      /\ truthyString (Key request) = true
      /\ (exists contentLength byteOffset,
            prepareRequest this request = inr (p, contentLength, byteOffset))
      /\ (client this p = Rejected e
          \/ (e = TypeError
              /\ lengthUndetermined request
              /\ exists data, client this p = Fulfilled data /\ ContentRange data = None))).
Proof.
  intros Hgo.
  destruct (truthyString (Bucket request)) eqn:HB;
    [|left; unfold getObjectStream in Hgo; rewrite HB in Hgo; cbn in Hgo;
      injection Hgo as <- <- <-; auto 6].
  destruct (truthyString (Key request)) eqn:HK;
    [|left; unfold getObjectStream in Hgo; rewrite HB, HK in Hgo; cbn in Hgo;
      injection Hgo as <- <- <-; auto 6].
  destruct (prepareRequest this request) as [e'|[[params1 cl] bo]] eqn:Hprep.
  - left. unfold getObjectStream in Hgo. rewrite HB, HK, Hprep in Hgo. cbn in Hgo.
    injection Hgo as <- <- <-. split; [reflexivity|]. split; [reflexivity|]. right.
    unfold prepareRequest in Hprep.
    destruct (truthyString (Range request)) eqn:HR;
      destruct (truthyNum (PartNumber request)) eqn:HPN; cbn in Hprep; try discriminate.
    destruct (getInformationFromRange (default "" (Range request))) as [e''|info] eqn:Hinfo;
      [|discriminate].
    injection Hprep as ->.
    assert (e' = InvalidRange) as ->.
    { unfold getInformationFromRange in Hinfo.
      destruct (execRangeRegExp _) as [[]|]; congruence. }
    auto 8.
  - right.
    destruct (getObjectStream_cases this ready request params1 cl bo HB HK Hprep)
      as [(e' & Hrej & Hwhy) | [(data & n & _ & _ & _ & Hres)
                               | (data & l & _ & _ & _ & _ & Hres)]];
      [|congruence..].
    rewrite Hrej in Hgo. injection Hgo as <- <- <-.
    split; [reflexivity|]. split; [reflexivity|]. split; [reflexivity|].
    split; [eauto|].
    destruct Hwhy as [Hcl | (data & Hd & Hn)]; [left; exact Hcl|].
    right. unfold resolveContentLength in Hn.
    assert (Hcr : ContentRange data = None /\ e' = TypeError
                  /\ (cl = None \/ cl = Some 0)).
    { destruct (ContentRange data); destruct cl as [z|];
        try destruct (Z.eqb_spec z 0); try discriminate;
        injection Hn as <-; subst; auto. }
    destruct Hcr as (Hnone & -> & Hcl).
    split; [reflexivity|]. split; [|eauto].
    unfold prepareRequest in Hprep. unfold lengthUndetermined.
    destruct (truthyString (Range request)) eqn:HR; [|auto].
    destruct (truthyNum (PartNumber request)) eqn:HPN; [auto|].
    cbn in Hprep.
    destruct (getInformationFromRange (default "" (Range request))) as [|info] eqn:Hinfo;
      [discriminate|].
    injection Hprep as _ <- _.
    right. right. exists info. split; [reflexivity|].
    destruct Hcl as [|[= ->]]; [discriminate | reflexivity].
Qed.

Lemma getObjectStream_rejections_witness :
  let this := Examples.downloader (Examples.mockStore "bytes=0-9/100") 10 1 in
  let request := {| Bucket := Some "doesntexist"; Key := None;
                    Range := Some "sruti"; PartNumber := None |} in
  getObjectStream this Examples.alwaysReady request = Rejects InvalidParams request []
  /\ (([] : list GetObjectStreamInput) = [] /\ request = request
      /\ ((InvalidParams = InvalidParams
           /\ (truthyString (Bucket request) = false \/ truthyString (Key request) = false))
          \/ (InvalidParams = InvalidRange
              /\ truthyString (Bucket request) = true
              /\ truthyString (Key request) = true
              /\ truthyString (Range request) = true
              /\ truthyNum (PartNumber request) = false
              /\ getInformationFromRange (default "" (Range request)) = inl InvalidRange))
      \/ ([] = [request]
          /\ truthyString (Bucket request) = true
          /\ truthyString (Key request) = true
          /\ (exists contentLength byteOffset,
                prepareRequest this request = inr (request, contentLength, byteOffset))
          /\ (client this request = Rejected InvalidParams
              \/ (InvalidParams = TypeError
                  /\ lengthUndetermined request
                  /\ exists data,
                       client this request = Fulfilled data /\ ContentRange data = None)))).
Proof.
  cbv zeta. split; [reflexivity|].
  apply (getObjectStream_rejections
           (Examples.downloader (Examples.mockStore "bytes=0-9/100") 10 1)
           Examples.alwaysReady
           {| Bucket := Some "doesntexist"; Key := None;
              Range := Some "sruti"; PartNumber := None |}).
  reflexivity.
Defined.

(** X12.  A request with a part number.  Whatever its Range field holds
    (nothing, a range, or a string that is no range at all), a request
    with bucket, key and a non-zero part number is passed to the client
    exactly once and exactly as it is: the object is never written to.
    When the fetch is fulfilled with a ContentRange, the stream handed out
    has received the one body and is already ended, however large the
    total in the ContentRange is: [downloadByParts] is never called, and
    no later event changes anything. *)
Theorem getObjectStream_part_number
    (this : ManagedDownloader) (ready : nat -> bool) (request : GetObjectStreamInput)
    (evs : list Event) :
  truthyString (Bucket request) = true ->
  truthyString (Key request) = true ->
  truthyNum (PartNumber request) = true ->
  match getObjectStream this ready request with
  | Rejects e p calls =>
      p = request /\ calls = [request]
      /\ (client this request = Rejected e
          \/ (e = TypeError
              /\ exists data,
                   client this request = Fulfilled data /\ ContentRange data = None))
  | Resolves st0 =>
      let st := run this ready evs st0 in
      control st = Returned
      /\ params st = request
      /\ getObjectCalls st = [request]
      /\ exists data cr,
           client this request = Fulfilled data
           /\ ContentRange data = Some cr
           /\ destinationStream st
              = [SetMimeType (ContentType data);
                 SetContentLength (parseIntOpt (splitOn "/" cr !! 1%nat));
                 Write (Body data) (ready 0%nat);
                 EndStream]
  end.
Proof.
  intros HB HK HPN.
  pose proof (prepareRequest_both this request HPN) as Hprep.
  destruct (getObjectStream_cases this ready request request None None HB HK Hprep)
    as [(e & -> & Hwhy) | [(data & n & Hd & Hn & _ & ->)
                          | (data & l & _ & _ & _ & HPN' & _)]];
    [| |congruence].
  - split; [reflexivity|]. split; [reflexivity|].
    destruct Hwhy as [Hrej | (data & Hd & Hn)]; [left; exact Hrej|].
    right. unfold resolveContentLength in Hn.
    destruct (ContentRange data) eqn:Hcr; [discriminate|].
    injection Hn as <-. eauto.
  - cbn zeta.
    match goal with
    | |- context [run this ready evs ?x] =>
        destruct (run_Returned this ready evs x eq_refl) as (Hctl & Hsink & Hcalls & Hpar)
    end.
    split; [exact Hctl|]. split; [exact Hpar|]. split; [exact Hcalls|].
    unfold resolveContentLength in Hn.
    destruct (ContentRange data) as [cr|] eqn:Hcr; [|discriminate].
    injection Hn as <-. exists data, cr. repeat split; try assumption.
Qed.

Lemma getObjectStream_part_number_witness :
  let this := Examples.downloader (Examples.mockStore "bytes=0-9/100") 10 1 in
  let request := Examples.source (Some "sruti") (Some 2) in
  (truthyString (Bucket request) = true /\ truthyString (Key request) = true
   /\ truthyNum (PartNumber request) = true)
  /\ match getObjectStream this Examples.alwaysReady request with
     | Rejects e p calls =>
         p = request /\ calls = [request]
         /\ (client this request = Rejected e
             \/ (e = TypeError
                 /\ exists data,
                      client this request = Fulfilled data /\ ContentRange data = None))
     | Resolves st0 =>
         let st := run this Examples.alwaysReady [Tick; Drain; Settle 1] st0 in
         control st = Returned
         /\ params st = request
         /\ getObjectCalls st = [request]
         /\ exists data cr,
              client this request = Fulfilled data
              /\ ContentRange data = Some cr
              /\ destinationStream st
                 = [SetMimeType (ContentType data);
                    SetContentLength (parseIntOpt (splitOn "/" cr !! 1%nat));
                    Write (Body data) (Examples.alwaysReady 0%nat);
                    EndStream]
     end.
Proof.
  cbv zeta. split; [repeat split; reflexivity|].
  apply (getObjectStream_part_number
           (Examples.downloader (Examples.mockStore "bytes=0-9/100") 10 1)
           Examples.alwaysReady (Examples.source (Some "sruti") (Some 2))
           [Tick; Drain; Settle 1]);
    reflexivity.
Defined.

(** X13.  A total that is no number.  When the request does not determine
    a non-zero length and the ContentRange of the first answer has no
    number after its first '/' (no '/' at all, or something [parseInt]
    cannot read, such as [*]), nothing fails: the content length set on
    the stream is NaN, [NaN > maxPartSize] is false, so the stream gets
    the one body and is ended.  Only the first fetch is ever issued, and
    what lies beyond the first part of the object is not delivered. *)
Theorem getObjectStream_total_not_numeric
    (this : ManagedDownloader) (ready : nat -> bool) (request params1 : GetObjectStreamInput)
    (contentLength byteOffset : option Z) (data : GetObjectOutput) (cr : string)
    (evs : list Event) :
  truthyString (Bucket request) = true ->
  truthyString (Key request) = true ->
  lengthUndetermined request ->
  prepareRequest this request = inr (params1, contentLength, byteOffset) ->
  client this params1 = Fulfilled data ->
  ContentRange data = Some cr ->
  parseIntOpt (splitOn "/" cr !! 1%nat) = NaN ->
  exists st0,
    getObjectStream this ready request = Resolves st0
    /\ let st := run this ready evs st0 in
       control st = Returned
       /\ getObjectCalls st = [params1]
       /\ destinationStream st
          = [SetMimeType (ContentType data); SetContentLength NaN;
             Write (Body data) (ready 0%nat); EndStream].
Proof.
  intros HB HK Hund Hprep Hdata Hcr Hnan.
  assert (Hcl : contentLength = None \/ contentLength = Some 0).
  { destruct (lengthUndetermined_prepare this request Hund)
      as (params1' & cl' & bo' & Hprep' & Hcl').
    rewrite Hprep in Hprep'. injection Hprep' as _ <- _. exact Hcl'. }
  assert (Hres : resolveContentLength contentLength data = inr NaN).
  { unfold resolveContentLength. rewrite Hcr, Hnan. destruct Hcl as [-> | ->]; reflexivity. }
  destruct (getObjectStream_cases this ready request params1 contentLength byteOffset
              HB HK Hprep)
    as [(e & _ & Hwhy) | [(data' & n & Hd & Hn & _ & ->)
                         | (data' & l & Hd & Hn & _)]].
  - exfalso. destruct Hwhy as [Hrej | (data' & Hd & Hn)]; [congruence|].
    assert (data' = data) as -> by congruence. congruence.
  - assert (data' = data) as -> by congruence.
    assert (n = NaN) as -> by congruence.
    eexists. split; [reflexivity|]. cbn zeta.
    match goal with
    | |- context [run this ready evs ?x] =>
        destruct (run_Returned this ready evs x eq_refl) as (Hctl & Hsink & Hcalls & _)
    end.
    split; [exact Hctl|]. split; [exact Hcalls | exact Hsink].
  - exfalso. assert (data' = data) as -> by congruence. congruence.
Qed.

Lemma getObjectStream_total_not_numeric_witness :
  let this := Examples.downloader (Examples.mockStore "bytes 0-9/*") 10 1 in
  let request := Examples.source None None in
  let params1 := setRange request "bytes=0-9" in
  let data := {| Body := list_byte_of_string "bytes=0-9";
                 ContentRange := Some "bytes 0-9/*"; ContentType := None |} in
  (truthyString (Bucket request) = true /\ truthyString (Key request) = true
   /\ lengthUndetermined request
   /\ prepareRequest this request = inr (params1, None, None)
   /\ client this params1 = Fulfilled data
   /\ ContentRange data = Some "bytes 0-9/*"
   /\ parseIntOpt (splitOn "/" "bytes 0-9/*" !! 1%nat) = NaN)
  /\ exists st0,
       getObjectStream this Examples.alwaysReady request = Resolves st0
       /\ let st := run this Examples.alwaysReady [Tick; Settle 1; Tick] st0 in
          control st = Returned
          /\ getObjectCalls st = [params1]
          /\ destinationStream st
             = [SetMimeType (ContentType data); SetContentLength NaN;
                Write (Body data) (Examples.alwaysReady 0%nat); EndStream].
Proof.
  cbv zeta.
  assert (Hund : lengthUndetermined (Examples.source None None)) by (left; reflexivity).
  split; [repeat split; try reflexivity; exact Hund|].
  apply (getObjectStream_total_not_numeric
           (Examples.downloader (Examples.mockStore "bytes 0-9/*") 10 1)
           Examples.alwaysReady (Examples.source None None)
           (setRange (Examples.source None None) "bytes=0-9") None None
           {| Body := list_byte_of_string "bytes=0-9";
              ContentRange := Some "bytes 0-9/*"; ContentType := None |}
           "bytes 0-9/*" [Tick; Settle 1; Tick]);
    [reflexivity | reflexivity | exact Hund | reflexivity..].
Defined.

(** X14.  The protocol of the stream.  For a concurrency and a part size
    of at least 1, any request and any store: a stream handed out by
    [getObjectStream] has, at every moment and under any order of events,
    received its MIME type and its content length, each once and before
    anything else, then one or more writes, and after them at most one
    closing operation -- the end of the stream or an error, never both --
    which is there exactly when the download has returned: nothing is
    written after the end or after an error.  And the download does
    return once the events it waits for have been delivered often enough
    (four per part and four more suffice): no stream is left open for
    ever. *)
Theorem getObjectStream_stream_protocol
    (this : ManagedDownloader) (ready : nat -> bool) (request : GetObjectStreamInput)
    (st0 : Pipeline) (evs : list Event) :
  1 <= maxConcurrency this ->
  1 <= maxPartSize this ->
  getObjectStream this ready request = Resolves st0 ->
  let st := run this ready evs st0 in
  (exists mimeType length chunks tail,
      destinationStream st
      = SetMimeType mimeType :: SetContentLength length :: chunks ++ tail
      /\ chunks <> []
      /\ Forall (fun op => isWrite op = true) chunks
      /\ match control st with
         | Returned => tail = [EndStream] \/ exists e, tail = [EmitError e]
         | _ => tail = []
         end)
  /\ ((4 * Z.to_nat (totalParts this (contentLength st0)) + 4
       <= served this ready st0 evs)%nat ->
      control st = Returned).
Proof.
  intros Hc HP Hgo st.
  destruct (getObjectStream_Resolves_inv this ready request st0 Hgo)
    as (params1 & cl & bo & data & n & _ & _ & _ & _ & _
        & [(Hst0 & _) | (l & -> & Hl & _ & Hst0)]).
  - (* the stream was ended before it was handed out *)
    assert (Hret : control st0 = Returned) by (rewrite Hst0; reflexivity).
    destruct (run_Returned this ready evs st0 Hret) as (Hctl & Hsink & _).
    fold st in Hctl, Hsink. split; [|intros _; exact Hctl].
    exists (ContentType data), n, [Write (Body data) (ready 0%nat)], [EndStream].
    rewrite Hsink, Hctl, Hst0. split; [reflexivity|]. split; [discriminate|].
    split; [|auto]. repeat constructor.
  - (* the pipeline runs *)
    pose proof (launched_inv this ready HP Hc params1 (bootstrapSink ready (Int l) data)
                  l bo evs) as Hinv.
    rewrite <- Hst0 in Hinv. fold st in Hinv.
    split.
    + pose proof Hinv as Hsum. apply Inv_summary in Hsum; try assumption.
      destruct Hsum as (k & tail & Hsink & _ & _ & _ & _ & _ & _ & _ & _ & _ & Hctl).
      exists (ContentType data), (Int l),
        (Write (Body data) (ready 0%nat)
           :: deliveries this ready params1 (bootstrapSink ready (Int l) data) l
                (default 0 bo) 1 k),
        tail.
      split; [rewrite Hsink; reflexivity|]. split; [discriminate|].
      split.
      * constructor; [reflexivity|]. apply Forall_forall. intros op Hop.
        eapply deliveries_are_writes. exact Hop.
      * destruct (control st); try tauto.
        destruct Hctl as [(-> & _) | (e & -> & _)]; eauto.
    + intros Hserved.
      pose proof (launched_inv this ready HP Hc params1 (bootstrapSink ready (Int l) data)
                    l bo []) as Hinv0.
      cbn [run fold_left] in Hinv0. rewrite <- Hst0 in Hinv0.
      pose proof Hinv0 as Hmu. apply measure_bound in Hmu.
      eapply returns_when_served; try eassumption.
      assert (HL : contentLength st0 = l).
      { apply Inv_summary in Hinv0; try assumption.
        destruct Hinv0 as (? & ? & _ & _ & _ & _ & _ & _ & _ & HL & _). exact HL. }
      rewrite HL in Hserved. lia.
Qed.

Lemma getObjectStream_stream_protocol_witness :
  let this := Examples.downloader (Examples.mockStore "bytes=0-9/30") 10 2 in
  let request := Examples.source None None in
  let ready := Examples.notReadyAt 1 in
  let evs := [Settle 1; Tick; Drain; Tick] in
  exists st0,
    (1 <= maxConcurrency this /\ 1 <= maxPartSize this
     /\ getObjectStream this ready request = Resolves st0)
    /\ let st := run this ready evs st0 in
       (exists mimeType length chunks tail,
           destinationStream st
           = SetMimeType mimeType :: SetContentLength length :: chunks ++ tail
           /\ chunks <> []
           /\ Forall (fun op => isWrite op = true) chunks
           /\ match control st with
              | Returned => tail = [EndStream] \/ exists e, tail = [EmitError e]
              | _ => tail = []
              end)
       /\ ((4 * Z.to_nat (totalParts this (contentLength st0)) + 4
            <= served this ready st0 evs)%nat ->
           control st = Returned).
Proof.
  cbv zeta. eexists. split.
  - split; [cbn; lia|]. split; [cbn; lia|]. reflexivity.
  - apply (getObjectStream_stream_protocol
             (Examples.downloader (Examples.mockStore "bytes=0-9/30") 10 2)
             (Examples.notReadyAt 1) (Examples.source None None) _
             [Settle 1; Tick; Drain; Tick]);
      [cbn; lia | cbn; lia | reflexivity].
Defined.

(** ** Downloading a whole object *)

Section SplitFacts.

#[local] Arguments String.append !_ _ / : simpl nomatch.

Lemma occursIn_app c a b : occursIn c (a +:+ b) = occursIn c a || occursIn c b.
Proof.
  induction a as [|x a IH]; simpl; [reflexivity|]. now rewrite IH, orb_assoc.
Qed.

Lemma splitOn_absent sep s : occursIn sep s = false -> splitOn sep s = [s].
Proof.
  induction s as [|c s IH]; cbn [occursIn splitOn]; [reflexivity|].
  intros [Hc Hs]%orb_false_elim. rewrite Hc, (IH Hs). reflexivity.
Qed.

Lemma splitOn_app sep a b :
  occursIn sep a = false -> splitOn sep (a +:+ String sep b) = a :: splitOn sep b.
Proof.
  induction a as [|c a IH]; simpl.
  - intros _. rewrite Ascii.eqb_refl. reflexivity.
  - intros [Hc Ha]%orb_false_elim. rewrite Hc, (IH Ha). reflexivity.
Qed.

Lemma occursIn_digits c ds :
  allDigits ds = true -> isDigit c = false -> occursIn c ds = false.
Proof.
  intros Hds Hc. induction ds as [|d ds IH]; cbn [occursIn]; [reflexivity|].
  cbn [allDigits] in Hds. apply andb_prop in Hds as [Hd Hds].
  rewrite (IH Hds), orb_false_r.
  destruct (Ascii.eqb_spec d c) as [->|]; [congruence | reflexivity].
Qed.

Lemma rangeSyntax_no_slash r d1 d2 : rangeSyntax r d1 d2 -> occursIn "/" r = false.
Proof.
  intros (-> & H1 & _ & H2 & _).
  rewrite !occursIn_app, (occursIn_digits "/" d1 H1 eq_refl),
    (occursIn_digits "/" d2 H2 eq_refl).
  reflexivity.
Qed.

(** A non-negative number, printed, is read back by [parseInt]. *)
Lemma parseInt_numToString n : 0 <= n -> parseInt (numToString n) = Int n.
Proof.
  intros Hn. destruct (numToString_nonneg n Hn) as (Hall & Hne & Hval).
  destruct (numToString n) as [|c ds]; [congruence|].
  rewrite parseInt_digits by exact Hall. now rewrite Hval.
Qed.

(** What the test store answers to a well-formed range request: the bytes
    of the range, and a ContentRange whose total reads back as the length
    of the object. *)
Lemma sliceStore_answer object q r info :
  Range q = Some r ->
  getInformationFromRange r = inr info ->
  exists data,
    sliceStore object q = Fulfilled data
    /\ Body data = slice object (RangeInfo.startByte info) (RangeInfo.endByte info)
    /\ resolveContentLength None data = inr (Int (Z.of_nat (List.length object))).
Proof.
  intros Hq Hinfo. unfold sliceStore. rewrite Hq, Hinfo.
  eexists. split; [reflexivity|]. split; [reflexivity|].
  unfold resolveContentLength. cbn [ContentRange]. do 2 f_equal.
  apply (proj1 (getInformationFromRange_accepts_syntax_aux r info)) in Hinfo.
  destruct Hinfo as (d1 & d2 & Hsyn & _).
  change (r +:+ "/" +:+ numToString (Z.of_nat (List.length object)))
    with (r +:+ String "/" (numToString (Z.of_nat (List.length object)))).
  rewrite (splitOn_app "/" r _ (rangeSyntax_no_slash r d1 d2 Hsyn)).
  rewrite splitOn_absent.
  - cbn [lookup list_lookup parseIntOpt]. apply parseInt_numToString. lia.
  - destruct (numToString_nonneg (Z.of_nat (List.length object)) ltac:(lia)) as (Hall & _).
    apply occursIn_digits; [exact Hall | reflexivity].
Qed.

End SplitFacts.

Section SinkMetadata.

Lemma contentLengthsSet_app s1 s2 :
  contentLengthsSet (s1 ++ s2) = contentLengthsSet s1 ++ contentLengthsSet s2.
Proof. unfold contentLengthsSet. apply omap_app. Qed.

Lemma contentLengthsSet_deliveries this ready params0 sink0 L off sp n :
  contentLengthsSet (deliveries this ready params0 sink0 L off sp n) = [].
Proof.
  unfold deliveries, contentLengthsSet.
  induction (seq 0 n) as [|j js IH]; [reflexivity|]. cbn. exact IH.
Qed.

End SinkMetadata.

(** X15.  Downloading a whole object.  For a concurrency and a part size
    of at least 1 and a request with bucket and key but neither range nor
    part number, against a store that serves the byte ranges of an object
    and reports its length after the '/' of ContentRange: the stream's
    content length is the length of the object; at every moment, under
    any order of events, the bytes written so far are an initial segment
    of the object; when the download has returned they are the object,
    byte for byte, followed by the end of the stream, and the fetches
    issued were [bytes=0-(maxPartSize-1)] followed by the ranges of the
    parts 1 to [ceil(length / maxPartSize) - 1] in ascending order, each
    once; and the download has returned once the events it waits for have
    been delivered often enough. *)
Theorem getObjectStream_whole_object
    (this : ManagedDownloader) (ready : nat -> bool) (request : GetObjectStreamInput)
    (object : list byte) (evs : list Event) :
  1 <= maxConcurrency this ->
  1 <= maxPartSize this ->
  truthyString (Bucket request) = true ->
  truthyString (Key request) = true ->
  truthyString (Range request) = false ->
  truthyNum (PartNumber request) = false ->
  client this = sliceStore object ->
  let total := Z.of_nat (List.length object) in
  let parts := Z.max 1 (ceilDiv total (maxPartSize this)) in
  exists st0,
    getObjectStream this ready request = Resolves st0
    /\ let st := run this ready evs st0 in
       contentLengthsSet (destinationStream st) = [Int total]
       /\ concat (written (destinationStream st)) `prefix_of` object
       /\ (control st = Returned ->
           concat (written (destinationStream st)) = object
           /\ last (destinationStream st) = Some EndStream
           /\ Range <$> getObjectCalls st
              = Some ("bytes=0-" +:+ numToString (maxPartSize this - 1))
                  :: ((fun i => Some (getRangeOfPart i total (maxPartSize this) 0))
                        <$> seqZ 1 (parts - 1)))
       /\ ((4 * Z.to_nat parts + 4 <= served this ready st0 evs)%nat ->
           control st = Returned).
Proof.
  intros Hc HP HB HK HR HPN Hstore total parts.
  set (P := maxPartSize this) in *.
  set (boot := "bytes=0-" +:+ numToString (P - 1)).
  set (params1 := setRange request boot).
  pose proof (prepareRequest_no_range this request HR HPN) as Hprep.
  fold P boot params1 in Hprep.
  assert (Hboot : getInformationFromRange boot = inr (RangeInfo.mk 0 (P - 1) (P - 1 - 0))).
  { change boot with (formatRange 0 (P - 1)). apply getInformationFromRange_format; lia. }
  destruct (sliceStore_answer object params1 boot _ eq_refl Hboot)
    as (data0 & Hdata0 & Hbody0 & Hres0).
  cbn [RangeInfo.startByte RangeInfo.endByte] in Hbody0.
  rewrite <- Hstore in Hdata0.
  pose proof (ceilDiv_bounds total P HP) as Hbounds.
  assert (Htotal : 0 <= total) by (unfold total; lia).
  (* the parts of the object as the store serves them *)
  set (piece := fun i => slice object (startByteOfPart i P 0) (endByteOfPart i total P 0 - 1)).
  assert (Hpiece : forall i, 0 <= i < ceilDiv total P ->
                             client this (setRange request (getRangeOfPart i total P 0))
                             = Fulfilled
                                 {| Body := piece i;
                                    ContentRange :=
                                      Some (getRangeOfPart i total P 0 +:+ "/"
                                            +:+ numToString (Z.of_nat (List.length object)));
                                    ContentType := None |}).
  { intros i Hi. rewrite Hstore.
    apply (sliceStore_part request total P 0 HP ltac:(lia) object i Hi). }
  assert (Hconcat : forall k : nat,
             Z.of_nat k <= ceilDiv total P ->
             concat (piece <$> seqZ 0 (Z.of_nat k))
             = take (Z.to_nat (Z.min total (Z.of_nat k * P))) object).
  { intros k Hk. unfold piece.
    rewrite (concat_slices total P 0 HP ltac:(lia) object k Hk). reflexivity. }
  destruct (getObjectStream_cases this ready request _ _ _ HB HK Hprep)
    as [(err & _ & Hwhy)
       | [(data & n & Hd & Hn & Hsmall & ->) | (data & l & Hd & Hn & Hl & _ & ->)]].
  - exfalso. destruct Hwhy as [Hrej | (data & Hd & Hn)]; [congruence|].
    assert (data = data0) as -> by congruence. congruence.
  - (* the object fits into one part *)
    assert (data = data0) as -> by congruence.
    assert (n = Int total) as -> by (unfold total; congruence).
    destruct Hsmall as [Hsmall | Hpn]; [|cbn in Hpn; congruence].
    cbn in Hsmall. fold P in Hsmall.
    destruct (Z.ltb_spec P total) as [|Hle]; [discriminate|].
    assert (Hone : parts = 1) by (unfold parts; nia).
    eexists. split; [reflexivity|]. cbn zeta.
    match goal with
    | |- context [run this ready evs ?x] =>
        destruct (run_Returned this ready evs x eq_refl) as (Hctl & Hsink & Hcalls & _)
    end.
    cbn [noPipeline destinationStream getObjectCalls] in Hsink, Hcalls.
    assert (Hwr : concat (written (bootstrapSink ready (Int total) data0 ++ [EndStream]))
                  = object).
    { cbn. rewrite app_nil_r, Hbody0. unfold slice.
      rewrite drop_0. apply take_ge. lia. }
    rewrite Hsink, Hcalls, Hwr.
    split; [reflexivity|]. split; [reflexivity|]. split; [|intros _; exact Hctl].
    intros _. split; [reflexivity|]. split; [reflexivity|].
    rewrite Hone. reflexivity.
  - (* the pipeline runs from part 1 *)
    assert (data = data0) as -> by congruence.
    assert (l = total) as -> by (unfold total; congruence).
    eexists. split; [reflexivity|]. cbn zeta.
    pose proof (launched_inv this ready HP Hc params1
                  (bootstrapSink ready (Int total) data0) total None) as Hlaunched.
    pose proof (Hlaunched evs) as Hinv.
    pose proof Hinv as Hsum. apply Inv_summary in Hsum; try assumption.
    destruct Hsum as (n & tail & Hsink & Hn' & _ & _ & Hcalls & _ & Hb & _ & _ & _ & Hctl).
    match goal with
    | H : getObjectCalls ?x = _ |- _ => set (st := x) in *
    end.
    cbn [default from_option id] in *. fold P in Hb, Hctl, Hn'.
    set (N := ceilDiv total P) in *.
    change (totalParts this total) with N in *.
    assert (HN : 2 <= N) by (unfold N; nia).
    assert (Hparts : parts = N) by (unfold parts; fold N; lia).
    assert (Htail : tail = [] \/ tail = [EndStream] \/ exists e, tail = [EmitError e]).
    { destruct (control st); auto; [tauto|].
      destruct Hctl as [(-> & _)|(e & -> & _)]; eauto. }
    assert (Hbodies : forall k : nat,
               Z.of_nat k < N ->
               Body data0 :: (bodyOfPart this params1 total 0 <$> seqZ 1 (Z.of_nat k))
               = piece <$> seqZ 0 (Z.of_nat (S k))).
    { intros k Hk. rewrite (seqZ_cons 0 (Z.of_nat (S k))) by lia.
      replace (Z.pred (Z.of_nat (S k))) with (Z.of_nat k) by lia.
      cbn [fmap list_fmap]. f_equal.
      - rewrite Hbody0. unfold piece, startByteOfPart, endByteOfPart.
        f_equal; lia.
      - apply list_fmap_ext. intros j i Hi.
        apply lookup_seqZ in Hi as [-> Hj].
        unfold bodyOfPart, requestOfPart. fold P.
        change (setRange params1 (getRangeOfPart (Z.succ 0 + Z.of_nat j) total P 0))
          with (setRange request (getRangeOfPart (Z.succ 0 + Z.of_nat j) total P 0)).
        rewrite Hpiece by (fold N; lia). reflexivity. }
    assert (Hwritten : concat (written (destinationStream st))
                       = take (Z.to_nat (Z.min total (Z.of_nat (S n) * P))) object).
    { rewrite Hsink, written_sink by assumption.
      change (written (bootstrapSink ready (Int total) data0)) with [Body data0].
      cbn [app]. rewrite Hbodies by lia. apply Hconcat. fold N. lia. }
    split; [|split; [|split]].
    + rewrite Hsink, !contentLengthsSet_app, contentLengthsSet_deliveries.
      destruct Htail as [->|[->|[e ->]]]; reflexivity.
    + rewrite Hwritten. apply prefix_take.
    + intros Hret. rewrite Hret in Hctl.
      destruct Hctl as [(-> & Hmax & Hcur) | (err & _ & E & Hlt)].
      * split; [|split].
        -- rewrite Hwritten. apply take_ge. unfold total in *. nia.
        -- rewrite Hsink, !app_assoc. apply last_snoc.
        -- rewrite Hcalls, Hparts, Hcur. cbn [fmap list_fmap app Range setRange].
           f_equal. rewrite <- list_fmap_compose.
           replace (Z.max 1 N - 1) with (N - 1) by lia. reflexivity.
      * exfalso.
        change (client this (setRange request (getRangeOfPart (1 + Z.of_nat n) total P 0))
                = Rejected err) in E.
        rewrite Hpiece in E by (fold N; lia). discriminate.
    + intros Hserved.
      pose proof (Hlaunched []) as Hinv0. cbn [run fold_left] in Hinv0.
      pose proof Hinv0 as Hmu. apply measure_bound in Hmu.
      eapply returns_when_served; try eassumption.
      change (totalParts this total) with N in Hmu. lia.
Qed.

Lemma getObjectStream_whole_object_witness :
  let this := Examples.downloader (sliceStore Examples.object100) 30 2 in
  let request := Examples.source None None in
  let ready := Examples.notReadyAt 2 in
  let evs := [Settle 2; Tick; Settle 1; Tick; Tick; Tick; Drain; Settle 3; Tick; Tick; Tick] in
  let total := Z.of_nat (List.length Examples.object100) in
  let parts := Z.max 1 (ceilDiv total (maxPartSize this)) in
  (1 <= maxConcurrency this /\ 1 <= maxPartSize this
   /\ truthyString (Bucket request) = true /\ truthyString (Key request) = true
   /\ truthyString (Range request) = false /\ truthyNum (PartNumber request) = false
   /\ client this = sliceStore Examples.object100)
  /\ exists st0,
       getObjectStream this ready request = Resolves st0
       /\ let st := run this ready evs st0 in
          contentLengthsSet (destinationStream st) = [Int total]
          /\ concat (written (destinationStream st)) `prefix_of` Examples.object100
          /\ (control st = Returned ->
              concat (written (destinationStream st)) = Examples.object100
              /\ last (destinationStream st) = Some EndStream
              /\ Range <$> getObjectCalls st
                 = Some ("bytes=0-" +:+ numToString (maxPartSize this - 1))
                     :: ((fun i => Some (getRangeOfPart i total (maxPartSize this) 0))
                           <$> seqZ 1 (parts - 1)))
          /\ ((4 * Z.to_nat parts + 4 <= served this ready st0 evs)%nat ->
              control st = Returned).
Proof.
  cbv zeta. split.
  - split; [vm_compute; congruence|]. split; [vm_compute; congruence|].
    repeat split; reflexivity.
  - apply (getObjectStream_whole_object
             (Examples.downloader (sliceStore Examples.object100) 30 2)
             (Examples.notReadyAt 2) (Examples.source None None) Examples.object100
             [Settle 2; Tick; Settle 1; Tick; Tick; Tick; Drain; Settle 3; Tick; Tick; Tick]);
      [vm_compute; congruence | vm_compute; congruence | reflexivity..].
Defined.

(** The run of the witness, evaluated: an object of 100 bytes in parts of
    30, two at a time, the third write held back until 'drain'. *)
Example whole_object_run :
  let this := Examples.downloader (sliceStore Examples.object100) 30 2 in
  exists st0,
    getObjectStream this (Examples.notReadyAt 2) (Examples.source None None) = Resolves st0
    /\ let st := run this (Examples.notReadyAt 2)
                   [Settle 2; Tick; Settle 1; Tick; Tick; Tick; Drain; Settle 3; Tick; Tick;
                    Tick]
                   st0 in
       control st = Returned
       /\ Range <$> getObjectCalls st
          = [Some "bytes=0-29"; Some "bytes=30-59"; Some "bytes=60-89"; Some "bytes=90-99"]
       /\ concat (written (destinationStream st)) = Examples.object100
       /\ drainWaits st = 1%nat.
Proof.
  cbv zeta. eexists. split; [reflexivity|].
  vm_compute. repeat split; reflexivity.
Qed.
